(** * Answer extraction and voting of the LLM evaluation scripts

    A shallow embedding of the answer-extraction pipeline found under
    [computer/LLM]: the numeric canonicalizer and the voter of
    [utils/v2/utils.py] and [utils/v3/utils.py], the equation extractor
    and the symbolic solver of [methods/v2/declarative.py], and the
    program runner of [methods/v2/program_aided_lm.py].

    Python values are modelled as follows.
    - A [str] is a list of characters.  Characters are the code points
      0..255 (Latin-1), which is enough for every character class the
      code looks at.
    - A call that may raise returns an [outcome]: [Return v] or
      [Raise e], [e] being an instance of a subclass of [Exception].
    - A [float] is an IEEE binary64 value, kept as a sign and an integer
      count of units of 2^-1074 (every finite double is such a multiple).
    - A [dict] is an association list in insertion order. *)

From Stdlib Require Import List Ascii String ZArith QArith Lia Bool Arith.
Import ListNotations.
Local Open Scope Z_scope.

(** ** The Python runtime *)

Module Py.

Definition str := list ascii.

(** A string literal. *)
Definition lit (s : string) : str := list_ascii_of_string s.

Definition ord (c : ascii) : Z := Z.of_N (N_of_ascii c).

Definition chr_eqb (a b : ascii) : bool := Ascii.eqb a b.

Fixpoint str_eqb (a b : str) : bool :=
  match a, b with
  | [], [] => true
  | x :: a', y :: b' => chr_eqb x y && str_eqb a' b'
  | _, _ => false
  end.

Definition str_eq_dec : forall a b : str, {a = b} + {a <> b} :=
  list_eq_dec ascii_dec.

(** The exceptions that occur; every one is a subclass of [Exception]. *)
Inductive exn : Type :=
| ValueError
| TypeError
| IndexError
| KeyError
| TimeoutExpired
| OtherException.

Inductive outcome (A : Type) : Type :=
| Return (a : A)
| Raise (e : exn).
Arguments Return {A} a.
Arguments Raise {A} e.

Definition bind {A B : Type} (c : outcome A) (k : A -> outcome B) : outcome B :=
  match c with
  | Return a => k a
  | Raise e => Raise e
  end.

(** [try: c except Exception: h] *)
Definition try_except {A : Type} (c : outcome A) (h : exn -> outcome A) : outcome A :=
  match c with
  | Return a => Return a
  | Raise e => h e
  end.

(** [try: c except ValueError: h]; any other exception goes on. *)
Definition try_except_ValueError {A : Type} (c : outcome A) (h : outcome A) : outcome A :=
  match c with
  | Raise ValueError => h
  | o => o
  end.

(** *** Character classes, for code points below 256 *)

Definition in_range (lo hi : Z) (c : ascii) : bool :=
  (lo <=? ord c) && (ord c <=? hi).

Definition is_ascii_digit (c : ascii) : bool := in_range 48 57 c.

(** [c.isdigit()]: the decimal digits and the superscripts 1, 2, 3. *)
Definition isdigit (c : ascii) : bool :=
  is_ascii_digit c || (ord c =? 178) || (ord c =? 179) || (ord c =? 185).

Definition is_ascii_letter (c : ascii) : bool :=
  in_range 65 90 c || in_range 97 122 c.

(** [c.isalpha()] *)
Definition isalpha (c : ascii) : bool :=
  is_ascii_letter c || (ord c =? 170) || (ord c =? 181) || (ord c =? 186)
  || in_range 192 214 c || in_range 216 246 c || in_range 248 255 c.

(** [\w] of the [re] module on a [str] pattern: alphanumerics and [_]. *)
Definition is_word (c : ascii) : bool :=
  isalpha c || isdigit c || in_range 188 190 c || (ord c =? 95).

(** [\s] and [str.strip()]: white space. *)
Definition isspace (c : ascii) : bool :=
  in_range 9 13 c || in_range 28 32 c || (ord c =? 133) || (ord c =? 160).

(** *** Strings *)

Fixpoint lstrip (s : str) : str :=
  match s with
  | c :: s' => if isspace c then lstrip s' else s
  | [] => []
  end.

Definition strip (s : str) : str := rev (lstrip (rev (lstrip s))).

(** [s.startswith(p)] *)
Fixpoint startswith (p s : str) : bool :=
  match p, s with
  | [], _ => true
  | a :: p', b :: s' => chr_eqb a b && startswith p' s'
  | _ :: _, [] => false
  end.

(** [p in s] *)
Fixpoint contains (p s : str) : bool :=
  startswith p s ||
  match s with
  | [] => false
  | _ :: s' => contains p s'
  end.

(** [s.split(sep)] for a one-character separator. *)
Fixpoint split_chr (sep : ascii) (s : str) : list str :=
  match s with
  | [] => [[]]
  | c :: s' =>
      if chr_eqb c sep then [] :: split_chr sep s'
      else match split_chr sep s' with
           | w :: ws => (c :: w) :: ws
           | [] => [[c]]
           end
  end.

(** [s.replace(c, '')] for a one-character [c]. *)
Definition remove_chr (c : ascii) (s : str) : str :=
  filter (fun x => negb (chr_eqb x c)) s.

(** *** Dictionaries and sequences *)

(** A [dict] with string keys, in insertion order. *)
Definition dict (V : Type) : Type := list (str * V).

(** [d[k]], [None] standing for a [KeyError]. *)
Fixpoint dict_get {V : Type} (d : dict V) (k : str) : option V :=
  match d with
  | [] => None
  | (k', v) :: d' => if str_eqb k' k then Some v else dict_get d' k
  end.

(** [max(values)]: a [ValueError] on an empty sequence. *)
Definition py_max (values : list nat) : outcome nat :=
  match values with
  | [] => Raise ValueError
  | v :: values' => Return (fold_left Nat.max values' v)
  end.

(** [random.choice(seq)]: an [IndexError] on an empty sequence, otherwise
    the element at a random index below [len(seq)].  [rnd] is the number
    the generator hands out; every index is reached by some [rnd]. *)
Definition random_choice {A : Type} (rnd : nat) (seq : list A) : outcome A :=
  match seq with
  | [] => Raise IndexError
  | x :: _ => Return (nth (Nat.modulo rnd (List.length seq)) seq x)
  end.

(** [s.replace(old, '')]: the occurrences of [old] are cut out from left
    to right; [skip] counts the characters of an occurrence still to drop. *)
Fixpoint remove_sub_from (old : str) (skip : nat) (s : str) : str :=
  match s with
  | [] => []
  | c :: s' =>
      match skip with
      | S skip' => remove_sub_from old skip' s'
      | O =>
          if startswith old s then remove_sub_from old (List.length old - 1) s'
          else c :: remove_sub_from old 0 s'
      end
  end.

Definition remove_sub (old : str) (s : str) : str :=
  match old with
  | [] => s
  | _ => remove_sub_from old 0 s
  end.

(** The text after the first occurrence of [p], as in
    [s[s.index(p) + len(p):]]; [None] when [p] does not occur. *)
Fixpoint after_first (p s : str) : option str :=
  if startswith p s then Some (skipn (List.length p) s)
  else match s with
       | [] => None
       | _ :: s' => after_first p s'
       end.

(** [s[2:-2]] *)
Definition slice_2_minus2 (s : str) : str :=
  firstn (List.length s - 4) (skipn 2 s).

(** [s.isalpha()]: at least one character, all of them alphabetic. *)
Definition str_isalpha (s : str) : bool :=
  negb (Nat.eqb (List.length s) 0) && forallb isalpha s.

(** *** External processes *)

(** What [subprocess.run(..., capture_output=True, text=True)] returns. *)
Record CompletedProcess : Type := {
  returncode : Z;
  stdout : str;
  stderr : str
}.

End Py.

(** ** Floating point numbers: [float(s)] and [format(x, ',.2f')] *)

Module PyFloat.
Import Py.

(** The finite doubles are the numbers [m * 2^e] with [0 <= m < 2^53] and
    [-1074 <= e <= 971]; each is an integer number [M] of units of
    [2^-1074], and [Finite neg M] stands for [(-1)^neg * M / 2^1074]. *)
Definition T : Z := 2 ^ 1074.

Inductive float : Type :=
| Finite (neg : bool) (M : Z)
| Infinity (neg : bool)
| NaN.

(** The integer nearest to [n / d], ties to the even one ([0 <= n], [0 < d]). *)
Definition rne_div (n d : Z) : Z :=
  let q := n / d in
  match 2 * (n mod d) ?= d with
  | Lt => q
  | Gt => q + 1
  | Eq => if Z.even q then q else q + 1
  end.

(** The exponent [j] of the unit in the last place of [n / d], in units
    of [2^-1074]: the integer part of [n / d * 2^1074] has [j + 53] bits,
    or fewer than 53 and then [j = 0] (a subnormal). *)
Definition ulp_exponent (n d : Z) : Z :=
  Z.max 0 (Z.log2 (n * T / d) - 52).

(** [n / d] rounded to a multiple of its unit in the last place, to the
    nearest, ties to even, in units of [2^-1074]. *)
Definition round_raw (n d : Z) : Z :=
  let j := ulp_exponent n d in
  rne_div (n * T) (d * 2 ^ j) * 2 ^ j.

(** Correctly rounded conversion of the ratio [n / d] ([0 <= n], [0 < d])
    to binary64.  [None] stands for overflow: the rounded value would be
    [2^1024] or more. *)
Definition round_ratio (n d : Z) : option Z :=
  let M := round_raw n d in
  if 2 ^ 2098 <=? M then None else Some M.

Definition digit_value (c : ascii) : Z := ord c - 48.

Definition digits_value (ds : str) : Z :=
  fold_left (fun acc c => 10 * acc + digit_value c) ds 0.

Definition split_sign (s : str) : bool * str :=
  match s with
  | c :: r =>
      if chr_eqb c "-" then (true, r)
      else if chr_eqb c "+" then (false, r)
      else (false, s)
  | [] => (false, s)
  end.

(** A minus sign at the head, if any, and what follows it. *)
Definition split_minus (s : str) : bool * str :=
  match s with
  | c :: r => if chr_eqb c "-" then (true, r) else (false, s)
  | [] => (false, s)
  end.

(** Cut at the first point. *)
Fixpoint split_point (s : str) : str * option str :=
  match s with
  | [] => ([], None)
  | c :: r =>
      if chr_eqb c "." then ([], Some r)
      else let (ip, fp) := split_point r in (c :: ip, fp)
  end.

(** The text and the digits of a fraction that may be absent. *)
Definition fraction_text (fpo : option str) : str :=
  match fpo with
  | Some fp => "."%char :: fp
  | None => []
  end.

Definition fraction_digits (fpo : option str) : str :=
  match fpo with
  | Some fp => fp
  | None => []
  end.

(** The double nearest to [(-1)^neg * n / d], an infinity on overflow. *)
Definition of_ratio (neg : bool) (n d : Z) : float :=
  match round_ratio n d with
  | Some M => Finite neg M
  | None => Infinity neg
  end.

(** [float(s)] for a string over the characters that the backward scan of
    the canonicalizer lets through (digit characters, the point and the
    minus sign): an optional sign, digits with at most one point and at
    least one digit; anything else is a [ValueError].  A decimal that is
    too large becomes an infinity.  (The other forms [float] accepts, such
    as exponents, [inf], [nan], blanks around the number and underscores,
    need a character the scan never keeps.) *)
Definition float_of_str (s : str) : outcome float :=
  let (neg, body) := split_sign s in
  let (ip, fpo) := split_point body in
  let fp := fraction_digits fpo in
  let ds := ip ++ fp in
  if forallb is_ascii_digit ds && negb (Nat.eqb (List.length ds) 0) then
    Return (of_ratio neg (digits_value ds) (10 ^ Z.of_nat (List.length fp)))
  else Raise ValueError.

Definition digit_chr (d : Z) : ascii := ascii_of_N (Z.to_N (48 + d)).

(** The decimal digits of [n], the last one first. *)
Fixpoint digits_rev (fuel : nat) (n : Z) : str :=
  match fuel with
  | O => []
  | S fuel' =>
      digit_chr (n mod 10) ::
      (if n / 10 =? 0 then [] else digits_rev fuel' (n / 10))
  end.

(** [str(n)] for [0 <= n]; [n] has at most [log2 n + 1] digits. *)
Definition decimal (n : Z) : str :=
  rev (digits_rev (S (Z.to_nat (Z.log2 n))) n).

(** A comma after every third digit, on the digits in reverse. *)
Fixpoint group3 (ds_rev : str) : str :=
  match ds_rev with
  | a :: b :: c :: (_ :: _) as rest => a :: b :: c :: ","%char :: group3 rest
  | _ => ds_rev
  end.

Definition sign_str (neg : bool) : str := if neg then lit "-" else [].

(** ["{:,.2f}".format(x)]: the exact value of [x] rounded to hundredths,
    ties to even; the integer part grouped by thousands. *)
Definition format_2f (x : float) : str :=
  match x with
  | NaN => lit "nan"
  | Infinity neg => sign_str neg ++ lit "inf"
  | Finite neg M =>
      let q := rne_div (100 * M) T in
      sign_str neg ++ rev (group3 (rev (decimal (q / 100))))
        ++ "."%char :: [digit_chr (q mod 100 / 10); digit_chr (q mod 10)]
  end.

(** The magnitudes of the doubles, in units of [2^-1074], are among the
    numbers [m * 2^i] with at most 53 bits in [m]. *)
Definition representable (M : Z) : Prop :=
  exists m i, 0 <= m <= 2 ^ 53 /\ 0 <= i /\ M = m * 2 ^ i.

(** A character of the body of a numeral: digit, point or comma. *)
Definition body_chr (c : ascii) : Prop :=
  is_ascii_digit c = true \/ c = "."%char \/ c = ","%char.

End PyFloat.

(** ** [utils/v2/utils.py] *)

Module UtilsV2.
Import Py PyFloat.

(** The loop of [extract_and_format_value] over the reversed input; the
    result is [numeric_part_reversed] when the loop ends or breaks. *)
Fixpoint scan (reversed_input : str) (numeric_part_reversed : str)
    (found_digit : bool) : str :=
  match reversed_input with
  | [] => numeric_part_reversed
  | char :: rest =>
      if isdigit char || (chr_eqb char "." && found_digit) then
        scan rest (numeric_part_reversed ++ [char]) true
      else if chr_eqb char "," && found_digit then
        scan rest numeric_part_reversed found_digit
      else if chr_eqb char "-" && found_digit then
        numeric_part_reversed ++ [char]
      else if found_digit then
        numeric_part_reversed
      else
        scan rest numeric_part_reversed found_digit
  end.

(** [numeric_part], the fragment handed to [float]. *)
Definition numeric_part (input_value : str) : str :=
  rev (scan (rev input_value) [] false).

(** A decimal numeral as the specification means it: an optional minus
    sign; digits, possibly with commas between them, from a first digit to
    a last one; and possibly a point followed by one digit or more. *)
Definition well_formed_decimal (x : str) : bool :=
  let body := snd (split_minus x) in
  let (ip, fpo) := split_point body in
  match ip with
  | c :: _ => is_ascii_digit c
  | [] => false
  end
  && match rev ip with
     | c :: _ => is_ascii_digit c
     | [] => false
     end
  && forallb (fun c => is_ascii_digit c || chr_eqb c ",") ip
  && match fpo with
     | None => true
     | Some fp => negb (Nat.eqb (List.length fp) 0) && forallb is_ascii_digit fp
     end.

Definition extract_and_format_value (input_value : str) : outcome str :=
  let numeric_part := numeric_part input_value in
  try_except_ValueError
    (bind (float_of_str (remove_chr "," numeric_part))
          (fun x => Return (format_2f x)))
    (Return (lit "bug")).

(** [select_mode_or_sample]: the answers come with their supporting
    predictions, which are counted first. *)
Definition select_mode_or_sample {D : Type} (rnd : nat)
    (unique_valid_concise : dict (list D)) : outcome (str * str) :=
  let concise_pred_frequencies :=
    map (fun kv => (fst kv, List.length (snd kv))) unique_valid_concise in
  bind (py_max (map snd concise_pred_frequencies)) (fun max_frequency =>
  let modes :=
    map fst (filter (fun kv => Nat.eqb (snd kv) max_frequency)
                    concise_pred_frequencies) in
  if Nat.eqb (List.length modes) 1 then
    match modes with
    | mode :: _ => Return (mode, lit "mode")
    | [] => Raise IndexError
    end
  else
    let weighted_modes :=
      flat_map (fun mode =>
                  match dict_get concise_pred_frequencies mode with
                  | Some freq => repeat mode freq
                  | None => []
                  end) modes in
    bind (random_choice rnd weighted_modes) (fun choice =>
    Return (choice, lit "sampling"))).

(** The world as one round of [run_llm] meets it: what the in-process
    engine call [llm(...)['choices'][0]['text']] does, and what writing the
    prompt file, running the binary and removing the file do. *)
Record engine : Type := {
  llm : outcome str;
  write_prompt : outcome unit;
  subprocess_run : outcome CompletedProcess;
  os_remove : outcome unit
}.

(** One round of the loop of [run_llm]: the string appended to
    [llm_outputs]. *)
Definition run_llm_iteration (message : str) (cpp : bool) (w : engine) : str :=
  if negb cpp then
    match bind (llm w) (fun text => Return (strip text)) with
    | Return llm_output => llm_output
    | Raise _ => lit "-1"
    end
  else
    match
      bind (write_prompt w) (fun _ =>
      bind (subprocess_run w) (fun result =>
      let result_stdout :=
        strip (remove_sub (lit "Q:") (remove_sub message (stdout result))) in
      bind (os_remove w) (fun _ =>
      if returncode result =? 0 then Return result_stdout
      else Return (lit "-1"))))
    with
    | Return llm_output => llm_output
    | Raise _ => lit "-1"
    end.

(** [run_llm]: [N_ITERATIONS] rounds, one for the decider; [world i] is
    what round [i] meets. *)
Definition run_llm (N_ITERATIONS : nat) (world : nat -> engine)
    (message : str) (cpp decider : bool) : list str :=
  let iterations := if decider then 1%nat else N_ITERATIONS in
  map (fun iteration => run_llm_iteration message cpp (world iteration))
      (seq 0 iterations).

(** [sample_based_on_frequency]: every answer as many times as it has
    supporting predictions, and one draw from that list. *)
Definition sample_based_on_frequency {D : Type} (rnd : nat)
    (unique_valid_concise : dict (list D)) : outcome (str * str) :=
  let weighted_answers :=
    flat_map (fun kv => repeat (fst kv) (List.length (snd kv)))
             unique_valid_concise in
  bind (random_choice rnd weighted_answers) (fun choice =>
  Return (choice, lit "sampling")).

End UtilsV2.

(** ** [utils/v3/utils.py] *)

Module UtilsV3.
Import Py PyFloat.

Fixpoint scan (reversed_input : str) (numeric_part_reversed : str)
    (found_digit : bool) : str :=
  match reversed_input with
  | [] => numeric_part_reversed
  | char :: rest =>
      if isdigit char || (chr_eqb char "." && found_digit) then
        scan rest (numeric_part_reversed ++ [char]) true
      else if chr_eqb char "," && found_digit then
        scan rest numeric_part_reversed found_digit
      else if chr_eqb char "-" && found_digit then
        numeric_part_reversed ++ [char]
      else if found_digit then
        numeric_part_reversed
      else
        scan rest numeric_part_reversed found_digit
  end.

Definition numeric_part (input_value : str) : str :=
  rev (scan (rev input_value) [] false).

Definition extract_and_format_value (input_value : str) : outcome str :=
  let numeric_part := numeric_part input_value in
  try_except_ValueError
    (bind (float_of_str (remove_chr "," numeric_part))
          (fun x => Return (format_2f x)))
    (Return (lit "bug")).

(** [max_frequency], [modes] and [weighted_modes] of the voter. *)
Definition max_frequency (concise_pred_frequencies : dict nat) : outcome nat :=
  py_max (map snd concise_pred_frequencies).

Definition modes (concise_pred_frequencies : dict nat) (max_frequency : nat)
  : list str :=
  map fst (filter (fun kv => Nat.eqb (snd kv) max_frequency)
                  concise_pred_frequencies).

(** Every mode is a key of the dictionary, so [d[mode]] finds it. *)
Definition weighted_modes (concise_pred_frequencies : dict nat) (modes : list str)
  : list str :=
  flat_map (fun mode =>
              match dict_get concise_pred_frequencies mode with
              | Some freq => repeat mode freq
              | None => []
              end) modes.

(** [select_mode_or_sample] on the frequencies themselves. *)
Definition select_mode_or_sample (rnd : nat) (concise_pred_frequencies : dict nat)
  : outcome (str * str) :=
  bind (max_frequency concise_pred_frequencies) (fun max_frequency =>
  let modes := modes concise_pred_frequencies max_frequency in
  if Nat.eqb (List.length modes) 1 then
    match modes with
    | mode :: _ => Return (mode, lit "mode")
    | [] => Raise IndexError
    end
  else
    let weighted_modes := weighted_modes concise_pred_frequencies modes in
    bind (random_choice rnd weighted_modes) (fun choice =>
    Return (choice, lit "sampling"))).

Record engine : Type := {
  llm : outcome str;
  write_prompt : outcome unit;
  subprocess_run : outcome CompletedProcess;
  os_remove : outcome unit
}.

(** The text after the last occurrence of [sep], [s.split(sep)[-1]];
    [best] is the text after the last occurrence seen so far. *)
Fixpoint after_last_from (sep : str) (best : str) (s : str) : str :=
  match s with
  | [] => best
  | _ :: s' =>
      if startswith sep s
      then after_last_from sep (skipn (List.length sep) s) s'
      else after_last_from sep best s'
  end.

(** [run_llm]: one call of the engine, the prediction returned. *)
Definition run_llm (w : engine) (message : str) (cpp : bool) : str :=
  if negb cpp then
    match bind (llm w) (fun text => Return (strip text)) with
    | Return prediction => prediction
    | Raise _ => lit "bug"
    end
  else
    match
      bind (write_prompt w) (fun _ =>
      bind (subprocess_run w) (fun result =>
      let assistant_start := lit "<|assistant|>" in
      let result_stdout := after_last_from assistant_start (stdout result) (stdout result) in
      let result_stdout :=
        strip (remove_sub (lit "Q:") (remove_sub message result_stdout)) in
      bind (os_remove w) (fun _ =>
      if returncode result =? 0 then Return result_stdout
      else Return (lit "bug"))))
    with
    | Return prediction => prediction
    | Raise _ => lit "bug"
    end.

(** [sample_based_on_frequency]: every answer as many times as it has
    supporting predictions, and one draw from that list. *)
Definition sample_based_on_frequency {D : Type} (rnd : nat)
    (unique_valid_concise : dict (list D)) : outcome (str * str) :=
  let weighted_answers :=
    flat_map (fun kv => repeat (fst kv) (List.length (snd kv)))
             unique_valid_concise in
  bind (random_choice rnd weighted_answers) (fun choice =>
  Return (choice, lit "sampling")).

End UtilsV3.

(** ** [methods/v2/program_aided_lm.py] *)

Module ProgramAidedLM.
Import Py.

(** What running a generated program meets: writing the script to a
    temporary file, running it under the timeout, removing the file. *)
Record executor : Type := {
  write_script : outcome unit;
  subprocess_run : outcome CompletedProcess;
  os_remove : outcome unit
}.

(** The [finally] clause: [cleanup] runs whatever [body] did, and an
    exception of its own replaces the result. *)
Definition try_finally {A : Type} (body : outcome A) (cleanup : outcome unit)
  : outcome A :=
  match cleanup with
  | Return _ => body
  | Raise e => Raise e
  end.

(** [run_code_with_subprocess_timeout]; the file is written before the
    [try] begins. *)
Definition run_code_with_subprocess_timeout (w : executor) : outcome str :=
  bind (write_script w) (fun _ =>
  try_finally
    (match subprocess_run w with
     | Return completed_process =>
         if returncode completed_process =? 0
         then Return (strip (stdout completed_process))
         else Return (lit "bug")
     | Raise TimeoutExpired => Return (lit "bug")
     | Raise _ => Return (lit "bug")
     end)
    (os_remove w)).

(** The call in [run_pal], inside its [try ... except Exception]. *)
Definition predicted_answer (w : executor) : str :=
  match run_code_with_subprocess_timeout w with
  | Return answer => answer
  | Raise _ => lit "bug"
  end.

(** The rest of the line: [[^\n]*]. *)
Fixpoint line_of (s : str) : str :=
  match s with
  | [] => []
  | c :: s' => if chr_eqb c "010" then [] else c :: line_of s'
  end.

(** [.*?return result[^\n]*] at the head of [s], the dot matching every
    character: up to the first [return result] and on to the end of its
    line. *)
Fixpoint until_return (s : str) : option str :=
  if startswith (lit "return result") s then Some (line_of s)
  else match s with
       | [] => None
       | c :: s' =>
           match until_return s' with
           | Some m => Some (c :: m)
           | None => None
           end
       end.

(** [re.search(pattern, s, re.DOTALL)] for the pattern
    [def solution.*?return result[^\n]*], the whole of it one group: the
    match at the first position that has one. *)
Fixpoint search_solution (s : str) : option str :=
  match (if startswith (lit "def solution") s
         then until_return (skipn 12 s) else None) with
  | Some m => Some (lit "def solution" ++ m)
  | None =>
      match s with
      | [] => None
      | _ :: s' => search_solution s'
      end
  end.

(** The program cut out of a prediction, the empty string when there is
    none. *)
Definition program_of (prediction : str) : str :=
  match search_solution prediction with
  | Some m => m
  | None => []
  end.

(** One round of the loop of [run_pal]: the augmented prediction and the
    concise one.  [world code] is what running [code] meets. *)
Definition run_pal_prediction (world : str -> executor) (prediction : str)
  : outcome (str * str) :=
  let prediction := program_of prediction in
  let code := prediction ++ "010"%char :: lit "print(solution())" in
  let predicted_answer := predicted_answer (world code) in
  bind (if str_eqb predicted_answer (lit "bug") then Return predicted_answer
        else UtilsV2.extract_and_format_value predicted_answer)
       (fun predicted_answer =>
  Return (prediction ++ "010"%char :: lit "#### " ++ predicted_answer,
          predicted_answer)).

End ProgramAidedLM.

(** ** [methods/v2/chain_of_thought.py], [methods/v2/decider.py] and their
    successors in [methods/v3] *)

Module ChainOfThought.
Import Py.

(** [prediction.split("The answer is ")[-1]]: the text after the last
    occurrence of the phrase, the whole prediction when it is absent. *)
Definition answer_text (prediction : str) : str :=
  UtilsV3.after_last_from (lit "The answer is ") prediction prediction.

(** The concise prediction of [run_cot] and [run_decider] (v2), and of
    [run_cot], [run_zero_shot] and [run_decider] (v3). *)
Definition predicted_answer (prediction : str) : outcome str :=
  UtilsV2.extract_and_format_value (strip (answer_text prediction)).

Definition concise_prediction (prediction : str) : outcome str :=
  UtilsV3.extract_and_format_value (strip (answer_text prediction)).

End ChainOfThought.

(** ** [methods/v2/declarative.py] *)

Module Declarative.
Import Py PyFloat.

(** *** The regular expressions *)

(** The maximal runs of word characters of [s], in order; [run] is the
    run being read, in reverse. *)
Fixpoint word_runs_from (run : str) (s : str) : list str :=
  match s with
  | [] => match run with [] => [] | _ => [rev run] end
  | c :: s' =>
      if is_word c then word_runs_from (c :: run) s'
      else match run with
           | [] => word_runs_from [] s'
           | _ => rev run :: word_runs_from [] s'
           end
  end.

Definition is_name_start (c : ascii) : bool :=
  is_ascii_letter c || (ord c =? 95).

Definition is_name (w : str) : bool :=
  match w with
  | c :: _ => is_name_start c
  | [] => false
  end.

(** [re.findall(r'\b[a-zA-Z_]\w*\b', s)].  A match begins at a word
    boundary before a word character, so at the start of a run of word
    characters, and [\w*\b] takes the run to its end: the matches are
    the maximal runs that begin with a letter or an underscore. *)
Definition findall_names (s : str) : list str :=
  filter is_name (word_runs_from [] s).

(** [re.sub(r'\b{}\b'.format(long_var), short_var, s)]: [long_var] is made
    of word characters, so it matches exactly the maximal runs equal to it. *)
Definition sub_run (long_var short_var : str) (run : str) : str :=
  let w := rev run in
  if str_eqb w long_var then short_var else w.

Fixpoint sub_word_from (long_var short_var : str) (run : str) (s : str) : str :=
  match s with
  | [] => sub_run long_var short_var run
  | c :: s' =>
      if is_word c then sub_word_from long_var short_var (c :: run) s'
      else sub_run long_var short_var run ++ c :: sub_word_from long_var short_var [] s'
  end.

Definition sub_word (long_var short_var : str) (s : str) : str :=
  sub_word_from long_var short_var [] s.

(** The text of the first match of [.*?\]\]] at the head of [s], and
    what follows it; the dot does not match a line feed. *)
Fixpoint lazy_until_close (s : str) : option (str * str) :=
  match s with
  | [] => None
  | c :: s' =>
      if startswith (lit "]]") s then Some (lit "]]", skipn 2 s)
      else if chr_eqb c "010" then None
      else match lazy_until_close s' with
           | Some (m, r) => Some (c :: m, r)
           | None => None
           end
  end.

(** [re.findall(r'\[\[.*?\]\]', s)]: the matches from left to right,
    none overlapping; [skip] counts the characters of the last match
    still to pass. *)
Fixpoint findall_brackets_from (skip : nat) (s : str) : list str :=
  match s with
  | [] => []
  | _ :: s' =>
      match skip with
      | S skip' => findall_brackets_from skip' s'
      | O =>
          if startswith (lit "[[") s then
            match lazy_until_close (skipn 2 s) with
            | Some (m, _) =>
                (lit "[[" ++ m) :: findall_brackets_from (S (List.length m)) s'
            | None => findall_brackets_from 0 s'
            end
          else findall_brackets_from 0 s'
      end
  end.

Definition findall_brackets (s : str) : list str := findall_brackets_from 0 s.

(** *** [simplify_variables] *)

(** [chr(i) for i in range(97, 123)] *)
Definition lowercase_letters : list ascii :=
  map (fun i => ascii_of_nat i) (seq 97 26).

Definition long_var_names (var_names : list str) : list str :=
  filter (fun var => Nat.ltb 1 (List.length var)) var_names.

Definition unused_chars (var_names : list str) : list ascii :=
  filter (fun c => negb (existsb (str_eqb [c]) var_names)) lowercase_letters.

(** [{var: unused_chars.pop(0) for var in long_var_names}]; [pop] on an
    empty list is an [IndexError]. *)
Fixpoint var_mapping (long_var_names : list str) (unused_chars : list ascii)
  : outcome (dict str) :=
  match long_var_names with
  | [] => Return []
  | var :: long_var_names' =>
      match unused_chars with
      | [] => Raise IndexError
      | c :: unused_chars' =>
          bind (var_mapping long_var_names' unused_chars') (fun m =>
          Return ((var, [c]) :: m))
      end
  end.

(** [simplify_variables] once the set [var_names] has been listed; a
    Python set may come in any order. *)
Definition simplify_variables_in (var_names : list str) (equations : str)
  : outcome (str * dict str) :=
  let long_var_names := long_var_names var_names in
  let unused_chars := unused_chars var_names in
  bind (var_mapping long_var_names unused_chars) (fun var_mapping =>
  Return (fold_left (fun equations kv => sub_word (fst kv) (snd kv) equations)
                    var_mapping equations,
          var_mapping)).

(** [simplify_variables], the set listed in the order of [nodup]. *)
Definition simplify_variables (equations : str) : outcome (str * dict str) :=
  simplify_variables_in (nodup str_eq_dec (findall_names equations)) equations.

(** *** The extraction of the equations *)

(** [re.sub(r'[^\w\s=+\-*/()0-9.\[\]]', '', equation_text)] *)
Definition clean_equation_text (equation_text : str) : str :=
  filter (fun c => is_word c || isspace c || is_ascii_digit c
                   || existsb (chr_eqb c) (lit "=+-*/().[]"))
         equation_text.

Definition reformat_incre_equations (x : list str) : str :=
  fold_left (fun result eq =>
               if Nat.eqb (List.length result) 0
               then result ++ slice_2_minus2 eq
               else result ++ lit ", " ++ slice_2_minus2 eq)
            x [].

Definition reformat_equations_from_peano (eq_list : str) : str :=
  fold_left (fun result eq =>
               match after_first (lit "eq") eq with
               | Some tail =>
                   if Nat.eqb (List.length result) 0 then result ++ tail
                   else result ++ lit ", " ++ tail
               | None =>
                   match after_first (lit "answer") eq with
                   | Some tail =>
                       if Nat.eqb (List.length result) 0
                       then result ++ strip tail ++ lit " = ?"
                       else result ++ lit ", " ++ strip tail ++ lit " = ?"
                   | None => result
                   end
               end)
            (split_chr "," eq_list) [].

Definition get_declarative_equations (prediction : str) : str :=
  let eq_list := findall_brackets prediction in
  if Nat.ltb 0 (List.length eq_list) then
    let cleaned_eq_list := map clean_equation_text eq_list in
    reformat_equations_from_peano (reformat_incre_equations cleaned_eq_list)
  else prediction.

(** *** The solver *)

(** What [get_final_using_sympy] returns: a float or a string. *)
Inductive pyval : Type :=
| VFloat (x : float)
| VStr (s : str).

(** The objects [solve] hands back: an expression, a list (or tuple) of
    objects, or a dictionary from symbols, named by their strings. *)
#[warnings="-register-all"] Inductive obj (E : Type) : Type :=
| OExpr (e : E)
| OList (l : list (obj E))
| ODict (d : list (str * obj E)).
Arguments OExpr {E} e.
Arguments OList {E} l.
Arguments ODict {E} d.

(** The part of SymPy the solver calls.  [parse_expr] comes with the
    transformations of the source (implicit multiplication, [^] as a
    power); each call may raise. *)
Record Sympy : Type := {
  Expr : Type;
  parse_expr : str -> outcome Expr;
  sympify : Expr -> outcome Expr;
  float_of_expr : Expr -> outcome float;
  solve_expr : Expr -> outcome (obj Expr);
  solve_list : list Expr -> outcome (obj Expr)
}.

(** What the solver may return: a float or one of the four tags. *)
Definition float_or_tag (v : pyval) : Prop :=
  (exists x, v = VFloat x)
  \/ v = VStr (lit "invalid equations")
  \/ v = VStr (lit "no goal found")
  \/ v = VStr (lit "no solution")
  \/ v = VStr (lit "bug").

Section Solver.

Variable sympy : Sympy.
Let E : Type := Expr sympy.

(** [o[0]] *)
Definition getitem_0 (o : obj E) : outcome (obj E) :=
  match o with
  | OList (x :: _) => Return x
  | OList [] => Raise IndexError
  | ODict _ => Raise KeyError
  | OExpr _ => Raise TypeError
  end.

(** [o[Symbol(name)]] *)
Definition getitem_symbol (o : obj E) (name : str) : outcome (obj E) :=
  match o with
  | ODict d =>
      match dict_get d name with
      | Some x => Return x
      | None => Raise KeyError
      end
  | OList _ => Raise TypeError
  | OExpr _ => Raise TypeError
  end.

(** [float(o)] *)
Definition float_of_obj (o : obj E) : outcome float :=
  match o with
  | OExpr e => float_of_expr sympy e
  | OList _ => Raise TypeError
  | ODict _ => Raise TypeError
  end.

(** Three alphabetic characters in a row somewhere in [eq]. *)
Fixpoint three_alpha (eq : str) : bool :=
  match eq with
  | a :: ((b :: c :: _) as eq') =>
      (isalpha a && isalpha b && isalpha c) || three_alpha eq'
  | _ => false
  end.

(** [string.ascii_lowercase + string.ascii_uppercase] *)
Definition ascii_letters : list ascii :=
  map (fun i => ascii_of_nat i) (seq 97 26 ++ seq 65 26).

(** [s.split('=')[0]] *)
Definition before_equals (s : str) : str := hd [] (split_chr "=" s).

(** The search for the goal variable in the last equation.  [inl v]: the
    solver returns [v] at once; [inr (goal_var, goal_expression_list)]:
    it goes on. *)
Definition find_goal (last_equation : str)
  : outcome (pyval + (option str * list E)) :=
  let lhs := strip (before_equals last_equation) in
  if str_isalpha lhs || Nat.eqb (List.length lhs) 2 then
    Return (inr (Some lhs, []))
  else if contains (lit "=") last_equation then
    match find (fun l => negb (contains [l] last_equation)) ascii_letters with
    | Some l =>
        let goal_var := [l] in
        let goal_expression := goal_var ++ lit " - (" ++ lhs ++ lit ")" in
        bind (parse_expr sympy goal_expression) (fun goal_expression =>
        bind (sympify sympy goal_expression) (fun goal_expression =>
        match bind (solve_expr sympy goal_expression) (fun sol =>
              bind (getitem_0 sol) float_of_obj) with
        | Return x => Return (inl (VFloat x))
        | Raise _ => Return (inr (Some goal_var, [goal_expression]))
        end))
    | None => Return (inl (VStr (lit "invalid equations")))
    end
  else Return (inr (None, [])).

(** [float(solve(l)[Symbol(goal_var)])], and on any exception
    [float(solve(l)[0][Symbol(goal_var)])]. *)
Definition solve_for (goal_expression_list : list E) (goal_var : str)
  : outcome float :=
  try_except
    (bind (solve_list sympy goal_expression_list) (fun sol =>
     bind (getitem_symbol sol goal_var) float_of_obj))
    (fun _ =>
     bind (solve_list sympy goal_expression_list) (fun sol =>
     bind (getitem_0 sol) (fun first =>
     bind (getitem_symbol first goal_var) float_of_obj))).

(** [sub_eqs_split[0].strip() + ' - (' + sub_eqs_split[1].strip() + ')']:
    an [IndexError] when there is no [=]. *)
Definition difference_text (sub_eqs : str) : outcome str :=
  match split_chr "=" sub_eqs with
  | l :: r :: _ => Return (strip l ++ lit " - (" ++ strip r ++ lit ")")
  | _ => Raise IndexError
  end.

(** The loop over all equations but the last. *)
Fixpoint solve_loop (equations : list str) (goal_expression_list : list E)
    (goal_var : str) : outcome pyval :=
  match equations with
  | [] => Return (VStr (lit "no solution"))
  | sub_eqs :: equations' =>
      if negb (contains (lit "?") sub_eqs) then
        match bind (difference_text sub_eqs) (fun text =>
              bind (parse_expr sympy text) (sympify sympy)) with
        | Raise _ => Return (VStr (lit "invalid equations"))
        | Return sub_eqs =>
            let goal_expression_list := goal_expression_list ++ [sub_eqs] in
            match solve_for goal_expression_list goal_var with
            | Return x => Return (VFloat x)
            | Raise _ => solve_loop equations' goal_expression_list goal_var
            end
        end
      else solve_loop equations' goal_expression_list goal_var
  end.

(** The body of the outer [try]. *)
Definition solve_body (equations : str) : outcome pyval :=
  bind (simplify_variables equations) (fun simplified =>
  let equations := fst simplified in
  if str_eqb equations (lit "nan") then Return (VFloat NaN)
  else
    let equation_list := split_chr "," equations in
    if existsb three_alpha equation_list then
      Return (VStr (lit "invalid equations"))
    else
      bind (find_goal (last equation_list [])) (fun goal =>
      match goal with
      | inl v => Return v
      | inr (goal_var, goal_expression_list) =>
          if Nat.eqb (List.length equation_list) 1 then
            match bind (parse_expr sympy (before_equals (hd [] equation_list)))
                       (fun goal_expression =>
                  bind (sympify sympy goal_expression) (float_of_expr sympy)) with
            | Return x => Return (VFloat x)
            | Raise _ => Return (VStr (lit "invalid equations"))
            end
          else
            match goal_var with
            | None => Return (VStr (lit "no goal found"))
            | Some goal_var =>
                solve_loop (removelast equation_list) goal_expression_list goal_var
            end
      end)).

Definition get_final_using_sympy (equations : str) : outcome pyval :=
  try_except (solve_body equations)
             (fun _ => Return (VStr (lit "bug"))).

End Solver.

End Declarative.

(** ** SymPy on linear arithmetic *)

(** An instance of the interface for linear arithmetic over the rationals,
    the part of SymPy met by the equations studied below.  An expression
    is kept in normal form, [c + a1*x1 + ... + an*xn] with the symbols in
    order.  The texts read are made of integer literals, one-letter
    symbols, [+ - * /], brackets and blanks, a juxtaposition being a
    product; the letters [E I N O Q S] name objects of SymPy, not symbols.
    On anything else (longer names, decimal literals, powers, products of
    symbols, a division by zero or by a symbol) this instance raises
    [OtherException]; it says nothing of what SymPy does there. *)
Module ArithSympy.
Import Py PyFloat Declarative.

Definition lin : Type := (Q * list (ascii * Q))%type.

Definition is_zero (q : Q) : bool := Qeq_bool q 0.

Fixpoint add_term (c : ascii) (q : Q) (ts : list (ascii * Q)) : list (ascii * Q) :=
  match ts with
  | [] => if is_zero q then [] else [(c, q)]
  | (c', q') :: ts' =>
      if chr_eqb c c' then
        let s := Qred (q + q') in
        if is_zero s then ts' else (c, s) :: ts'
      else if ord c <? ord c' then
        if is_zero q then ts else (c, q) :: ts
      else (c', q') :: add_term c q ts'
  end.

Definition lin_add (a b : lin) : lin :=
  (Qred (fst a + fst b),
   fold_right (fun t acc => add_term (fst t) (snd t) acc) (snd a) (snd b)).

Definition lin_scale (k : Q) (a : lin) : lin :=
  if is_zero k then (0%Q, [])
  else (Qred (k * fst a), map (fun t => (fst t, Qred (k * snd t))) (snd a)).

Definition lin_neg (a : lin) : lin := lin_scale (-1 # 1) a.

Definition lin_mul (a b : lin) : option lin :=
  match snd a, snd b with
  | [], _ => Some (lin_scale (fst a) b)
  | _, [] => Some (lin_scale (fst b) a)
  | _, _ => None
  end.

Definition lin_div (a b : lin) : option lin :=
  match snd b with
  | [] => if is_zero (fst b) then None else Some (lin_scale (Qinv (fst b)) a)
  | _ => None
  end.

(** *** Reading a text *)

Inductive token : Type :=
| TInt (n : Z)
| TName (c : ascii)
| TOp (c : ascii).

Definition is_symbol_letter (c : ascii) : bool :=
  is_ascii_letter c && negb (existsb (chr_eqb c) (lit "EINOQS")).

Definition head_is (p : ascii -> bool) (s : str) : bool :=
  match s with
  | c :: _ => p c
  | [] => false
  end.

(** The integer literal whose digits, in reverse, are [num], ended by the
    character [next]: no leading zero, and no character after it that
    would make another kind of literal. *)
Definition literal (num : str) (next : option ascii) : option (list token) :=
  match num with
  | [] => Some []
  | _ =>
      let ds := rev num in
      let leading_zero := head_is (chr_eqb "0") ds && Nat.ltb 1 (List.length ds) in
      let continued :=
        match next with
        | Some c =>
            existsb (chr_eqb c) (lit "eEjJ_.")
            || (str_eqb ds (lit "0") && existsb (chr_eqb c) (lit "xXoObB"))
        | None => false
        end in
      if leading_zero || continued then None
      else Some [TInt (digits_value ds)]
  end.

(** The token of one character that is not a digit; [rest] follows it. *)
Definition single (c : ascii) (rest : str) : option (list token) :=
  if chr_eqb c " " || chr_eqb c "009" then Some []
  else if is_symbol_letter c then
    if head_is is_word rest then None else Some [TName c]
  else if chr_eqb c "*" || chr_eqb c "/" then
    if head_is (chr_eqb c) rest then None else Some [TOp c]
  else if existsb (chr_eqb c) (lit "+-()") then Some [TOp c]
  else None.

Fixpoint tokens_from (num : str) (s : str) : option (list token) :=
  match s with
  | [] => literal num None
  | c :: s' =>
      if is_ascii_digit c then tokens_from (c :: num) s'
      else
        match literal num (Some c), single c s', tokens_from [] s' with
        | Some n, Some t, Some ts => Some (n ++ t ++ ts)
        | _, _, _ => None
        end
  end.

Definition ends_operand (t : token) : bool :=
  match t with
  | TInt _ | TName _ => true
  | TOp c => chr_eqb c ")"
  end.

Definition starts_operand (t : token) : bool :=
  match t with
  | TInt _ | TName _ => true
  | TOp c => chr_eqb c "("
  end.

(** A product sign between two operands that stand side by side. *)
Fixpoint implicit_multiplication (ts : list token) : list token :=
  match ts with
  | a :: ((b :: _) as ts') =>
      if ends_operand a && starts_operand b
      then a :: TOp "*" :: implicit_multiplication ts'
      else a :: implicit_multiplication ts'
  | _ => ts
  end.

Inductive level : Type :=
| Sum
| SumRest (acc : lin)
| Product
| ProductRest (acc : lin)
| Unary.

Definition is_op (c : ascii) (t : token) : bool :=
  match t with
  | TOp c' => chr_eqb c c'
  | _ => false
  end.

(** Recursive descent; [fuel] bounds the depth. *)
Fixpoint parse (fuel : nat) (l : level) (ts : list token) : option (lin * list token) :=
  match fuel with
  | O => None
  | S fuel' =>
      match l with
      | Sum =>
          match parse fuel' Product ts with
          | Some (a, ts') => parse fuel' (SumRest a) ts'
          | None => None
          end
      | SumRest acc =>
          match ts with
          | t :: ts' =>
              if is_op "+" t || is_op "-" t then
                match parse fuel' Product ts' with
                | Some (b, ts'') =>
                    parse fuel'
                      (SumRest (lin_add acc (if is_op "+" t then b else lin_neg b)))
                      ts''
                | None => None
                end
              else Some (acc, ts)
          | [] => Some (acc, ts)
          end
      | Product =>
          match parse fuel' Unary ts with
          | Some (a, ts') => parse fuel' (ProductRest a) ts'
          | None => None
          end
      | ProductRest acc =>
          match ts with
          | t :: ts' =>
              if is_op "*" t || is_op "/" t then
                match parse fuel' Unary ts' with
                | Some (b, ts'') =>
                    match (if is_op "*" t then lin_mul acc b else lin_div acc b) with
                    | Some p => parse fuel' (ProductRest p) ts''
                    | None => None
                    end
                | None => None
                end
              else Some (acc, ts)
          | [] => Some (acc, ts)
          end
      | Unary =>
          match ts with
          | TInt n :: ts' => Some ((inject_Z n, []), ts')
          | TName c :: ts' => Some ((0%Q, [(c, 1%Q)]), ts')
          | TOp c :: ts' =>
              if chr_eqb c "-" then
                match parse fuel' Unary ts' with
                | Some (a, ts'') => Some (lin_neg a, ts'')
                | None => None
                end
              else if chr_eqb c "+" then parse fuel' Unary ts'
              else if chr_eqb c "(" then
                match parse fuel' Sum ts' with
                | Some (a, t :: ts'') =>
                    if is_op ")" t then Some (a, ts'') else None
                | _ => None
                end
              else None
          | [] => None
          end
      end
  end.

Definition parse_expr (s : str) : outcome lin :=
  match tokens_from [] (strip s) with
  | Some ts =>
      let ts := implicit_multiplication ts in
      match parse (8 * List.length ts + 8) Sum ts with
      | Some (e, []) => Return e
      | _ => Raise OtherException
      end
  | None => Raise OtherException
  end.

(** *** Numbers and solutions *)

Definition float_of_Q (q : Q) : float :=
  match round_ratio (Z.abs (Qnum q)) (Z.pos (Qden q)) with
  | Some M => Finite (Qnum q <? 0) M
  | None => Infinity (Qnum q <? 0)
  end.

(** [float(e)]: a [TypeError] when a symbol is left. *)
Definition float_of_expr (e : lin) : outcome float :=
  match snd e with
  | [] => Return (float_of_Q (fst e))
  | _ => Raise TypeError
  end.

(** [e = 0] solved for its first symbol. *)
Definition isolate (e : lin) : option (ascii * lin) :=
  match snd e with
  | [] => None
  | (c, a) :: rest => Some (c, lin_scale (Qred (Qinv a * (-1 # 1))) (fst e, rest))
  end.

Definition coefficient (c : ascii) (e : lin) : Q :=
  match find (fun t => chr_eqb c (fst t)) (snd e) with
  | Some t => snd t
  | None => 0%Q
  end.

(** [e] with [v] in the place of the symbol [c]. *)
Definition substitute (c : ascii) (v : lin) (e : lin) : lin :=
  let k := coefficient c e in
  lin_add (fst e, filter (fun t => negb (chr_eqb c (fst t))) (snd e))
          (lin_scale k v).

(** Elimination, one equation after the other; [None] when the equations
    contradict each other. *)
Fixpoint eliminate (eqs : list lin) (sol : list (ascii * lin))
  : option (list (ascii * lin)) :=
  match eqs with
  | [] => Some sol
  | e :: eqs' =>
      let e' := fold_left (fun e cv => substitute (fst cv) (snd cv) e) sol e in
      match isolate e' with
      | None => if is_zero (fst e') then eliminate eqs' sol else None
      | Some (c, v) =>
          eliminate eqs'
            ((c, v) :: map (fun cv => (fst cv, substitute c v (snd cv))) sol)
      end
  end.

(** [solve(e)]: the list of the roots when one symbol occurs, a list with
    one dictionary when several do. *)
Definition solve_expr (e : lin) : outcome (obj lin) :=
  match isolate e with
  | None => Return (OList [])
  | Some (c, v) =>
      match snd v with
      | [] => Return (OList [OExpr v])
      | _ => Return (OList [ODict [([c], OExpr v)]])
      end
  end.

(** [solve(l)]: a dictionary from the symbols solved for, or the empty
    list. *)
Definition solve_list (es : list lin) : outcome (obj lin) :=
  match eliminate es [] with
  | Some (cv :: sol) =>
      Return (ODict (map (fun cv => ([fst cv], OExpr (snd cv))) (cv :: sol)))
  | _ => Return (OList [])
  end.

Definition sympy : Sympy := {|
  Expr := lin;
  Declarative.parse_expr := parse_expr;
  sympify := fun e => Return e;
  Declarative.float_of_expr := float_of_expr;
  Declarative.solve_expr := solve_expr;
  Declarative.solve_list := solve_list
|}.

End ArithSympy.

(** ** Notions used in the proofs *)

Module Notions.
Import Py Declarative.

(** [weighted_answers] of [sample_based_on_frequency]. *)
Definition weighted_answers {D : Type} (u : dict (list D)) : list str :=
  flat_map (fun kv => repeat (fst kv) (List.length (snd kv))) u.

(** What [re.sub] does to one run of word characters. *)
Definition rename (long_var short_var w : str) : str :=
  if str_eqb w long_var then short_var else w.

(** The renamings of a mapping, one after the other. *)
Definition rename_all (m : dict str) (w : str) : str :=
  fold_left (fun w kv => rename (fst kv) (snd kv) w) m w.

(** The run of word characters that ends where the scan stands. *)
Definition flush (run : str) : list str :=
  match run with
  | [] => []
  | _ => [rev run]
  end.

(** The entries of a mapping: a key is a name of more than one character,
    a value is one word character. *)
Definition entry_ok (kv : str * str) : Prop :=
  (1 < List.length (fst kv))%nat /\ is_name (fst kv) = true
  /\ exists c, snd kv = [c] /\ is_word c = true /\ c <> ","%char.

End Notions.

(** * Properties *)

(** ** The embedding at work *)

Section Examples.
Import Py PyFloat Declarative.

Example canonical_answers :
  UtilsV2.extract_and_format_value (lit "The answer is $1,234.5 dollars")
  = Return (lit "1,234.50")
  /\ UtilsV2.extract_and_format_value (lit "-42") = Return (lit "-42.00")
  /\ UtilsV2.extract_and_format_value (lit "no numbers here") = Return (lit "bug")
  /\ UtilsV2.extract_and_format_value (lit "He paid 3.5.") = Return (lit "3.50")
  /\ UtilsV2.extract_and_format_value (lit "-5 + 12") = Return (lit "12.00").
Proof. repeat apply conj; vm_compute; reflexivity. Qed.

(** The double nearest to a decimal is not the decimal: 2.675 is stored
    below 2.675 and 0.125 exactly, a tie that goes to the even digit. *)
Example canonical_rounding :
  UtilsV2.extract_and_format_value (lit "2.675") = Return (lit "2.67")
  /\ UtilsV2.extract_and_format_value (lit "0.125") = Return (lit "0.12")
  /\ UtilsV2.extract_and_format_value (lit "0.375") = Return (lit "0.38")
  /\ UtilsV2.extract_and_format_value (lit "-0.001") = Return (lit "-0.00")
  /\ UtilsV2.extract_and_format_value (lit "99999999999999999999999")
     = Return (lit "99,999,999,999,999,991,611,392.00").
Proof. repeat apply conj; vm_compute; reflexivity. Qed.

Example extraction_of_tagged_equations :
  get_declarative_equations
    (lit "... [[eq1: x + 2 = 5]] [[answer: x]] The answer is 3")
  = lit "1 x + 2 = 5, x = ?".
Proof. vm_compute. reflexivity. Qed.

Example renaming_of_long_names :
  simplify_variables (lit "total_cost = 2x + price*3 + a")
  = Return (lit "b = 2x + c*3 + a",
            [(lit "total_cost", lit "b"); (lit "price", lit "c")]).
Proof. vm_compute. reflexivity. Qed.

Example solver_on_linear_equations :
  get_final_using_sympy ArithSympy.sympy (lit "1 x + 2 = 5, x = ?")
  = Return (VFloat (Finite false (3 * T)))
  /\ get_final_using_sympy ArithSympy.sympy (lit "x + y = 5, x - y = 1, y = ?")
     = Return (VFloat (Finite false (2 * T)))
  /\ get_final_using_sympy ArithSympy.sympy (lit "x + y = 5, y = ?")
     = Return (VStr (lit "no solution"))
  /\ get_final_using_sympy ArithSympy.sympy (lit "x + 2 = 5")
     = Return (VStr (lit "invalid equations"))
  /\ get_final_using_sympy ArithSympy.sympy (lit "2 + 3 = x")
     = Return (VFloat (Finite false (5 * T)))
  /\ get_final_using_sympy ArithSympy.sympy (lit "x + y = 5, 7")
     = Return (VStr (lit "no goal found")).
Proof. repeat apply conj; vm_compute; reflexivity. Qed.

End Examples.

(** ** The canonicalizer *)

Section Canonicalizer.
Import Py PyFloat.

Lemma v3_scan_eq : forall s acc found, UtilsV3.scan s acc found = UtilsV2.scan s acc found.
Proof.
  induction s as [|c s IH]; intros acc found; simpl; [reflexivity|].
  rewrite !IH. reflexivity.
Qed.

(** The two versions of the canonicalizer are the same function. *)
Lemma v3_extract_and_format_value_eq : forall s,
  UtilsV3.extract_and_format_value s = UtilsV2.extract_and_format_value s.
Proof.
  intros s. unfold UtilsV3.extract_and_format_value, UtilsV2.extract_and_format_value,
    UtilsV3.numeric_part, UtilsV2.numeric_part.
  rewrite v3_scan_eq. reflexivity.
Qed.

Lemma scan_without_digit : forall s acc,
  (forall c, In c s -> isdigit c = false) ->
  UtilsV2.scan s acc false = acc.
Proof.
  induction s as [|c s IH]; intros acc H; simpl; [reflexivity|].
  rewrite (H c (or_introl eq_refl)).
  rewrite !andb_false_r. simpl.
  apply IH. intros c' Hc'. apply H. right. exact Hc'.
Qed.

Lemma scan_digits_points : forall t acc,
  (forall c, In c t -> isdigit c = true \/ c = "."%char) ->
  UtilsV2.scan t acc true = acc ++ t.
Proof.
  induction t as [|c t IH]; intros acc H; simpl.
  - now rewrite app_nil_r.
  - assert (E : isdigit c || (chr_eqb c "." && true) = true).
    { destruct (H c (or_introl eq_refl)) as [Hd|Hp].
      - now rewrite Hd.
      - subst c. now rewrite orb_true_r. }
    rewrite E. rewrite IH.
    + now rewrite <- app_assoc.
    + intros c' Hc'. apply H. now right.
Qed.

Lemma split_point_spec : forall s,
  let (ip, fpo) := split_point s in
  s = ip ++ fraction_text fpo /\ ~ In "."%char ip.
Proof.
  induction s as [|c s IH]; simpl.
  - split; [reflexivity|tauto].
  - destruct (chr_eqb c ".") eqn:E.
    + apply Ascii.eqb_eq in E. subst c. split; [reflexivity|simpl; tauto].
    + destruct (split_point s) as [ip fpo]. destruct IH as [IH1 IH2].
      split.
      * simpl. now rewrite <- IH1.
      * simpl. intros [H|H]; [|tauto]. subst c. discriminate E.
Qed.

Lemma count_occ_zero_notin : forall (l : str) (c : ascii),
  ~ In c l -> count_occ ascii_dec l c = 0%nat.
Proof. intros l c H. now apply count_occ_not_In. Qed.

Lemma float_of_str_two_points : forall s,
  (forall c, In c s -> isdigit c = true \/ c = "."%char) ->
  (2 <= count_occ ascii_dec s "."%char)%nat ->
  float_of_str s = Raise ValueError.
Proof.
  intros s Hs Hc. unfold float_of_str.
  assert (Hsign : split_sign s = (false, s)).
  { destruct s as [|c s]; [reflexivity|]. unfold split_sign.
    destruct (Hs c (or_introl eq_refl)) as [Hd|Hp].
    - destruct c as [[] [] [] [] [] [] [] []]; try reflexivity; discriminate Hd.
    - subst c. reflexivity. }
  rewrite Hsign.
  pose proof (split_point_spec s) as Hsp.
  destruct (split_point s) as [ip fpo]. destruct Hsp as [Heq Hip].
  destruct fpo as [fp|].
  - assert (Hin : In "."%char fp).
    { rewrite Heq in Hc. rewrite count_occ_app in Hc.
      rewrite (count_occ_zero_notin ip "." Hip) in Hc. simpl in Hc.
      destruct (ascii_dec "." ".") as [_|n]; [|congruence].
      apply (count_occ_In ascii_dec). lia. }
    simpl fraction_digits.
    assert (Hf : forallb is_ascii_digit (ip ++ fp) = false).
    { rewrite forallb_app. apply andb_false_iff. right.
      apply not_true_is_false. intros Hall. rewrite forallb_forall in Hall.
      specialize (Hall _ Hin). discriminate Hall. }
    now rewrite Hf.
  - simpl in Heq. rewrite app_nil_r in Heq. subst ip.
    rewrite (count_occ_zero_notin s "." Hip) in Hc. lia.
Qed.

Lemma remove_chr_absent : forall c s, ~ In c s -> remove_chr c s = s.
Proof.
  intros c. induction s as [|x s IH]; intros H; simpl; [reflexivity|].
  destruct (chr_eqb x c) eqn:E.
  - apply Ascii.eqb_eq in E. subst x. exfalso. apply H. now left.
  - simpl. f_equal. apply IH. intros Hin. apply H. now right.
Qed.

Lemma isdigit_not_comma : isdigit ","%char = false.
Proof. reflexivity. Qed.

End Canonicalizer.

(** C3: on a string without any digit character the canonicalizer, in
    both versions, returns the sentinel ["bug"]; it returns, it does not
    raise. *)
Theorem extract_and_format_value_no_digit : forall input_value : Py.str,
  (forall c, In c input_value -> Py.isdigit c = false) ->
  UtilsV2.extract_and_format_value input_value = Py.Return (Py.lit "bug")
  /\ UtilsV3.extract_and_format_value input_value = Py.Return (Py.lit "bug").
Proof.
  intros s H.
  assert (E : UtilsV2.extract_and_format_value s = Py.Return (Py.lit "bug")).
  { unfold UtilsV2.extract_and_format_value, UtilsV2.numeric_part.
    rewrite scan_without_digit.
    - reflexivity.
    - intros c Hc. apply H. apply in_rev. exact Hc. }
  split; [exact E|].
  rewrite v3_extract_and_format_value_eq. exact E.
Qed.

Lemma extract_and_format_value_no_digit_witness :
  UtilsV2.extract_and_format_value (Py.lit "no numbers here") = Py.Return (Py.lit "bug")
  /\ UtilsV3.extract_and_format_value (Py.lit "no numbers here") = Py.Return (Py.lit "bug").
Proof.
  apply (extract_and_format_value_no_digit (Py.lit "no numbers here")).
  intros c Hc. simpl in Hc.
  repeat (destruct Hc as [Hc|Hc]; [subst c; reflexivity|]).
  contradiction.
Defined.

(** C4, as the code has it: the scan keeps no count of the points.  Every
    point met once a digit has been seen is accumulated, and none halts the
    scan: an input made of digit characters and points that ends in a digit
    is accumulated whole, and with two points or more in it [float] rejects
    the fragment, so that the result is ["bug"]. *)
Theorem scan_accumulates_every_point : forall (s : Py.str) (d : ascii),
  (forall c, In c s -> Py.isdigit c = true \/ c = "."%char) ->
  Py.isdigit d = true ->
  UtilsV2.numeric_part (s ++ [d]) = s ++ [d]
  /\ ((2 <= count_occ ascii_dec s "."%char)%nat ->
      UtilsV2.extract_and_format_value (s ++ [d]) = Py.Return (Py.lit "bug")).
Proof.
  intros s d Hs Hd.
  assert (Hall : forall c, In c (s ++ [d]) -> Py.isdigit c = true \/ c = "."%char).
  { intros c Hc. apply in_app_or in Hc. destruct Hc as [Hc|[Hc|[]]].
    - now apply Hs.
    - subst c. now left. }
  assert (Hnum : UtilsV2.numeric_part (s ++ [d]) = s ++ [d]).
  { unfold UtilsV2.numeric_part. rewrite rev_app_distr. simpl.
    rewrite Hd. simpl.
    rewrite scan_digits_points.
    - rewrite rev_app_distr, rev_involutive. reflexivity.
    - intros c Hc. apply Hs. now apply in_rev. }
  split; [exact Hnum|].
  intros Hcount. unfold UtilsV2.extract_and_format_value. rewrite Hnum.
  rewrite remove_chr_absent.
  - rewrite float_of_str_two_points; [reflexivity|exact Hall|].
    rewrite count_occ_app. lia.
  - intros Hin. destruct (Hall _ Hin) as [H|H]; discriminate H.
Qed.

Lemma scan_accumulates_every_point_witness :
  UtilsV2.numeric_part (Py.lit "1.2.3") = Py.lit "1.2.3"
  /\ UtilsV2.extract_and_format_value (Py.lit "1.2.3") = Py.Return (Py.lit "bug").
Proof.
  assert (Hs : forall c, In c (Py.lit "1.2.") -> Py.isdigit c = true \/ c = "."%char).
  { intros c Hc. simpl in Hc.
    repeat (destruct Hc as [Hc|Hc]; [subst c; (now left) || (now right)|]).
    contradiction. }
  destruct (scan_accumulates_every_point (Py.lit "1.2.") "3"%char Hs eq_refl)
    as [H1 H2].
  split; [exact H1|].
  apply H2. simpl. lia.
Defined.

(** C4, as the specification has it, fails: on ["1.2.3"] both points are
    accumulated and the result is ["bug"], not ["2.30"]. *)
Lemma second_point_does_not_halt_scan :
  count_occ ascii_dec (UtilsV2.numeric_part (Py.lit "1.2.3")) "."%char = 2%nat
  /\ UtilsV2.extract_and_format_value (Py.lit "1.2.3") = Py.Return (Py.lit "bug")
  /\ UtilsV2.extract_and_format_value (Py.lit "1.2.3") <> Py.Return (Py.lit "2.30").
Proof.
  split; [reflexivity|]. split; [reflexivity|]. discriminate.
Qed.

(** ** The voter *)

Section VoterFacts.
Import Py.
Local Open Scope nat_scope.

Lemma str_eqb_eq : forall a b : str, str_eqb a b = true <-> a = b.
Proof.
  induction a as [|x a IH]; destruct b as [|y b]; simpl; split; intros H;
    try reflexivity; try discriminate.
  - apply andb_true_iff in H. destruct H as [H1 H2].
    apply Ascii.eqb_eq in H1. apply IH in H2. congruence.
  - injection H as -> ->. apply andb_true_iff. split.
    + apply Ascii.eqb_refl.
    + now apply IH.
Qed.

Lemma str_eqb_refl : forall a : str, str_eqb a a = true.
Proof. intros a. now apply str_eqb_eq. Qed.

Lemma str_eqb_neq : forall a b : str, a <> b -> str_eqb a b = false.
Proof.
  intros a b H. destruct (str_eqb a b) eqn:E; [|reflexivity].
  apply str_eqb_eq in E. contradiction.
Qed.

Lemma dict_get_in : forall (V : Type) (d : dict V) k v,
  NoDup (map fst d) -> In (k, v) d -> dict_get d k = Some v.
Proof.
  induction d as [|[k' v'] d IH]; intros k v Hnd Hin; simpl in *; [contradiction|].
  inversion Hnd as [|? ? Hnotin Hnd']; subst.
  destruct Hin as [Heq|Hin].
  - injection Heq as -> ->. now rewrite str_eqb_refl.
  - rewrite str_eqb_neq.
    + now apply IH.
    + intros ->. apply Hnotin. apply in_map_iff. now exists (k, v).
Qed.

Lemma fold_max_spec : forall vs v,
  let m := fold_left Nat.max vs v in
  (m = v \/ In m vs) /\ v <= m /\ (forall x, In x vs -> x <= m).
Proof.
  induction vs as [|w vs IH]; intros v; simpl.
  - split; [now left|]. split; [lia|]. intros x [].
  - destruct (IH (Nat.max v w)) as [H1 [H2 H3]].
    split; [|split].
    + destruct H1 as [H1|H1]; [|now right; right].
      destruct (Nat.max_spec v w) as [[_ E]|[_ E]]; rewrite E in *.
      * right. left. now symmetry.
      * now left.
    + lia.
    + intros x [Hx|Hx]; [subst x; lia|now apply H3].
Qed.

(** [max] of a non-empty sequence is one of its members and bounds them. *)
Lemma py_max_spec : forall vs, vs <> [] ->
  exists m, py_max vs = Return m /\ In m vs /\ (forall x, In x vs -> x <= m).
Proof.
  intros [|v vs] H; [contradiction|].
  exists (fold_left Nat.max vs v). split; [reflexivity|].
  destruct (fold_max_spec vs v) as [H1 [H2 H3]].
  split.
  - destruct H1 as [H1|H1]; [left; now symmetry|now right].
  - intros x [Hx|Hx]; [subst x; exact H2|now apply H3].
Qed.

Lemma in_modes : forall (d : dict nat) m a,
  In a (UtilsV3.modes d m) <-> In (a, m) d.
Proof.
  intros d m a. unfold UtilsV3.modes. rewrite in_map_iff. split.
  - intros [[k f] [Hk Hin]]. simpl in Hk. subst k.
    apply filter_In in Hin. destruct Hin as [Hin Hf]. simpl in Hf.
    apply Nat.eqb_eq in Hf. now subst f.
  - intros Hin. exists (a, m). split; [reflexivity|].
    apply filter_In. split; [exact Hin|]. simpl. apply Nat.eqb_refl.
Qed.

Lemma NoDup_modes : forall (d : dict nat) m,
  NoDup (map fst d) -> NoDup (UtilsV3.modes d m).
Proof.
  intros d m. unfold UtilsV3.modes.
  induction d as [|[k f] d IH]; intros Hnd; simpl; [constructor|].
  inversion Hnd as [|? ? Hnotin Hnd']; subst.
  destruct (Nat.eqb f m).
  - simpl. constructor; [|now apply IH].
    intros Hin. apply Hnotin. apply in_map_iff in Hin.
    destruct Hin as [[k' f'] [Hk Hin]]. simpl in Hk. subst k'.
    apply filter_In in Hin. destruct Hin as [Hin _].
    apply in_map_iff. now exists (k, f').
  - now apply IH.
Qed.

Lemma count_occ_repeat_same : forall (a : str) n,
  count_occ Py.str_eq_dec (repeat a n) a = n.
Proof.
  intros a n. induction n as [|n IH]; simpl; [reflexivity|].
  destruct (Py.str_eq_dec a a); [now rewrite IH|congruence].
Qed.

Lemma count_occ_repeat_other : forall (a b : str) n,
  a <> b -> count_occ Py.str_eq_dec (repeat b n) a = 0.
Proof.
  intros a b n Hab. induction n as [|n IH]; simpl; [reflexivity|].
  destruct (Py.str_eq_dec b a); [congruence|exact IH].
Qed.

(** In the pool every listed mode occurs as often as its frequency says,
    and nothing else occurs. *)
Lemma count_occ_weighted : forall (d : dict nat) m (ms : list str) a,
  NoDup (map fst d) -> NoDup ms ->
  (forall b, In b ms -> In (b, m) d) ->
  count_occ Py.str_eq_dec (UtilsV3.weighted_modes d ms) a
  = if in_dec Py.str_eq_dec a ms then m else 0.
Proof.
  intros d m ms a Hd. induction ms as [|b ms IH]; intros Hnd Hms; simpl.
  - reflexivity.
  - inversion Hnd as [|? ? Hnotin Hnd']; subst.
    rewrite (dict_get_in _ d b m Hd (Hms b (or_introl eq_refl))).
    rewrite count_occ_app. rewrite IH; [|exact Hnd'|intros; apply Hms; now right].
    destruct (Py.str_eq_dec b a) as [->|Hne].
    + rewrite count_occ_repeat_same.
      destruct (in_dec Py.str_eq_dec a ms); [contradiction|lia].
    + rewrite count_occ_repeat_other; [|congruence].
      destruct (in_dec Py.str_eq_dec a ms); reflexivity.
Qed.

Lemma random_choice_in : forall (A : Type) rnd (seq : list A) x,
  random_choice rnd seq = Return x -> In x seq.
Proof.
  intros A rnd [|y seq] x H; [discriminate H|].
  assert (E : nth (Nat.modulo rnd (List.length (y :: seq))) (y :: seq) y = x).
  { unfold random_choice in H. congruence. }
  rewrite <- E. apply nth_In. apply Nat.mod_upper_bound. discriminate.
Qed.

Lemma random_choice_returns : forall (A : Type) rnd (seq : list A),
  seq <> [] -> exists x, random_choice rnd seq = Return x.
Proof.
  intros A rnd [|y seq] H; [contradiction|]. eexists. reflexivity.
Qed.

(** v2 counts the supporting predictions and then votes as v3 does. *)
Lemma select_mode_or_sample_v2_v3 : forall (D : Type) rnd (u : dict (list D)),
  UtilsV2.select_mode_or_sample rnd u
  = UtilsV3.select_mode_or_sample rnd
      (map (fun kv => (fst kv, List.length (snd kv))) u).
Proof. reflexivity. Qed.

Lemma NoDup_all_same : forall (l : list str) a,
  NoDup l -> In a l -> (forall x, In x l -> x = a) -> l = [a].
Proof.
  intros [|x [|y l]] a Hnd Hin Hall.
  - contradiction.
  - destruct Hin as [->|[]]. reflexivity.
  - exfalso. inversion Hnd as [|? ? Hnotin _]; subst.
    apply Hnotin. left.
    rewrite (Hall x), (Hall y); simpl; auto.
Qed.

(** [max_frequency] of a non-empty table is the largest count in it. *)
Lemma max_frequency_spec : forall d : dict nat, d <> [] ->
  exists m, UtilsV3.max_frequency d = Return m
            /\ (exists a, In (a, m) d)
            /\ (forall a f, In (a, f) d -> f <= m).
Proof.
  intros d Hd. unfold UtilsV3.max_frequency.
  destruct (py_max_spec (map snd d)) as [m [Hm [Hin Hle]]].
  - destruct d; [contradiction|discriminate].
  - exists m. split; [exact Hm|]. split.
    + apply in_map_iff in Hin. destruct Hin as [[a f] [Hf Hin]].
      simpl in Hf. subst f. now exists a.
    + intros a f Haf. apply Hle. apply in_map_iff. now exists (a, f).
Qed.

End VoterFacts.

(** C2: when one answer alone attains the largest frequency of the table,
    the voter returns it with the tag ["mode"], whatever the random
    generator would have drawn; so it does in v2, where the frequencies
    are the numbers of supporting predictions. *)
Theorem select_mode_or_sample_unique_mode :
  forall (rnd : nat) (d : Py.dict nat) (a : Py.str) (f : nat),
  NoDup (map fst d) ->
  In (a, f) d ->
  (forall b g, In (b, g) d -> (g <= f)%nat) ->
  (forall b, In (b, f) d -> b = a) ->
  UtilsV3.select_mode_or_sample rnd d = Py.Return (a, Py.lit "mode")
  /\ (forall (D : Type) (u : Py.dict (list D)),
      map (fun kv => (fst kv, List.length (snd kv))) u = d ->
      UtilsV2.select_mode_or_sample rnd u = Py.Return (a, Py.lit "mode")).
Proof.
  intros rnd d a f Hnd Hin Hmax Huniq.
  assert (E : UtilsV3.select_mode_or_sample rnd d = Py.Return (a, Py.lit "mode")).
  { unfold UtilsV3.select_mode_or_sample.
    destruct (max_frequency_spec d) as [m [Hm [[b Hb] Hle]]].
    - intros ->. contradiction.
    - assert (m = f) by (apply Nat.le_antisymm; [now apply (Hmax b)|now apply (Hle a)]).
      subst m. rewrite Hm. simpl.
      rewrite (NoDup_all_same (UtilsV3.modes d f) a).
      + reflexivity.
      + now apply NoDup_modes.
      + now apply in_modes.
      + intros x Hx. apply Huniq. now apply in_modes. }
  split; [exact E|].
  intros D u Hu. rewrite select_mode_or_sample_v2_v3, Hu. exact E.
Qed.

Lemma select_mode_or_sample_unique_mode_witness :
  UtilsV3.select_mode_or_sample 0 [(Py.lit "10.00", 3%nat); (Py.lit "12.00", 1%nat)]
  = Py.Return (Py.lit "10.00", Py.lit "mode").
Proof.
  refine (proj1 (select_mode_or_sample_unique_mode 0
            [(Py.lit "10.00", 3%nat); (Py.lit "12.00", 1%nat)]
            (Py.lit "10.00") 3%nat _ _ _ _)).
  - repeat constructor; simpl; intuition discriminate.
  - simpl. now left.
  - intros b g [H|[H|[]]]; injection H as <- <-; lia.
  - intros b [H|[H|[]]]; [now injection H|discriminate H].
Defined.

(** ** The extraction of the equations *)

Section Extraction.
Import Py Declarative.
Local Open Scope nat_scope.

Lemma startswith_spec : forall p s,
  startswith p s = true -> s = p ++ skipn (List.length p) s.
Proof.
  induction p as [|a p IH]; intros s H; simpl in *; [reflexivity|].
  destruct s as [|b s]; [discriminate|].
  apply andb_true_iff in H. destruct H as [H1 H2].
  apply Ascii.eqb_eq in H1. subst b. simpl. f_equal. now apply IH.
Qed.

(** A match of [.*?\]\]] ends with the two closing brackets. *)
Lemma lazy_until_close_spec : forall s m r,
  lazy_until_close s = Some (m, r) ->
  exists v, m = v ++ lit "]]" /\ s = m ++ r.
Proof.
  induction s as [|c s IH]; intros m r H; [discriminate|].
  cbn [lazy_until_close] in H.
  destruct (startswith (lit "]]") (c :: s)) eqn:E.
  - injection H as <- <-. exists []. split; [reflexivity|].
    now apply (startswith_spec (lit "]]")).
  - destruct (chr_eqb c "010"); [discriminate|].
    destruct (lazy_until_close s) as [[m' r']|] eqn:El; [|discriminate].
    injection H as <- <-.
    destruct (IH m' r' eq_refl) as [v [Hv Hs]].
    exists (c :: v). split; [simpl; now rewrite Hv|simpl; now rewrite <- Hs].
Qed.

(** Every match found lies between [[[] and []]] in the text. *)
Lemma findall_brackets_from_some : forall s skip,
  findall_brackets_from skip s <> [] ->
  exists u v w, s = u ++ lit "[[" ++ v ++ lit "]]" ++ w.
Proof.
  induction s as [|c s IH]; intros skip H; [now contradiction H|].
  assert (Htail : forall k, findall_brackets_from k s <> [] ->
                  exists u v w, c :: s = u ++ lit "[[" ++ v ++ lit "]]" ++ w).
  { intros k Hk. destruct (IH k Hk) as [u [v [w E]]].
    exists (c :: u), v, w. simpl. now rewrite E. }
  cbn [findall_brackets_from] in H.
  destruct skip as [|k]; [|now apply (Htail k)].
  destruct (startswith (lit "[[") (c :: s)) eqn:E; [|now apply (Htail 0)].
  destruct (lazy_until_close (skipn 2 (c :: s))) as [[m r]|] eqn:El;
    [|now apply (Htail 0)].
  apply lazy_until_close_spec in El. destruct El as [v [Hv Hs]].
  apply (startswith_spec (lit "[[")) in E.
  exists [], v, r. rewrite E at 1. simpl List.length. rewrite Hs, Hv.
  simpl. now rewrite <- app_assoc.
Qed.

Lemma delimited_has_bracket : forall (s u v w : str),
  s = u ++ lit "[[" ++ v ++ lit "]]" ++ w -> In "["%char s.
Proof.
  intros s u v w ->. apply in_or_app. right. simpl. now left.
Qed.

End Extraction.

(** C7: a prediction in which no text stands between [[[] and []]] comes
    back from the extraction as it went in. *)
Theorem get_declarative_equations_no_fragment : forall prediction : Py.str,
  (~ exists u v w : Py.str,
       prediction = u ++ Py.lit "[[" ++ v ++ Py.lit "]]" ++ w) ->
  Declarative.get_declarative_equations prediction = prediction.
Proof.
  intros prediction H. unfold Declarative.get_declarative_equations.
  destruct (Declarative.findall_brackets prediction) as [|m ms] eqn:E.
  - reflexivity.
  - exfalso. apply H.
    apply (findall_brackets_from_some prediction 0).
    unfold Declarative.findall_brackets in E. rewrite E. discriminate.
Qed.

Lemma get_declarative_equations_no_fragment_witness :
  Declarative.get_declarative_equations (Py.lit "The answer is 3")
  = Py.lit "The answer is 3".
Proof.
  apply (get_declarative_equations_no_fragment (Py.lit "The answer is 3")).
  intros [u [v [w H]]]. apply delimited_has_bracket in H.
  simpl in H.
  repeat (destruct H as [H|H]; [discriminate H|]).
  contradiction.
Defined.

(** ** The renaming of the variables *)

Section Renaming.
Import Py Declarative.
Local Open Scope nat_scope.

(** The comprehension succeeds when the letters do not run out, and gives
    the long names, in order, the first unused letters, in order. *)
Lemma var_mapping_spec : forall longs unused,
  List.length longs <= List.length unused ->
  exists m, var_mapping longs unused = Return m
            /\ map fst m = longs
            /\ map snd m = map (fun c => [c]) (firstn (List.length longs) unused).
Proof.
  induction longs as [|v longs IH]; intros unused Hlen; simpl.
  - exists []. repeat split.
  - destruct unused as [|c unused]; [simpl in Hlen; lia|].
    destruct (IH unused) as [m [Hm [Hf Hs]]]; [simpl in Hlen; lia|].
    rewrite Hm. simpl. exists ((v, [c]) :: m). simpl.
    rewrite Hf, Hs. repeat split.
Qed.

(** Without letters enough the comprehension raises. *)
Lemma var_mapping_exhausted : forall longs unused,
  List.length unused < List.length longs ->
  var_mapping longs unused = Raise IndexError.
Proof.
  induction longs as [|v longs IH]; intros unused Hlen; simpl in *; [lia|].
  destruct unused as [|c unused]; [reflexivity|].
  rewrite IH; [reflexivity|simpl in Hlen; lia].
Qed.

Lemma NoDup_lowercase_letters : NoDup lowercase_letters.
Proof.
  apply (NoDup_count_occ' ascii_dec). intros c Hc.
  unfold lowercase_letters in Hc. simpl in Hc.
  repeat (destruct Hc as [Hc|Hc]; [subst c; reflexivity|]).
  contradiction.
Qed.

Lemma NoDup_unused_chars : forall var_names, NoDup (unused_chars var_names).
Proof.
  intros var_names. unfold unused_chars.
  apply NoDup_filter. exact NoDup_lowercase_letters.
Qed.

Lemma in_filter_unused : forall (letters : list ascii) (var_names : list str) c,
  In c (filter (fun c => negb (existsb (str_eqb [c]) var_names)) letters) ->
  In c letters /\ ~ In [c] var_names.
Proof.
  intros letters var_names c H.
  apply filter_In in H. destruct H as [H1 H2]. split; [exact H1|].
  intros Hin. apply negb_true_iff in H2.
  assert (Hex : existsb (str_eqb [c]) var_names = true).
  { apply existsb_exists. exists [c]. split; [exact Hin|apply str_eqb_refl]. }
  rewrite Hex in H2. discriminate H2.
Qed.

Lemma in_unused_chars : forall var_names c,
  In c (unused_chars var_names) ->
  In c lowercase_letters /\ ~ In [c] var_names.
Proof.
  intros var_names c. exact (in_filter_unused lowercase_letters var_names c).
Qed.

Lemma NoDup_firstn : forall (A : Type) (l : list A) n, NoDup l -> NoDup (firstn n l).
Proof.
  intros A l. induction l as [|x l IH]; intros n H; destruct n; simpl;
    try constructor.
  - inversion H as [|? ? Hn Hl]; subst. intros Hin. apply Hn.
    rewrite <- (firstn_skipn n l). apply in_or_app. now left.
  - inversion H; subst. now apply IH.
Qed.

Lemma in_firstn : forall (A : Type) (l : list A) n x, In x (firstn n l) -> In x l.
Proof.
  intros A l n x H. rewrite <- (firstn_skipn n l). apply in_or_app. now left.
Qed.

Lemma NoDup_map_singleton : forall l : list ascii,
  NoDup l -> NoDup (map (fun c => [c]) l).
Proof.
  induction l as [|a l IH]; intros H; simpl; [constructor|].
  inversion H as [|? ? Hn Hl]; subst. constructor; [|now apply IH].
  intros Hin. apply in_map_iff in Hin. destruct Hin as [b [E Hb]].
  injection E as ->. contradiction.
Qed.

(** In an association list whose keys and whose values are each without
    repetition, a value belongs to one key only. *)
Lemma NoDup_snd_injective : forall (m : dict str) k1 k2 v,
  NoDup (map snd m) -> In (k1, v) m -> In (k2, v) m -> k1 = k2.
Proof.
  induction m as [|[k w] m IH]; intros k1 k2 v Hnd H1 H2; [contradiction|].
  simpl in Hnd. inversion Hnd as [|? ? Hnotin Hnd']; subst.
  destruct H1 as [H1|H1], H2 as [H2|H2].
  - congruence.
  - injection H1 as -> ->. exfalso. apply Hnotin. apply in_map_iff. now exists (k2, v).
  - injection H2 as -> ->. exfalso. apply Hnotin. apply in_map_iff. now exists (k1, v).
  - now apply (IH k1 k2 v).
Qed.

End Renaming.

(** X25: let the set of names of the equations be listed in any order, and
    let the unused lowercase letters be at least as many as the names of
    more than one character (which are then 26 at most).  Then
    [simplify_variables] succeeds; its mapping covers exactly the long
    names; two different long names never receive the same letter; and
    every letter handed out is a lowercase letter that the regular
    expression of the names does not find in the input. *)
Theorem simplify_variables_mapping_injective :
  forall (equations : Py.str) (var_names : list Py.str),
  NoDup var_names ->
  (forall v, In v var_names <-> In v (Declarative.findall_names equations)) ->
  (List.length (Declarative.long_var_names var_names)
   <= List.length (Declarative.unused_chars var_names))%nat ->
  exists (simplified : Py.str) (mapping : Py.dict Py.str),
    Declarative.simplify_variables_in var_names equations
    = Py.Return (simplified, mapping)
    /\ map fst mapping = Declarative.long_var_names var_names
    /\ (List.length mapping <= 26)%nat
    /\ (forall long1 long2 short,
         In (long1, short) mapping -> In (long2, short) mapping -> long1 = long2)
    /\ (forall long short,
         In (long, short) mapping ->
         exists c, short = [c]
                   /\ In c Declarative.lowercase_letters
                   /\ ~ In [c] (Declarative.findall_names equations)).
Proof.
  intros equations var_names Hnd Hnames Hlen.
  unfold Declarative.simplify_variables_in.
  destruct (var_mapping_spec _ _ Hlen) as [m [Hm [Hf Hs]]].
  rewrite Hm. simpl.
  eexists. exists m. split; [reflexivity|].
  assert (Hvals : NoDup (map snd m)).
  { rewrite Hs. apply NoDup_map_singleton. apply NoDup_firstn.
    apply NoDup_unused_chars. }
  split; [exact Hf|]. split; [|split].
  - rewrite <- (length_map fst), Hf.
    apply (Nat.le_trans _ _ _ Hlen).
    unfold Declarative.unused_chars.
    apply (Nat.le_trans _ _ _ (filter_length_le _ _)).
    unfold Declarative.lowercase_letters. rewrite length_map, length_seq.
    apply le_n.
  - intros long1 long2 short H1 H2.
    now apply (NoDup_snd_injective m long1 long2 short).
  - intros long short Hin.
    assert (Hshort : In short (map snd m)).
    { apply in_map_iff. now exists (long, short). }
    rewrite Hs in Hshort. apply in_map_iff in Hshort.
    destruct Hshort as [c [Hc Hcin]]. exists c. split; [now symmetry|].
    apply in_firstn in Hcin. apply in_unused_chars in Hcin.
    destruct Hcin as [Hlow Hnot]. split; [exact Hlow|].
    intros Hin'. apply Hnot. now apply Hnames.
Qed.

Lemma simplify_variables_mapping_injective_witness :
  exists (simplified : Py.str) (mapping : Py.dict Py.str),
    Declarative.simplify_variables (Py.lit "total_cost = 2x + price*3 + y_1 + a")
    = Py.Return (simplified, mapping)
    /\ forall long1 long2 short,
         In (long1, short) mapping -> In (long2, short) mapping -> long1 = long2.
Proof.
  destruct (simplify_variables_mapping_injective
              (Py.lit "total_cost = 2x + price*3 + y_1 + a")
              (nodup Py.str_eq_dec
                 (Declarative.findall_names
                    (Py.lit "total_cost = 2x + price*3 + y_1 + a"))))
    as [simplified [mapping [H1 [_ [_ [H2 _]]]]]].
  - apply NoDup_nodup.
  - intros v. apply nodup_In.
  - vm_compute. lia.
  - exists simplified, mapping. split; [exact H1|exact H2].
Defined.

(** The solver sees of its input only the renamed text. *)
Lemma get_final_after_renaming :
  forall (sympy : Declarative.Sympy) (equations1 equations2 simplified : Py.str)
         (mapping1 mapping2 : Py.dict Py.str),
  Declarative.simplify_variables equations1 = Py.Return (simplified, mapping1) ->
  Declarative.simplify_variables equations2 = Py.Return (simplified, mapping2) ->
  Declarative.get_final_using_sympy sympy equations1
  = Declarative.get_final_using_sympy sympy equations2.
Proof.
  intros sympy equations1 equations2 simplified mapping1 mapping2 H1 H2.
  unfold Declarative.get_final_using_sympy, Declarative.solve_body.
  rewrite H1, H2. reflexivity.
Qed.

(** C6 at a letter written behind a number.  In
    ["2a + total = 6, 3a = 3, total = ?"] the unknown [a] stands only in
    [2a] and [3a], where the regular expression of the names finds no
    word boundary before it: [a] is not among the names, counts as unused,
    and is the letter given to [total].  The text becomes
    ["2a + a = 6, 3a = 3, a = ?"], and for every SymPy the solver answers
    on the input what it answers on that text, in which [total] and [a]
    are one unknown. *)
Theorem simplify_variables_reuses_letter_after_digit :
  Declarative.simplify_variables (Py.lit "2a + total = 6, 3a = 3, total = ?")
  = Py.Return (Py.lit "2a + a = 6, 3a = 3, a = ?", [(Py.lit "total", Py.lit "a")])
  /\ Py.contains (Py.lit "2a") (Py.lit "2a + total = 6, 3a = 3, total = ?") = true
  /\ ~ In (Py.lit "a")
          (Declarative.findall_names (Py.lit "2a + total = 6, 3a = 3, total = ?"))
  /\ In "a"%char
        (Declarative.unused_chars
           (nodup Py.str_eq_dec
              (Declarative.findall_names
                 (Py.lit "2a + total = 6, 3a = 3, total = ?"))))
  /\ forall sympy : Declarative.Sympy,
       Declarative.get_final_using_sympy sympy
         (Py.lit "2a + total = 6, 3a = 3, total = ?")
       = Declarative.get_final_using_sympy sympy
           (Py.lit "2a + a = 6, 3a = 3, a = ?").
Proof.
  assert (E1 : Declarative.simplify_variables
                 (Py.lit "2a + total = 6, 3a = 3, total = ?")
               = Py.Return (Py.lit "2a + a = 6, 3a = 3, a = ?",
                            [(Py.lit "total", Py.lit "a")]))
    by (vm_compute; reflexivity).
  assert (E2 : Declarative.simplify_variables (Py.lit "2a + a = 6, 3a = 3, a = ?")
               = Py.Return (Py.lit "2a + a = 6, 3a = 3, a = ?", []))
    by (vm_compute; reflexivity).
  split; [exact E1|]. split; [vm_compute; reflexivity|]. split; [|split].
  - vm_compute. intros [H|[H|H]]; [discriminate H|discriminate H|exact H].
  - vm_compute. left. reflexivity.
  - intros sympy.
    exact (get_final_after_renaming sympy _ _ _ _ _ E1 E2).
Qed.

(** On linear arithmetic the answer follows the name of the unknown: 2.0
    with [a], 4.0 with [b] in its place. *)
Example letter_after_digit_changes_the_answer :
  Declarative.get_final_using_sympy ArithSympy.sympy
    (Py.lit "2a + total = 6, 3a = 3, total = ?")
  = Py.Return (Declarative.VFloat (PyFloat.Finite false (2 * PyFloat.T)))
  /\ Declarative.get_final_using_sympy ArithSympy.sympy
       (Py.lit "2b + total = 6, 3b = 3, total = ?")
     = Py.Return (Declarative.VFloat (PyFloat.Finite false (4 * PyFloat.T))).
Proof. split; vm_compute; reflexivity. Qed.

(** ** The solver *)

Section SolverFacts.
Import Py Declarative.

Variable sympy : Sympy.

Lemma float_is_allowed : forall x, float_or_tag (VFloat x).
Proof. intros x. left. now exists x. Qed.

Lemma find_goal_returns : forall last v,
  find_goal sympy last = Return (inl v) -> float_or_tag v.
Proof.
  intros last v. unfold find_goal.
  destruct (str_isalpha _ || _); [discriminate|].
  destruct (contains (lit "=") last); [|discriminate].
  destruct (find _ ascii_letters) as [l|].
  - destruct (parse_expr sympy _) as [e|]; [|discriminate]. simpl.
    destruct (sympify sympy e) as [e'|]; [|discriminate]. simpl.
    destruct (bind (solve_expr sympy e') _) as [x|].
    + intros H. cbn in H. injection H as <-. apply float_is_allowed.
    + discriminate.
  - intros H. cbn in H. injection H as <-. right. now left.
Qed.

(** The loop always returns, a float or one of two tags. *)
Lemma solve_loop_returns : forall equations l goal_var,
  exists v, solve_loop sympy equations l goal_var = Return v /\ float_or_tag v.
Proof.
  induction equations as [|eq equations IH]; intros l goal_var; simpl.
  - eexists. split; [reflexivity|]. right. right. right. now left.
  - destruct (negb _); [|apply IH].
    destruct (bind (difference_text eq) _) as [e|].
    + destruct (solve_for sympy (l ++ [e]) goal_var) as [x|].
      * eexists. split; [reflexivity|apply float_is_allowed].
      * apply IH.
    + eexists. split; [reflexivity|]. right. now left.
Qed.

Lemma solve_body_returns : forall equations v,
  solve_body sympy equations = Return v -> float_or_tag v.
Proof.
  intros equations v. unfold solve_body.
  destruct (simplify_variables equations) as [simplified|]; [|discriminate].
  simpl.
  destruct (str_eqb _ _).
  { intros H. cbn in H. injection H as <-. apply float_is_allowed. }
  destruct (existsb three_alpha _).
  { intros H. cbn in H. injection H as <-. right. now left. }
  destruct (find_goal sympy _) as [[v'|[goal_var l]]|] eqn:Eg; [| |discriminate].
  - simpl. intros H. cbn in H. injection H as <-. now apply (find_goal_returns _ _ Eg).
  - simpl. destruct (Nat.eqb _ 1).
    + destruct (bind (parse_expr sympy _) _) as [x|]; intros H; cbn in H; injection H as <-.
      * apply float_is_allowed.
      * right. now left.
    + destruct goal_var as [goal_var|].
      * match goal with
        | |- solve_loop sympy ?eqs l goal_var = _ -> _ =>
            destruct (solve_loop_returns eqs l goal_var) as [v' [Hv' Hok]]
        end.
        rewrite Hv'. intros H. cbn in H. injection H as <-. exact Hok.
      * intros H. cbn in H. injection H as <-. right. right. now left.
Qed.

End SolverFacts.

(** C8: whatever the equations and whatever SymPy does, returning or
    raising at any of its calls, the solver returns: the result is a float
    (possibly [nan]) or one of the four tags, and when the body of the
    outer [try] raises, it is ["bug"]. *)
Theorem get_final_using_sympy_never_raises :
  forall (sympy : Declarative.Sympy) (equations : Py.str),
  (exists v, Declarative.get_final_using_sympy sympy equations = Py.Return v
             /\ Declarative.float_or_tag v)
  /\ (forall e, Declarative.solve_body sympy equations = Py.Raise e ->
      Declarative.get_final_using_sympy sympy equations
      = Py.Return (Declarative.VStr (Py.lit "bug"))).
Proof.
  intros sympy equations. unfold Declarative.get_final_using_sympy.
  split.
  - destruct (Declarative.solve_body sympy equations) as [v|e] eqn:E; simpl.
    + exists v. split; [reflexivity|]. now apply (solve_body_returns sympy equations).
    + eexists. split; [reflexivity|]. right. right. right. now right.
  - intros e E. rewrite E. reflexivity.
Qed.

(** ** The external collaborators *)

Section Collaborators.
Import Py ProgramAidedLM.

(** With the script written and removed without trouble, the runner
    returns the output, stripped, of a process that ended with code 0. *)
Lemma run_code_exit_zero : forall out err,
  run_code_with_subprocess_timeout
    {| write_script := Return tt;
       subprocess_run := Return {| returncode := 0; stdout := out; stderr := err |};
       os_remove := Return tt |}
  = Return (strip out).
Proof. reflexivity. Qed.

(** Any other end of the process gives ["bug"]: another exit code, the
    timeout, any exception. *)
Lemma run_code_failure : forall run,
  (forall p, run = Return p -> returncode p <> 0) ->
  run_code_with_subprocess_timeout
    {| write_script := Return tt; subprocess_run := run; os_remove := Return tt |}
  = Return (lit "bug").
Proof.
  intros run H. unfold run_code_with_subprocess_timeout. simpl.
  destruct run as [p|e].
  - specialize (H p eq_refl). apply Z.eqb_neq in H. now rewrite H.
  - now destruct e.
Qed.

(** At the place of the call in [run_pal] nothing comes out but a string. *)
Lemma predicted_answer_failure : forall w,
  (forall p, subprocess_run w = Return p -> returncode p <> 0) ->
  predicted_answer w = lit "bug".
Proof.
  intros [ws run rm] H. simpl in H. unfold predicted_answer,
    run_code_with_subprocess_timeout, try_finally. simpl.
  destruct ws as [[]|e]; simpl; [|reflexivity].
  destruct rm as [[]|e]; [|reflexivity].
  destruct run as [p|e].
  - specialize (H p eq_refl). apply Z.eqb_neq in H. now rewrite H.
  - now destruct e.
Qed.

End Collaborators.

(** C9 at the generation engine of v2: when the engine raises, and when
    the binary ends with a code other than 0 (here 1), [run_llm] of v2
    puts ["-1"] into its outputs, not ["bug"] as [run_llm] of v3 does in
    the same two cases; the canonicalizer then turns ["-1"] into the
    answer ["-1.00"]. *)
Theorem run_llm_v2_failure_is_not_bug :
  forall (message : Py.str) (e : Py.exn) (wp rm : Py.outcome unit)
         (run : Py.outcome Py.CompletedProcess) (out err : Py.str)
         (lm : Py.outcome Py.str),
  UtilsV2.run_llm_iteration message false
    {| UtilsV2.llm := Py.Raise e; UtilsV2.write_prompt := wp;
       UtilsV2.subprocess_run := run; UtilsV2.os_remove := rm |}
  = Py.lit "-1"
  /\ UtilsV2.run_llm_iteration message true
    {| UtilsV2.llm := lm; UtilsV2.write_prompt := Py.Return tt;
       UtilsV2.subprocess_run :=
         Py.Return {| Py.returncode := 1; Py.stdout := out; Py.stderr := err |};
       UtilsV2.os_remove := Py.Return tt |}
  = Py.lit "-1"
  /\ UtilsV3.run_llm
    {| UtilsV3.llm := Py.Raise e; UtilsV3.write_prompt := wp;
       UtilsV3.subprocess_run := run; UtilsV3.os_remove := rm |} message false
  = Py.lit "bug"
  /\ UtilsV3.run_llm
    {| UtilsV3.llm := lm; UtilsV3.write_prompt := Py.Return tt;
       UtilsV3.subprocess_run :=
         Py.Return {| Py.returncode := 1; Py.stdout := out; Py.stderr := err |};
       UtilsV3.os_remove := Py.Return tt |} message true
  = Py.lit "bug"
  /\ Py.lit "-1" <> Py.lit "bug"
  /\ UtilsV2.extract_and_format_value (Py.lit "-1") = Py.Return (Py.lit "-1.00").
Proof.
  intros. repeat apply conj; try reflexivity. discriminate.
Qed.

(** ** The single-equation shortcut *)

(** C1, as the code has it: on ["x = 2 + 3"] the left-hand side ["x"] is
    taken for the goal variable, and the shortcut for a single equation
    hands the text before the [=] sign, ["x "], to SymPy on its own.  The
    solver returns the float of that text when it has one and
    ["invalid equations"] when parsing or conversion raises, as it does
    for a bare symbol.  The value 5.0 comes out of the shortcut when the
    sum itself stands before the [=] sign, as in ["2 + 3"]. *)
Theorem single_equation_shortcut_takes_lhs :
  (forall sympy : Declarative.Sympy,
     Declarative.get_final_using_sympy sympy (Py.lit "x = 2 + 3")
     = match Py.bind (Declarative.parse_expr sympy (Py.lit "x "))
               (fun e => Py.bind (Declarative.sympify sympy e)
                                 (Declarative.float_of_expr sympy)) with
       | Py.Return x => Py.Return (Declarative.VFloat x)
       | Py.Raise _ => Py.Return (Declarative.VStr (Py.lit "invalid equations"))
       end)
  /\ Declarative.get_final_using_sympy ArithSympy.sympy (Py.lit "x = 2 + 3")
     = Py.Return (Declarative.VStr (Py.lit "invalid equations"))
  /\ Declarative.get_final_using_sympy ArithSympy.sympy (Py.lit "2 + 3")
     = Py.Return (Declarative.VFloat (PyFloat.Finite false (5 * PyFloat.T))).
Proof.
  split; [|split].
  - intros sympy.
    unfold Declarative.get_final_using_sympy, Declarative.solve_body.
    cbn.
    destruct (Declarative.parse_expr sympy _) as [e|]; [|reflexivity]. cbn.
    destruct (Declarative.sympify sympy e) as [e'|]; [|reflexivity]. cbn.
    destruct (Declarative.float_of_expr sympy e'); reflexivity.
  - vm_compute. reflexivity.
  - vm_compute. reflexivity.
Qed.

(** C1, as the specification has it, fails: on ["x = 2 + 3"] the solver
    returns ["invalid equations"], not the float 5.0. *)
Lemma solver_x_equals_sum_is_invalid :
  Declarative.get_final_using_sympy ArithSympy.sympy (Py.lit "x = 2 + 3")
  = Py.Return (Declarative.VStr (Py.lit "invalid equations"))
  /\ Declarative.get_final_using_sympy ArithSympy.sympy (Py.lit "x = 2 + 3")
     <> Py.Return (Declarative.VFloat (PyFloat.Finite false (5 * PyFloat.T))).
Proof.
  split.
  - vm_compute. reflexivity.
  - vm_compute. discriminate.
Qed.

(** ** Rounding *)

Section Rounding.
Import PyFloat.

(** *** Division to the nearest integer *)

Lemma rne_div_cases : forall n d, 0 < d ->
  let q := n / d in let r := n mod d in
  n = d * q + r /\ 0 <= r < d
  /\ ((2 * r < d /\ rne_div n d = q)
      \/ (2 * r > d /\ rne_div n d = q + 1)
      \/ (2 * r = d /\ (rne_div n d = q \/ rne_div n d = q + 1))).
Proof.
  intros n d Hd q r.
  pose proof (Z.div_mod n d ltac:(lia)) as Hdm.
  pose proof (Z.mod_pos_bound n d Hd) as Hr.
  split; [exact Hdm|]. split; [exact Hr|].
  unfold rne_div. fold q. fold r.
  destruct (2 * r ?= d) eqn:E.
  - apply Z.compare_eq in E. right. right. split; [exact E|].
    destruct (Z.even q); [now left|now right].
  - apply Z.compare_lt_iff in E. left. now split.
  - apply Z.compare_gt_iff in E. right. left. split; [lia|reflexivity].
Qed.

(** The result is within half a unit. *)
Lemma rne_div_bound : forall n d, 0 < d ->
  - d <= 2 * (n - rne_div n d * d) <= d.
Proof.
  intros n d Hd.
  destruct (rne_div_cases n d Hd) as [Hn [Hr H]].
  destruct H as [[H1 ->]|[[H1 ->]|[H1 [->| ->]]]]; nia.
Qed.

(** No integer is nearer. *)
Lemma rne_div_nearest : forall n d k, 0 < d ->
  Z.abs (n - rne_div n d * d) <= Z.abs (n - k * d).
Proof.
  intros n d k Hd.
  destruct (rne_div_cases n d Hd) as [Hn [Hr H]].
  set (q := n / d) in *. set (r := n mod d) in *.
  assert (Hk : k <= q \/ q + 1 <= k) by lia.
  assert (Hfar : Z.abs (n - k * d) >= r \/ Z.abs (n - k * d) >= d - r).
  { destruct Hk as [Hk|Hk]; [left|right]; nia. }
  assert (Hk1 : k <= q -> Z.abs (n - k * d) >= r) by (intros; nia).
  assert (Hk2 : q + 1 <= k -> Z.abs (n - k * d) >= d - r) by (intros; nia).
  destruct H as [[H1 ->]|[[H1 ->]|[H1 [->| ->]]]];
    destruct Hk as [Hk|Hk];
    try specialize (Hk1 Hk); try specialize (Hk2 Hk); nia.
Qed.

(** An integer nearer than half a unit is the result. *)
Lemma rne_div_unique : forall n d k, 0 < d ->
  2 * Z.abs (n - k * d) < d -> rne_div n d = k.
Proof.
  intros n d k Hd Hk.
  destruct (rne_div_cases n d Hd) as [Hn [Hr H]].
  set (q := n / d) in *. set (r := n mod d) in *.
  assert (Hq : k = q \/ k = q + 1) by nia.
  destruct H as [[H1 ->]|[[H1 ->]|[H1 [->| ->]]]]; destruct Hq as [-> | ->]; nia.
Qed.

Lemma rne_div_nonneg : forall n d, 0 <= n -> 0 < d -> 0 <= rne_div n d.
Proof.
  intros n d Hn Hd.
  destruct (rne_div_cases n d Hd) as [_ [Hr H]].
  pose proof (Z.div_pos n d Hn Hd).
  destruct H as [[H1 ->]|[[H1 ->]|[H1 [->| ->]]]]; lia.
Qed.

(** Below a bound that is an integer, the result is at most that bound. *)
Lemma rne_div_le : forall n d K, 0 < d -> n <= K * d -> rne_div n d <= K.
Proof.
  intros n d K Hd Hn.
  pose proof (rne_div_bound n d Hd). nia.
Qed.

End Rounding.

Section Binary64.
Import PyFloat.

Lemma T_pos : 0 < T.
Proof. unfold T. apply Z.pow_pos_nonneg; lia. Qed.

Lemma ulp_exponent_nonneg : forall n d, 0 <= ulp_exponent n d.
Proof. intros n d. unfold ulp_exponent. lia. Qed.

Lemma ulp_exponent_upper : forall n d, 0 <= n -> 0 < d ->
  n * T < d * 2 ^ (ulp_exponent n d + 53).
Proof.
  intros n d Hn Hd. unfold ulp_exponent.
  set (u := n * T / d).
  assert (Hu : 0 <= u) by (apply Z.div_pos; [pose proof T_pos; nia|exact Hd]).
  assert (Hlt : u < 2 ^ (Z.max 0 (Z.log2 u - 52) + 53)).
  { destruct (Z.eq_dec u 0) as [->|Hne].
    - apply Z.pow_pos_nonneg; lia.
    - destruct (Z.log2_spec u ltac:(lia)) as [_ H2].
      apply (Z.lt_le_trans _ _ _ H2).
      apply Z.pow_le_mono_r; [lia|].
      pose proof (Z.log2_nonneg u). lia. }
  pose proof (Z.div_mod (n * T) d ltac:(lia)) as Hdm. fold u in Hdm.
  pose proof (Z.mod_pos_bound (n * T) d Hd) as Hr.
  nia.
Qed.

Lemma ulp_exponent_lower : forall n d, 0 <= n -> 0 < d ->
  0 < ulp_exponent n d ->
  d * 2 ^ (ulp_exponent n d + 52) <= n * T.
Proof.
  intros n d Hn Hd. unfold ulp_exponent.
  set (u := n * T / d). intros Hj.
  assert (Hu : 0 <= u) by (apply Z.div_pos; [pose proof T_pos; nia|exact Hd]).
  assert (Hupos : 0 < u).
  { destruct (Z.eq_dec u 0) as [E|Hne]; [|lia].
    rewrite E in Hj. simpl in Hj. lia. }
  destruct (Z.log2_spec u Hupos) as [H1 _].
  replace (Z.max 0 (Z.log2 u - 52) + 52) with (Z.log2 u) by lia.
  pose proof (Z.div_mod (n * T) d ltac:(lia)) as Hdm. fold u in Hdm.
  pose proof (Z.mod_pos_bound (n * T) d Hd) as Hr.
  nia.
Qed.

Lemma round_raw_representable : forall n d, 0 <= n -> 0 < d ->
  representable (round_raw n d).
Proof.
  intros n d Hn Hd. unfold round_raw.
  set (j := ulp_exponent n d).
  assert (Hj : 0 <= j) by apply ulp_exponent_nonneg.
  assert (Hp : 0 < 2 ^ j) by (apply Z.pow_pos_nonneg; lia).
  exists (rne_div (n * T) (d * 2 ^ j)), j.
  split; [|split; [exact Hj|reflexivity]].
  split.
  - apply rne_div_nonneg; [pose proof T_pos; nia|nia].
  - apply rne_div_le; [nia|].
    pose proof (ulp_exponent_upper n d Hn Hd) as Hup. fold j in Hup.
    rewrite Z.pow_add_r in Hup by lia. nia.
Qed.

(** No representable number is nearer to [n / d] than [round_raw n d]. *)
Lemma round_raw_nearest : forall n d R, 0 <= n -> 0 < d ->
  representable R ->
  Z.abs (n * T - round_raw n d * d) <= Z.abs (n * T - R * d).
Proof.
  intros n d R Hn Hd [m [i [Hm [Hi ->]]]].
  unfold round_raw. set (j := ulp_exponent n d).
  assert (Hj : 0 <= j) by apply ulp_exponent_nonneg.
  assert (Hp : 0 < 2 ^ j) by (apply Z.pow_pos_nonneg; lia).
  set (k := rne_div (n * T) (d * 2 ^ j)).
  assert (Hnear : forall k', Z.abs (n * T - k * 2 ^ j * d)
                             <= Z.abs (n * T - k' * 2 ^ j * d)).
  { intros k'.
    pose proof (rne_div_nearest (n * T) (d * 2 ^ j) k' ltac:(nia)) as H.
    fold k in H.
    replace (k * 2 ^ j * d) with (k * (d * 2 ^ j)) by ring.
    replace (k' * 2 ^ j * d) with (k' * (d * 2 ^ j)) by ring.
    exact H. }
  destruct (Z_le_gt_dec j i) as [Hji|Hji].
  - replace (2 ^ i) with (2 ^ (i - j) * 2 ^ j)
      by (rewrite <- Z.pow_add_r by lia; f_equal; lia).
    replace (m * (2 ^ (i - j) * 2 ^ j)) with (m * 2 ^ (i - j) * 2 ^ j) by ring.
    apply Hnear.
  - assert (Hjpos : 0 < j) by lia.
    pose proof (ulp_exponent_lower n d Hn Hd Hjpos) as Hlow. fold j in Hlow.
    rewrite Z.pow_add_r in Hlow by lia.
    assert (Hm2 : m * 2 ^ i <= 2 ^ 52 * 2 ^ j).
    { assert (Hij : 2 * 2 ^ i <= 2 ^ j).
      { replace (2 * 2 ^ i) with (2 ^ (i + 1))
          by (rewrite Z.pow_add_r by lia; ring).
        apply Z.pow_le_mono_r; lia. }
      assert (0 < 2 ^ i) by (apply Z.pow_pos_nonneg; lia).
      replace (2 ^ 53) with (2 ^ 52 * 2) in Hm by reflexivity.
      nia. }
    specialize (Hnear (2 ^ 52)).
    assert (Hge : 2 ^ 52 * 2 ^ j * d <= n * T) by nia.
    assert (Hge' : m * 2 ^ i * d <= 2 ^ 52 * 2 ^ j * d) by nia.
    lia.
Qed.

End Binary64.

Section Hundredths.
Import PyFloat.

Lemma T_not_multiple_of_100 : forall x, 100 * x <> T.
Proof.
  intros x E.
  assert (H : T mod 100 = 0).
  { rewrite <- E, Z.mul_comm. apply Z.mod_mul. lia. }
  vm_compute in H. discriminate H.
Qed.

Lemma pow_2098 : 2 ^ 2098 = 2 ^ 1024 * T.
Proof. unfold T. rewrite <- Z.pow_add_r by lia. reflexivity. Qed.

(** A finite double is at least one unit of [2^-1074 * 2^1074 = 1] below
    the overflow threshold. *)
Lemma representable_room : forall M,
  representable M -> M < 2 ^ 2098 -> M + T <= 2 ^ 2098.
Proof.
  intros M [m [i [Hm [Hi ->]]]] Hlt.
  pose proof T_pos as HT.
  destruct (Z_le_gt_dec 1074 i) as [Hge|Hlt'].
  - assert (E : 2 ^ i = 2 ^ (i - 1074) * T).
    { unfold T. rewrite <- Z.pow_add_r by lia. f_equal. lia. }
    rewrite E in *. rewrite pow_2098 in *.
    set (c := m * 2 ^ (i - 1074)) in *.
    replace (m * (2 ^ (i - 1074) * T)) with (c * T) in * by (unfold c; ring).
    assert (c < 2 ^ 1024) by nia.
    nia.
  - assert (Hp : 2 ^ i <= 2 ^ 1073) by (apply Z.pow_le_mono_r; lia).
    assert (Hp0 : 0 < 2 ^ i) by (apply Z.pow_pos_nonneg; lia).
    assert (Hb : m * 2 ^ i <= 2 ^ 53 * 2 ^ 1073) by nia.
    assert (Hc : 2 ^ 53 * 2 ^ 1073 + T <= 2 ^ 2098).
    { unfold T. vm_compute. discriminate. }
    lia.
Qed.

(** The value printed with two decimals reads back as a double that
    prints the same: rounding [M] to hundredths gives [q]; converting
    [q / 100] gives a double, without overflow, whose hundredths are
    [q] again. *)
Lemma hundredths_round_trip : forall M,
  0 <= M -> representable M -> M < 2 ^ 2098 ->
  let q := rne_div (100 * M) T in
  exists M', round_ratio q 100 = Some M' /\ rne_div (100 * M') T = q.
Proof.
  intros M HM Hrep Hfin q.
  pose proof T_pos as HT.
  assert (Hq : 0 <= q) by (apply rne_div_nonneg; lia).
  pose proof (rne_div_bound (100 * M) T HT) as Hb. fold q in Hb.
  pose proof (round_raw_nearest q 100 M Hq ltac:(lia) Hrep) as Hn.
  pose proof (representable_room M Hrep Hfin) as Hroom.
  set (M' := round_raw q 100) in *.
  exists M'. split.
  - unfold round_ratio. fold M'.
    destruct (2 ^ 2098 <=? M') eqn:E; [|reflexivity].
    apply Z.leb_le in E. exfalso. lia.
  - assert (Hcase : 2 * Z.abs (100 * M' - q * T) < T
                    \/ 2 * Z.abs (100 * M' - q * T) = T) by lia.
    destruct Hcase as [Hlt|Heq].
    + apply rne_div_unique; [exact HT|exact Hlt].
    + assert (HM' : M' = M \/ 100 * (M - M') = T \/ 100 * (M' - M) = T) by lia.
      destruct HM' as [->|[E|E]].
      * reflexivity.
      * exfalso. exact (T_not_multiple_of_100 _ E).
      * exfalso. exact (T_not_multiple_of_100 _ E).
Qed.

End Hundredths.

(** ** Numerals *)

Section Numerals.
Import Py PyFloat.

Lemma digit_chr_spec : forall d, 0 <= d <= 9 ->
  is_ascii_digit (digit_chr d) = true /\ digit_value (digit_chr d) = d.
Proof.
  intros d Hd.
  assert (H : d = 0 \/ d = 1 \/ d = 2 \/ d = 3 \/ d = 4 \/ d = 5 \/ d = 6
              \/ d = 7 \/ d = 8 \/ d = 9) by lia.
  repeat (destruct H as [->|H]; [split; reflexivity|]).
  subst d. split; reflexivity.
Qed.

Lemma ascii_digit_chars : forall c, is_ascii_digit c = true ->
  isdigit c = true /\ chr_eqb c "," = false /\ chr_eqb c "." = false
  /\ chr_eqb c "-" = false /\ chr_eqb c "+" = false.
Proof.
  intros c H. unfold isdigit. rewrite H.
  destruct c as [[] [] [] [] [] [] [] []]; try discriminate H; repeat split.
Qed.

Lemma digits_value_snoc : forall ds c,
  digits_value (ds ++ [c]) = 10 * digits_value ds + digit_value c.
Proof.
  intros ds c. unfold digits_value. rewrite fold_left_app. reflexivity.
Qed.

Lemma digits_rev_spec : forall fuel n,
  0 <= n < 2 ^ Z.of_nat (S fuel) ->
  forallb is_ascii_digit (digits_rev (S fuel) n) = true
  /\ digits_value (rev (digits_rev (S fuel) n)) = n.
Proof.
  induction fuel as [|fuel IH]; intros n Hn.
  - assert (Hn' : n = 0 \/ n = 1) by (change (2 ^ Z.of_nat 1) with 2 in Hn; lia).
    destruct Hn' as [-> | ->]; split; reflexivity.
  - cbn [digits_rev].
    assert (Hmod : 0 <= n mod 10 <= 9) by (pose proof (Z.mod_pos_bound n 10); lia).
    destruct (digit_chr_spec (n mod 10) Hmod) as [Hd Hv].
    destruct (n / 10 =? 0) eqn:E.
    + apply Z.eqb_eq in E. split; [simpl; now rewrite Hd|].
      simpl. unfold digits_value. simpl. rewrite Hv.
      pose proof (Z.div_mod n 10). lia.
    + assert (Hdiv : 0 <= n / 10 < 2 ^ Z.of_nat (S fuel)).
      { split; [apply Z.div_pos; lia|].
        apply Z.div_lt_upper_bound; [lia|].
        rewrite (Nat2Z.inj_succ (S fuel)) in Hn.
        rewrite Z.pow_succ_r in Hn by lia. lia. }
      destruct (IH (n / 10) Hdiv) as [IH1 IH2].
      change (digits_rev (S fuel) (n / 10)) with
        (digit_chr (n / 10 mod 10)
           :: (if n / 10 / 10 =? 0 then [] else digits_rev fuel (n / 10 / 10)))
        in IH1, IH2 |- *.
      set (l := digit_chr (n / 10 mod 10)
                  :: (if n / 10 / 10 =? 0 then [] else digits_rev fuel (n / 10 / 10)))
        in *.
      split.
      * cbn [forallb]. now rewrite Hd, IH1.
      * cbn [rev]. rewrite digits_value_snoc, IH2, Hv.
        pose proof (Z.div_mod n 10). lia.
Qed.

(** [str(n)] is made of digits and reads back as [n]. *)
Lemma decimal_spec : forall n, 0 <= n ->
  forallb is_ascii_digit (decimal n) = true
  /\ digits_value (decimal n) = n
  /\ decimal n <> [].
Proof.
  intros n Hn. unfold decimal.
  assert (Hb : 0 <= n < 2 ^ Z.of_nat (S (Z.to_nat (Z.log2 n)))).
  { split; [exact Hn|].
    rewrite Nat2Z.inj_succ, Z2Nat.id by apply Z.log2_nonneg.
    destruct (Z.eq_dec n 0) as [->|Hne]; [reflexivity|].
    apply Z.log2_spec. lia. }
  destruct (digits_rev_spec _ n Hb) as [H1 H2].
  split; [|split].
  - rewrite forallb_forall in *. intros c Hc. apply H1. now apply in_rev.
  - exact H2.
  - cbn [digits_rev]. intros E. apply (f_equal (@List.length ascii)) in E.
    rewrite length_rev in E. discriminate E.
Qed.

(** *** Commas *)

Lemma remove_chr_digits : forall ds,
  forallb is_ascii_digit ds = true -> remove_chr "," ds = ds.
Proof.
  intros ds H. apply remove_chr_absent. intros Hin.
  rewrite forallb_forall in H. specialize (H _ Hin). discriminate H.
Qed.

Lemma remove_chr_cons_digit : forall a l, is_ascii_digit a = true ->
  remove_chr "," (a :: l) = a :: remove_chr "," l.
Proof.
  intros a l Ha. destruct (ascii_digit_chars a Ha) as [_ [Ea _]].
  unfold remove_chr. cbn [filter]. now rewrite Ea.
Qed.

Lemma remove_chr_cons_comma : forall l,
  remove_chr "," (","%char :: l) = remove_chr "," l.
Proof. reflexivity. Qed.

Lemma group3_four : forall a b c d ds,
  group3 (a :: b :: c :: d :: ds) = a :: b :: c :: ","%char :: group3 (d :: ds).
Proof. reflexivity. Qed.

Lemma group3_remove : forall n ds, (List.length ds <= n)%nat ->
  forallb is_ascii_digit ds = true ->
  remove_chr "," (group3 ds) = ds
  /\ forallb (fun c => is_ascii_digit c || chr_eqb c ",") (group3 ds) = true.
Proof.
  induction n as [|n IH]; intros ds Hlen Hds.
  - destruct ds; [split; reflexivity|simpl in Hlen; lia].
  - destruct ds as [|a [|b [|c [|d ds]]]];
      try (split; [now apply remove_chr_digits|];
           cbn [group3]; rewrite forallb_forall in *; intros x Hx;
           now rewrite (Hds x Hx)).
    rewrite group3_four.
    cbn [forallb] in Hds.
    apply andb_true_iff in Hds. destruct Hds as [Ha Hds].
    apply andb_true_iff in Hds. destruct Hds as [Hb Hds].
    apply andb_true_iff in Hds. destruct Hds as [Hc Hds].
    destruct (IH (d :: ds)) as [IH1 IH2]; [simpl in *; lia|exact Hds|].
    split.
    + rewrite !remove_chr_cons_digit by assumption.
      rewrite remove_chr_cons_comma. now rewrite IH1.
    + cbn [forallb]. rewrite Ha, Hb, Hc, IH2. reflexivity.
Qed.

(** The grouped integer part: digits and commas, the digits unchanged. *)
Lemma grouped_spec : forall ds, forallb is_ascii_digit ds = true ->
  remove_chr "," (rev (group3 (rev ds))) = ds
  /\ forallb (fun c => is_ascii_digit c || chr_eqb c ",")
             (rev (group3 (rev ds))) = true.
Proof.
  intros ds Hds.
  assert (Hrev : forallb is_ascii_digit (rev ds) = true).
  { rewrite forallb_forall in *. intros c Hc. apply Hds. now apply in_rev. }
  destruct (group3_remove (List.length (rev ds)) (rev ds) (le_n _) Hrev) as [H1 H2].
  split.
  - unfold remove_chr in *. rewrite filter_rev, H1. apply rev_involutive.
  - rewrite forallb_forall in *. intros c Hc. apply H2. now apply in_rev.
Qed.

End Numerals.

(** ** The canonicalizer on numerals *)

Section OnNumerals.
Import Py PyFloat.

(** Past its first digit the scan keeps digits and points, drops commas,
    and ends with the minus sign when one comes. *)
Lemma scan_body : forall t acc tail,
  (forall c, In c t -> body_chr c) ->
  tail = [] \/ tail = lit "-" ->
  UtilsV2.scan (t ++ tail) acc true = acc ++ remove_chr "," t ++ tail.
Proof.
  induction t as [|c t IH]; intros acc tail Ht Htail.
  - destruct Htail as [-> | ->]; simpl; [now rewrite app_nil_r|reflexivity].
  - assert (Ht' : forall c', In c' t -> body_chr c') by (intros; apply Ht; now right).
    destruct (Ht c (or_introl eq_refl)) as [Hd|[-> | ->]].
    + destruct (ascii_digit_chars c Hd) as [Hi _].
      rewrite remove_chr_cons_digit by exact Hd.
      cbn [app UtilsV2.scan]. rewrite Hi. cbn [orb].
      rewrite IH by assumption. now rewrite <- app_assoc.
    + cbn [app UtilsV2.scan]. cbn [isdigit is_ascii_digit in_range ord].
      change (remove_chr "," ("."%char :: t)) with ("."%char :: remove_chr "," t).
      simpl (_ || _). cbv iota.
      rewrite IH by assumption. now rewrite <- app_assoc.
    + rewrite remove_chr_cons_comma.
      cbn [app UtilsV2.scan]. simpl (_ || _). cbv iota. simpl (_ && _). cbv iota.
      now apply IH.
Qed.

Lemma sign_str_rev : forall neg, rev (sign_str neg) = sign_str neg.
Proof. now intros []. Qed.

Lemma sign_str_tail : forall neg, sign_str neg = [] \/ sign_str neg = lit "-".
Proof. intros []; [now right|now left]. Qed.

(** The fragment taken from a signed numeral that ends with a digit. *)
Lemma numeric_part_numeral : forall neg b d,
  (forall c, In c b -> body_chr c) ->
  is_ascii_digit d = true ->
  UtilsV2.numeric_part (sign_str neg ++ b ++ [d])
  = sign_str neg ++ remove_chr "," (b ++ [d]).
Proof.
  intros neg b d Hb Hd. unfold UtilsV2.numeric_part.
  rewrite !rev_app_distr. cbn [rev app].
  destruct (ascii_digit_chars d Hd) as [Hi _].
  cbn [UtilsV2.scan]. rewrite Hi. cbn [orb app].
  rewrite sign_str_rev.
  rewrite scan_body.
  - rewrite !rev_app_distr, sign_str_rev. cbn [rev app].
    unfold remove_chr. rewrite filter_rev, rev_involutive, filter_app.
    cbn [filter]. destruct (ascii_digit_chars d Hd) as [_ [Ec _]].
    rewrite Ec. cbn [negb]. now rewrite <- app_assoc.
  - intros c Hc. apply Hb. now apply in_rev.
  - apply sign_str_tail.
Qed.

Lemma split_sign_numeral : forall neg c rest,
  is_ascii_digit c = true ->
  split_sign (sign_str neg ++ c :: rest) = (neg, c :: rest).
Proof.
  intros neg c rest Hc. destruct neg; [reflexivity|].
  destruct (ascii_digit_chars c Hc) as [_ [_ [_ [E1 E2]]]].
  cbn [sign_str app split_sign]. now rewrite E1, E2.
Qed.

Lemma split_point_numeral : forall ip fpo,
  forallb is_ascii_digit ip = true ->
  split_point (ip ++ fraction_text fpo) = (ip, fpo).
Proof.
  induction ip as [|c ip IH]; intros fpo H.
  - destruct fpo; reflexivity.
  - cbn [forallb] in H. apply andb_true_iff in H. destruct H as [Hc H].
    destruct (ascii_digit_chars c Hc) as [_ [_ [E _]]].
    cbn [app split_point]. rewrite E. now rewrite IH.
Qed.

(** [float] of an unsigned or negative numeral without commas. *)
Lemma float_of_str_numeral : forall neg ip fpo,
  ip <> [] ->
  forallb is_ascii_digit ip = true ->
  forallb is_ascii_digit (fraction_digits fpo) = true ->
  float_of_str (sign_str neg ++ ip ++ fraction_text fpo)
  = Return (of_ratio neg (digits_value (ip ++ fraction_digits fpo))
                     (10 ^ Z.of_nat (List.length (fraction_digits fpo)))).
Proof.
  intros neg ip fpo Hne Hip Hfp. unfold float_of_str.
  destruct ip as [|c ip]; [contradiction|].
  assert (Hc : is_ascii_digit c = true).
  { cbn [forallb] in Hip. now apply andb_true_iff in Hip. }
  change ((c :: ip) ++ fraction_text fpo) with (c :: (ip ++ fraction_text fpo)).
  rewrite split_sign_numeral by exact Hc.
  change (c :: (ip ++ fraction_text fpo)) with ((c :: ip) ++ fraction_text fpo).
  rewrite split_point_numeral by exact Hip.
  rewrite forallb_app, Hip, Hfp. reflexivity.
Qed.

Lemma digits_value_nonneg : forall ds,
  forallb is_ascii_digit ds = true -> 0 <= digits_value ds.
Proof.
  intros ds. induction ds as [|c ds IH] using rev_ind; intros H.
  - reflexivity.
  - rewrite forallb_app in H. apply andb_true_iff in H. destruct H as [H1 H2].
    cbn [forallb] in H2. rewrite andb_true_r in H2.
    rewrite digits_value_snoc. specialize (IH H1).
    assert (0 <= digit_value c).
    { unfold is_ascii_digit, in_range in H2. unfold digit_value.
      apply andb_true_iff in H2. destruct H2 as [H2 _].
      apply Z.leb_le in H2. lia. }
    lia.
Qed.

End OnNumerals.

Section Idempotence.
Import Py PyFloat.

Lemma remove_chr_app : forall c a b,
  remove_chr c (a ++ b) = remove_chr c a ++ remove_chr c b.
Proof. intros c a b. unfold remove_chr. apply filter_app. Qed.

Lemma remove_chr_sign : forall neg, remove_chr "," (sign_str neg) = sign_str neg.
Proof. now intros []. Qed.

Lemma remove_chr_fraction : forall fpo,
  forallb is_ascii_digit (fraction_digits fpo) = true ->
  remove_chr "," (fraction_text fpo) = fraction_text fpo.
Proof.
  intros [fp|] H; [|reflexivity].
  cbn [fraction_text fraction_digits] in *.
  change (remove_chr "," ("."%char :: fp)) with ("."%char :: remove_chr "," fp).
  now rewrite remove_chr_digits.
Qed.

Lemma remove_chr_grouped_digits : forall ip,
  forallb (fun c => is_ascii_digit c || chr_eqb c ",") ip = true ->
  forallb is_ascii_digit (remove_chr "," ip) = true.
Proof.
  induction ip as [|c ip IH]; intros H; [reflexivity|].
  cbn [forallb] in H. apply andb_true_iff in H. destruct H as [Hc H].
  unfold remove_chr. cbn [filter].
  destruct (chr_eqb c ",") eqn:E; cbn [negb].
  - now apply IH.
  - rewrite orb_false_r in Hc. cbn [forallb]. rewrite Hc. now apply IH.
Qed.

(** The canonicalizer on a numeral: the commas go, the rest is converted
    and printed. *)
Lemma extract_and_format_value_numeral : forall neg ip fpo,
  forallb (fun c => is_ascii_digit c || chr_eqb c ",") ip = true ->
  remove_chr "," ip <> [] ->
  forallb is_ascii_digit (fraction_digits fpo) = true ->
  (exists b d, ip ++ fraction_text fpo = b ++ [d] /\ is_ascii_digit d = true) ->
  UtilsV2.extract_and_format_value (sign_str neg ++ ip ++ fraction_text fpo)
  = Return (format_2f
              (of_ratio neg
                 (digits_value (remove_chr "," ip ++ fraction_digits fpo))
                 (10 ^ Z.of_nat (List.length (fraction_digits fpo))))).
Proof.
  intros neg ip fpo Hip Hne Hfp [b [d [Hbody Hd]]].
  unfold UtilsV2.extract_and_format_value.
  assert (Hchars : forall c, In c b -> body_chr c).
  { intros c Hc.
    assert (Hin : In c (ip ++ fraction_text fpo)).
    { rewrite Hbody. apply in_or_app. now left. }
    apply in_app_or in Hin. destruct Hin as [Hin|Hin].
    - rewrite forallb_forall in Hip. specialize (Hip c Hin).
      apply orb_true_iff in Hip. destruct Hip as [H|H].
      + now left.
      + right. right. now apply Ascii.eqb_eq in H.
    - destruct fpo as [fp|]; [|contradiction].
      destruct Hin as [<-|Hin]; [right; now left|].
      left. cbn [fraction_digits] in Hfp. rewrite forallb_forall in Hfp.
      now apply Hfp. }
  rewrite Hbody, (numeric_part_numeral neg b d Hchars Hd), <- Hbody.
  rewrite !remove_chr_app.
  rewrite (remove_chr_fraction fpo Hfp).
  rewrite remove_chr_sign.
  rewrite (remove_chr_digits (remove_chr "," ip))
    by now apply remove_chr_grouped_digits.
  rewrite (remove_chr_absent "," (fraction_text fpo)).
  - rewrite float_of_str_numeral.
    + reflexivity.
    + exact Hne.
    + now apply remove_chr_grouped_digits.
    + exact Hfp.
  - intros Hin. destruct fpo as [fp|]; [|contradiction].
    destruct Hin as [Hin|Hin]; [discriminate Hin|].
    cbn [fraction_digits] in Hfp. rewrite forallb_forall in Hfp.
    specialize (Hfp _ Hin). discriminate Hfp.
Qed.

(** The two digits after the point and the digits before it read back
    as the number of hundredths. *)
Lemma hundredths_digits : forall q, 0 <= q ->
  digits_value (decimal (q / 100)
                ++ [digit_chr (q mod 100 / 10); digit_chr (q mod 10)]) = q.
Proof.
  intros q Hq.
  assert (Ha : 0 <= q / 100) by (apply Z.div_pos; lia).
  destruct (decimal_spec (q / 100) Ha) as [_ [Hv _]].
  change (decimal (q / 100) ++ [digit_chr (q mod 100 / 10); digit_chr (q mod 10)])
    with (decimal (q / 100) ++ [digit_chr (q mod 100 / 10)] ++ [digit_chr (q mod 10)]).
  rewrite app_assoc, !digits_value_snoc, Hv.
  assert (H1 : 0 <= q mod 100 / 10 <= 9).
  { pose proof (Z.mod_pos_bound q 100 ltac:(lia)).
    split; [apply Z.div_pos; lia|].
    apply Z.lt_succ_r. apply Z.div_lt_upper_bound; lia. }
  assert (H2 : 0 <= q mod 10 <= 9) by (pose proof (Z.mod_pos_bound q 10); lia).
  destruct (digit_chr_spec _ H1) as [_ ->].
  destruct (digit_chr_spec _ H2) as [_ ->].
  pose proof (Z.div_mod q 100 ltac:(lia)) as E1.
  pose proof (Z.div_mod (q mod 100) 10 ltac:(lia)) as E2.
  assert (E3 : (q mod 100) mod 10 = q mod 10).
  { apply Z.mod_mod_divide. exists 10. reflexivity. }
  lia.
Qed.

(** What the canonicalizer prints for a finite double, it maps to itself. *)
Lemma format_2f_fixed : forall neg M,
  0 <= M -> representable M -> M < 2 ^ 2098 ->
  UtilsV2.extract_and_format_value (format_2f (Finite neg M))
  = Return (format_2f (Finite neg M)).
Proof.
  intros neg M HM Hrep Hfin.
  pose proof T_pos as HT.
  set (q := rne_div (100 * M) T).
  assert (Hq : 0 <= q) by (apply rne_div_nonneg; lia).
  assert (Ha : 0 <= q / 100) by (apply Z.div_pos; lia).
  destruct (decimal_spec (q / 100) Ha) as [Hds [_ Hne]].
  destruct (grouped_spec (decimal (q / 100)) Hds) as [Hrm Hgr].
  assert (H1 : 0 <= q mod 100 / 10 <= 9).
  { pose proof (Z.mod_pos_bound q 100 ltac:(lia)).
    split; [apply Z.div_pos; lia|].
    apply Z.lt_succ_r. apply Z.div_lt_upper_bound; lia. }
  assert (H2 : 0 <= q mod 10 <= 9) by (pose proof (Z.mod_pos_bound q 10); lia).
  destruct (digit_chr_spec _ H1) as [Hd1 _].
  destruct (digit_chr_spec _ H2) as [Hd2 _].
  set (G := rev (group3 (rev (decimal (q / 100))))) in *.
  set (d1 := digit_chr (q mod 100 / 10)) in *.
  set (d2 := digit_chr (q mod 10)) in *.
  assert (Hform : forall M', rne_div (100 * M') T = q ->
            format_2f (Finite neg M')
            = sign_str neg ++ G ++ fraction_text (Some [d1; d2])).
  { intros M' E. unfold format_2f. rewrite E. reflexivity. }
  rewrite (Hform M eq_refl).
  rewrite (extract_and_format_value_numeral neg G (Some [d1; d2])).
  - rewrite Hrm. cbn [fraction_digits List.length].
    change (10 ^ Z.of_nat 2) with 100.
    unfold d1, d2. rewrite (hundredths_digits q Hq).
    destruct (hundredths_round_trip M HM Hrep Hfin) as [M' [Hr Hq']].
    fold q in Hr, Hq'. unfold of_ratio. rewrite Hr.
    now rewrite (Hform M' Hq').
  - exact Hgr.
  - rewrite Hrm. exact Hne.
  - cbn [fraction_digits forallb]. now rewrite Hd1, Hd2.
  - exists (G ++ ["."%char; d1]), d2. split; [|exact Hd2].
    cbn [fraction_text]. now rewrite <- app_assoc.
Qed.

Lemma split_minus_spec : forall x,
  x = sign_str (fst (split_minus x)) ++ snd (split_minus x).
Proof.
  intros [|c x]; [reflexivity|]. unfold split_minus.
  destruct (chr_eqb c "-") eqn:E; [|reflexivity].
  apply Ascii.eqb_eq in E. now subst c.
Qed.

(** A well-formed numeral, taken apart. *)
Lemma well_formed_decimal_parts : forall x,
  UtilsV2.well_formed_decimal x = true ->
  exists neg ip fpo,
    x = sign_str neg ++ ip ++ fraction_text fpo
    /\ forallb (fun c => is_ascii_digit c || chr_eqb c ",") ip = true
    /\ remove_chr "," ip <> []
    /\ forallb is_ascii_digit (fraction_digits fpo) = true
    /\ (exists b d, ip ++ fraction_text fpo = b ++ [d] /\ is_ascii_digit d = true).
Proof.
  intros x H. unfold UtilsV2.well_formed_decimal in H.
  pose proof (split_minus_spec x) as Hx.
  destruct (split_minus x) as [neg body]. cbn [fst snd] in *.
  pose proof (split_point_spec body) as Hb.
  destruct (split_point body) as [ip fpo]. destruct Hb as [Hb _].
  apply andb_true_iff in H. destruct H as [H Hfp].
  apply andb_true_iff in H. destruct H as [H Hall].
  apply andb_true_iff in H. destruct H as [Hhd Hlast].
  exists neg, ip, fpo.
  destruct ip as [|c ip]; [discriminate Hhd|].
  assert (Hend : exists b d, c :: ip = b ++ [d] /\ is_ascii_digit d = true).
  { destruct (rev (c :: ip)) as [|d r] eqn:E; [discriminate Hlast|].
    exists (rev r), d. split; [|exact Hlast].
    rewrite <- (rev_involutive (c :: ip)), E. reflexivity. }
  split; [now rewrite Hx, Hb|]. split; [exact Hall|]. split; [|split].
  - rewrite remove_chr_cons_digit by exact Hhd. discriminate.
  - destruct fpo as [fp|]; [|reflexivity].
    now apply andb_true_iff in Hfp.
  - destruct fpo as [fp|].
    + apply andb_true_iff in Hfp. destruct Hfp as [Hlen Hfp].
      destruct fp as [|f fp] using rev_ind; [discriminate Hlen|].
      exists ((c :: ip) ++ "."%char :: fp), f. split.
      * cbn [fraction_text]. rewrite <- app_assoc. reflexivity.
      * rewrite forallb_app in Hfp. apply andb_true_iff in Hfp.
        destruct Hfp as [_ Hf]. cbn [forallb] in Hf. now rewrite andb_true_r in Hf.
    + cbn [fraction_text]. rewrite app_nil_r. exact Hend.
Qed.

End Idempotence.

(** C5, as the code has it: on a well-formed decimal numeral whose value
    is within the range of the doubles, so that the canonical answer is
    neither ["inf"] nor ["-inf"], the canonicalizer is idempotent. *)
Theorem extract_and_format_value_idempotent : forall x : Py.str,
  UtilsV2.well_formed_decimal x = true ->
  UtilsV2.extract_and_format_value x <> Py.Return (Py.lit "inf") ->
  UtilsV2.extract_and_format_value x <> Py.Return (Py.lit "-inf") ->
  Py.bind (UtilsV2.extract_and_format_value x) UtilsV2.extract_and_format_value
  = UtilsV2.extract_and_format_value x.
Proof.
  intros x Hwf Hinf Hninf.
  destruct (well_formed_decimal_parts x Hwf)
    as [neg [ip [fpo [Hx [Hip [Hne [Hfp Hend]]]]]]].
  pose proof (extract_and_format_value_numeral neg ip fpo Hip Hne Hfp Hend) as E.
  rewrite <- Hx in E.
  set (N := PyFloat.digits_value (Py.remove_chr "," ip ++ PyFloat.fraction_digits fpo)) in *.
  set (D := 10 ^ Z.of_nat (List.length (PyFloat.fraction_digits fpo))) in *.
  assert (HN : 0 <= N).
  { apply digits_value_nonneg. rewrite forallb_app, Hfp.
    now rewrite remove_chr_grouped_digits. }
  assert (HD : 0 < D) by (apply Z.pow_pos_nonneg; lia).
  unfold PyFloat.of_ratio, PyFloat.round_ratio in E.
  destruct (2 ^ 2098 <=? PyFloat.round_raw N D) eqn:Eo.
  - exfalso. destruct neg; [apply Hninf|apply Hinf]; rewrite E; reflexivity.
  - apply Z.leb_gt in Eo.
    pose proof (round_raw_representable N D HN HD) as Hrep.
    assert (HM : 0 <= PyFloat.round_raw N D).
    { destruct Hrep as [m [i [Hm [Hi ->]]]].
      assert (0 < 2 ^ i) by (apply Z.pow_pos_nonneg; lia). nia. }
    rewrite E. cbn [Py.bind].
    apply format_2f_fixed; assumption.
Qed.

Lemma extract_and_format_value_idempotent_witness :
  Py.bind (UtilsV2.extract_and_format_value (Py.lit "-1,234.567"))
          UtilsV2.extract_and_format_value
  = UtilsV2.extract_and_format_value (Py.lit "-1,234.567").
Proof.
  apply (extract_and_format_value_idempotent (Py.lit "-1,234.567")).
  - vm_compute. reflexivity.
  - vm_compute. discriminate.
  - vm_compute. discriminate.
Defined.

(** C5, as the specification has it, fails: the numeral made of a one and
    four hundred zeros is beyond the doubles; its canonical answer is
    ["inf"], and the canonical answer of ["inf"], which has no digit, is
    ["bug"]. *)
Lemma extract_and_format_value_not_idempotent :
  UtilsV2.well_formed_decimal (Py.lit "1" ++ repeat "0"%char 400) = true
  /\ UtilsV2.extract_and_format_value (Py.lit "1" ++ repeat "0"%char 400)
     = Py.Return (Py.lit "inf")
  /\ UtilsV2.extract_and_format_value (Py.lit "inf") = Py.Return (Py.lit "bug")
  /\ Py.bind (UtilsV2.extract_and_format_value (Py.lit "1" ++ repeat "0"%char 400))
             UtilsV2.extract_and_format_value
     <> UtilsV2.extract_and_format_value (Py.lit "1" ++ repeat "0"%char 400).
Proof.
  assert (E : UtilsV2.extract_and_format_value (Py.lit "1" ++ repeat "0"%char 400)
              = Py.Return (Py.lit "inf")) by (vm_compute; reflexivity).
  split; [vm_compute; reflexivity|]. split; [exact E|].
  split; [reflexivity|].
  rewrite E. vm_compute. discriminate.
Qed.

(** * Further properties *)

(** ** What the backward scan reads *)

Section ScanFacts.
Import Py PyFloat.

(** The canonical answer depends on the input through [numeric_part]. *)
Lemma extract_and_format_value_numeric_part : forall x y,
  UtilsV2.numeric_part x = UtilsV2.numeric_part y ->
  UtilsV2.extract_and_format_value x = UtilsV2.extract_and_format_value y.
Proof.
  intros x y E. unfold UtilsV2.extract_and_format_value. now rewrite E.
Qed.

(** Before the first digit everything is passed over. *)
Lemma scan_skip : forall t u acc,
  (forall c, In c t -> isdigit c = false) ->
  UtilsV2.scan (t ++ u) acc false = UtilsV2.scan u acc false.
Proof.
  induction t as [|c t IH]; intros u acc H; [reflexivity|].
  cbn [app UtilsV2.scan].
  rewrite (H c (or_introl eq_refl)). rewrite !andb_false_r. cbn [orb].
  apply IH. intros c' Hc'. apply H. now right.
Qed.

(** A character that is no digit, point or comma ends the scan once a
    digit has been read: what comes after it is not looked at. *)
Lemma scan_halt : forall u acc fd c tail,
  fd = true \/ (exists d, In d u /\ isdigit d = true) ->
  isdigit c = false -> chr_eqb c "." = false -> chr_eqb c "," = false ->
  UtilsV2.scan (u ++ c :: tail) acc fd = UtilsV2.scan (u ++ [c]) acc fd.
Proof.
  induction u as [|x u IH]; intros acc fd c tail Hfd Hd Hp Hc.
  - destruct Hfd as [->|[d [[] _]]].
    cbn [app UtilsV2.scan]. rewrite Hd, Hp, Hc. cbn [orb andb].
    destruct (chr_eqb c "-"); reflexivity.
  - cbn [app UtilsV2.scan].
    destruct (isdigit x) eqn:Ex.
    + cbn [orb]. apply IH; auto.
    + cbn [orb].
      destruct fd.
      * rewrite !andb_true_r.
        destruct (chr_eqb x "."); [apply IH; auto|].
        destruct (chr_eqb x ","); [apply IH; auto|].
        destruct (chr_eqb x "-"); reflexivity.
      * rewrite !andb_false_r. apply IH; auto.
        right. destruct Hfd as [Hfd|[d [[->|Hin] Hdd]]].
        -- discriminate Hfd.
        -- rewrite Ex in Hdd. discriminate Hdd.
        -- now exists d.
Qed.

(** At the end of the text such a character, the minus sign apart,
    leaves nothing behind. *)
Lemma scan_stop_last : forall u acc fd c,
  isdigit c = false -> chr_eqb c "." = false -> chr_eqb c "," = false ->
  chr_eqb c "-" = false ->
  UtilsV2.scan (u ++ [c]) acc fd = UtilsV2.scan u acc fd.
Proof.
  induction u as [|x u IH]; intros acc fd c Hd Hp Hc Hm.
  - cbn [app UtilsV2.scan]. rewrite Hd, Hp, Hc, Hm. cbn [orb andb].
    now destruct fd.
  - cbn [app UtilsV2.scan]. rewrite !IH by assumption. reflexivity.
Qed.

Lemma isspace_stops : forall c, isspace c = true ->
  isdigit c = false /\ chr_eqb c "." = false /\ chr_eqb c "," = false
  /\ chr_eqb c "-" = false.
Proof.
  intros c H.
  destruct c as [[] [] [] [] [] [] [] []]; try discriminate H; repeat split.
Qed.

Lemma scan_trailing_space : forall ws u acc fd,
  (forall c, In c ws -> isspace c = true) ->
  UtilsV2.scan (u ++ ws) acc fd = UtilsV2.scan u acc fd.
Proof.
  induction ws as [|c ws IH] using rev_ind; intros u acc fd H.
  - now rewrite app_nil_r.
  - rewrite app_assoc.
    destruct (isspace_stops c) as [H1 [H2 [H3 H4]]].
    { apply H. apply in_or_app. right. now left. }
    rewrite scan_stop_last by assumption.
    apply IH. intros c' Hc'. apply H. apply in_or_app. now left.
Qed.

Lemma lstrip_spec : forall s,
  exists ws, s = ws ++ lstrip s /\ (forall c, In c ws -> isspace c = true).
Proof.
  induction s as [|c s IH].
  - exists []. split; [reflexivity|intros c []].
  - cbn [lstrip]. destruct (isspace c) eqn:E.
    + destruct IH as [ws [Hs Hws]]. exists (c :: ws). split.
      * cbn [app]. now rewrite <- Hs.
      * intros c' [<-|Hc']; [exact E|now apply Hws].
    + exists []. split; [reflexivity|intros c' []].
Qed.

Lemma numeric_part_strip : forall s,
  UtilsV2.numeric_part (strip s) = UtilsV2.numeric_part s.
Proof.
  intros s. unfold UtilsV2.numeric_part, strip. f_equal.
  rewrite rev_involutive.
  destruct (lstrip_spec (rev (lstrip s))) as [ws1 [E1 H1]].
  destruct (lstrip_spec s) as [ws0 [E0 H0]].
  assert (Ha : UtilsV2.scan (lstrip (rev (lstrip s))) [] false
               = UtilsV2.scan (rev (lstrip s)) [] false).
  { rewrite E1 at 2. rewrite scan_skip; [reflexivity|].
    intros c Hc. now apply isspace_stops, H1. }
  rewrite Ha. rewrite E0 at 2. rewrite rev_app_distr.
  rewrite scan_trailing_space; [reflexivity|].
  intros c Hc. apply H0. now apply in_rev.
Qed.

Lemma in_lstrip : forall s c, In c (lstrip s) -> In c s.
Proof.
  intros s c H. destruct (lstrip_spec s) as [ws [E _]].
  rewrite E. apply in_or_app. now right.
Qed.

Lemma in_strip : forall s c, In c (strip s) -> In c s.
Proof.
  intros s c H. unfold strip in H.
  apply in_rev in H. apply in_lstrip in H. apply in_rev in H.
  now apply in_lstrip in H.
Qed.

Lemma extract_and_format_value_without_digit : forall s,
  (forall c, In c s -> isdigit c = false) ->
  UtilsV2.extract_and_format_value s = Return (lit "bug").
Proof.
  intros s H. unfold UtilsV2.extract_and_format_value, UtilsV2.numeric_part.
  rewrite scan_without_digit; [reflexivity|].
  intros c Hc. apply H. now apply in_rev.
Qed.

Lemma chr_eqb_neq : forall a b : ascii, a <> b -> chr_eqb a b = false.
Proof.
  intros a b H. apply not_true_is_false. intros E.
  apply Ascii.eqb_eq in E. contradiction.
Qed.

(** Nothing before a halting character that has a digit to its right
    reaches the fragment. *)
Lemma numeric_part_cut : forall (p b : str) (c : ascii),
  (exists d, In d b /\ isdigit d = true) ->
  isdigit c = false -> c <> "."%char -> c <> ","%char ->
  UtilsV2.numeric_part (p ++ c :: b) = UtilsV2.numeric_part (c :: b).
Proof.
  intros p b c [d [Hin Hd]] Hc Hp Hcomma.
  unfold UtilsV2.numeric_part. rewrite rev_app_distr. cbn [rev].
  rewrite <- app_assoc. cbn [app].
  rewrite scan_halt; try assumption; try (now apply chr_eqb_neq); [reflexivity|].
  right. exists d. split; [now apply in_rev in Hin|exact Hd].
Qed.

Lemma numeric_part_drop : forall (b : str) (c : ascii),
  isdigit c = false -> c <> "."%char -> c <> ","%char -> c <> "-"%char ->
  UtilsV2.numeric_part (c :: b) = UtilsV2.numeric_part b.
Proof.
  intros b c Hc Hp Hcomma Hm. unfold UtilsV2.numeric_part. cbn [rev].
  rewrite scan_stop_last; try assumption; try (now apply chr_eqb_neq).
  reflexivity.
Qed.

End ScanFacts.

(** X1: the text that follows the last digit character does not count:
    closing words, a final stop, a stray sign. *)
Theorem text_after_last_digit_is_ignored : forall w t : Py.str,
  (forall c, In c t -> Py.isdigit c = false) ->
  UtilsV2.extract_and_format_value (w ++ t) = UtilsV2.extract_and_format_value w.
Proof.
  intros w t H. apply extract_and_format_value_numeric_part.
  unfold UtilsV2.numeric_part. rewrite rev_app_distr.
  rewrite scan_skip; [reflexivity|].
  intros c Hc. apply H. now apply in_rev.
Qed.

Lemma text_after_last_digit_is_ignored_witness :
  UtilsV2.extract_and_format_value (Py.lit "$1,234.5" ++ Py.lit " dollars.")
  = UtilsV2.extract_and_format_value (Py.lit "$1,234.5").
Proof.
  apply (text_after_last_digit_is_ignored (Py.lit "$1,234.5") (Py.lit " dollars.")).
  intros c Hc. simpl in Hc.
  repeat (destruct Hc as [Hc|Hc]; [subst c; reflexivity|]).
  contradiction.
Defined.

(** X2: once a digit stands to its right, a character that is no digit,
    point or comma cuts the input: nothing before it reaches the answer,
    which is the answer of the input from that character on.  Unless the
    character is a minus sign, it drops out as well with what precedes
    it. *)
Theorem text_before_last_number_is_ignored : forall (p b : Py.str) (c : ascii),
  (exists d, In d b /\ Py.isdigit d = true) ->
  Py.isdigit c = false -> c <> "."%char -> c <> ","%char ->
  UtilsV2.extract_and_format_value (p ++ c :: b)
  = UtilsV2.extract_and_format_value (c :: b)
  /\ (c <> "-"%char ->
      UtilsV2.extract_and_format_value (p ++ c :: b)
      = UtilsV2.extract_and_format_value b).
Proof.
  intros p b c Hd Hc Hp Hcomma.
  pose proof (numeric_part_cut p b c Hd Hc Hp Hcomma) as E1.
  split.
  - now apply extract_and_format_value_numeric_part.
  - intros Hm. apply extract_and_format_value_numeric_part.
    rewrite E1. now apply numeric_part_drop.
Qed.

Lemma text_before_last_number_is_ignored_witness :
  UtilsV2.extract_and_format_value (Py.lit "10" ++ "-"%char :: Py.lit "5")
  = UtilsV2.extract_and_format_value ("-"%char :: Py.lit "5").
Proof.
  apply (text_before_last_number_is_ignored (Py.lit "10") (Py.lit "5") "-"%char).
  - exists "5"%char. split; [now left|reflexivity].
  - reflexivity.
  - discriminate.
  - discriminate.
Defined.

(** X3: white space around the input changes nothing, so that the
    [strip()] the callers apply first is of no effect on the answer. *)
Theorem strip_before_canonicalizing_is_redundant : forall s : Py.str,
  UtilsV2.extract_and_format_value (Py.strip s) = UtilsV2.extract_and_format_value s
  /\ UtilsV3.extract_and_format_value (Py.strip s) = UtilsV3.extract_and_format_value s.
Proof.
  intros s.
  assert (E : UtilsV2.extract_and_format_value (Py.strip s)
              = UtilsV2.extract_and_format_value s).
  { apply extract_and_format_value_numeric_part, numeric_part_strip. }
  split; [exact E|].
  rewrite !v3_extract_and_format_value_eq. exact E.
Qed.

(** ** The answer phrase of the chain-of-thought methods *)

Section AnswerPhrase.
Import Py.

(** The text after the last occurrence is what is left of the input
    behind an occurrence, or else the default. *)
Lemma after_last_from_spec : forall sep s best,
  UtilsV3.after_last_from sep best s = best
  \/ exists pre, s = pre ++ sep ++ UtilsV3.after_last_from sep best s.
Proof.
  intros sep. induction s as [|c s IH]; intros best; [now left|].
  cbn [UtilsV3.after_last_from].
  destruct (startswith sep (c :: s)) eqn:E.
  - destruct (IH (skipn (List.length sep) (c :: s))) as [Hb|[pre Hpre]].
    + right. exists []. rewrite Hb. cbn [app]. now apply startswith_spec.
    + right. exists (c :: pre). cbn [app]. now rewrite <- Hpre.
  - destruct (IH best) as [Hb|[pre Hpre]].
    + now left.
    + right. exists (c :: pre). cbn [app]. now rewrite <- Hpre.
Qed.

Lemma answer_text_spec : forall prediction,
  ChainOfThought.answer_text prediction = prediction
  \/ exists pre, prediction
       = pre ++ lit "The answer is " ++ ChainOfThought.answer_text prediction.
Proof. intros prediction. apply after_last_from_spec. Qed.

End AnswerPhrase.

(** X4: when the text after the last ["The answer is "] holds a digit,
    cutting the prediction at the phrase changes nothing: the concise
    prediction is the canonical answer of the whole prediction (v2
    [run_cot] and [run_decider]; v3 [run_cot], [run_zero_shot] and
    [run_decider]). *)
Theorem answer_phrase_cut_is_redundant : forall prediction : Py.str,
  (exists d, In d (ChainOfThought.answer_text prediction) /\ Py.isdigit d = true) ->
  ChainOfThought.predicted_answer prediction
  = UtilsV2.extract_and_format_value prediction
  /\ ChainOfThought.concise_prediction prediction
     = UtilsV3.extract_and_format_value prediction.
Proof.
  intros prediction Hd.
  assert (E : ChainOfThought.predicted_answer prediction
              = UtilsV2.extract_and_format_value prediction).
  { unfold ChainOfThought.predicted_answer.
    apply extract_and_format_value_numeric_part.
    rewrite numeric_part_strip.
    destruct (answer_text_spec prediction) as [->|[pre Hpre]]; [reflexivity|].
    rewrite Hpre at 2.
    change (Py.lit "The answer is ") with (Py.lit "The answer is" ++ [" "%char]).
    rewrite <- app_assoc, app_assoc. cbn [app].
    rewrite numeric_part_cut;
      [|exact Hd|reflexivity|discriminate|discriminate].
    rewrite numeric_part_drop;
      [reflexivity|reflexivity|discriminate|discriminate|discriminate]. }
  split; [exact E|].
  unfold ChainOfThought.concise_prediction.
  rewrite !v3_extract_and_format_value_eq. exact E.
Qed.

Lemma answer_phrase_cut_is_redundant_witness :
  ChainOfThought.predicted_answer (Py.lit "3 + 4 = 7. The answer is 7")
  = UtilsV2.extract_and_format_value (Py.lit "3 + 4 = 7. The answer is 7").
Proof.
  apply (answer_phrase_cut_is_redundant (Py.lit "3 + 4 = 7. The answer is 7")).
  exists "7"%char. split; [vm_compute; now left|reflexivity].
Defined.

(** X5: when the text after the last ["The answer is "] holds no digit,
    the concise prediction is ["bug"], whatever numbers the prediction
    has before the phrase. *)
Theorem answer_phrase_without_digit_is_bug : forall prediction : Py.str,
  (forall c, In c (ChainOfThought.answer_text prediction) -> Py.isdigit c = false) ->
  ChainOfThought.predicted_answer prediction = Py.Return (Py.lit "bug")
  /\ ChainOfThought.concise_prediction prediction = Py.Return (Py.lit "bug").
Proof.
  intros prediction H.
  assert (E : ChainOfThought.predicted_answer prediction = Py.Return (Py.lit "bug")).
  { unfold ChainOfThought.predicted_answer.
    apply extract_and_format_value_without_digit.
    intros c Hc. apply H. now apply in_strip. }
  split; [exact E|].
  unfold ChainOfThought.concise_prediction.
  rewrite v3_extract_and_format_value_eq. exact E.
Qed.

Lemma answer_phrase_without_digit_is_bug_witness :
  ChainOfThought.predicted_answer (Py.lit "12 apples. The answer is unknown.")
  = Py.Return (Py.lit "bug").
Proof.
  apply (answer_phrase_without_digit_is_bug
           (Py.lit "12 apples. The answer is unknown.")).
  intros c Hc. vm_compute in Hc.
  repeat (destruct Hc as [Hc|Hc]; [subst c; reflexivity|]).
  contradiction.
Defined.

(** ** The fragment and the answers *)

Section Fragment.
Import Py PyFloat.

(** What the loop adds to [numeric_part_reversed]: digit characters and
    points, the first of them a digit, and at most a minus sign last. *)
Lemma scan_shape : forall s acc fd,
  exists new tail,
    UtilsV2.scan s acc fd = acc ++ new ++ tail
    /\ (forall c, In c new -> isdigit c = true \/ c = "."%char)
    /\ (tail = [] \/ tail = lit "-")
    /\ (fd = false ->
        (new = [] /\ tail = [] /\ forall c, In c s -> isdigit c = false)
        \/ (exists d rest, new = d :: rest /\ isdigit d = true)).
Proof.
  induction s as [|x s IH]; intros acc fd.
  - exists [], []. cbn [UtilsV2.scan]. rewrite !app_nil_r.
    split; [reflexivity|]. split; [intros c []|]. split; [now left|].
    intros _. left. split; [reflexivity|]. split; [reflexivity|]. intros c [].
  - cbn [UtilsV2.scan].
    destruct (isdigit x || chr_eqb x "." && fd) eqn:E1.
    + destruct (IH (acc ++ [x]) true) as [new [tail [Hs [Hn [Ht _]]]]].
      exists (x :: new), tail. rewrite Hs, <- app_assoc. cbn [app].
      split; [reflexivity|]. split; [|split; [exact Ht|]].
      * intros c [<-|Hc]; [|now apply Hn].
        apply orb_true_iff in E1. destruct E1 as [E1|E1]; [now left|].
        apply andb_true_iff in E1. destruct E1 as [E1 _].
        apply Ascii.eqb_eq in E1. now right.
      * intros ->. right. exists x, new. split; [reflexivity|].
        rewrite andb_false_r, orb_false_r in E1. exact E1.
    + apply orb_false_iff in E1. destruct E1 as [Ed E1].
      destruct fd.
      * rewrite !andb_true_r.
        destruct (chr_eqb x ",").
        -- destruct (IH acc true) as [new [tail [Hs [Hn [Ht _]]]]].
           exists new, tail.
           split; [exact Hs|]. split; [exact Hn|]. split; [exact Ht|].
           intros H. discriminate H.
        -- destruct (chr_eqb x "-") eqn:Em.
           ++ apply Ascii.eqb_eq in Em. subst x.
              exists [], (lit "-"). cbn [app].
              split; [reflexivity|]. split; [intros c []|].
              split; [now right|]. intros H. discriminate H.
           ++ exists [], []. rewrite !app_nil_r.
              split; [reflexivity|]. split; [intros c []|].
              split; [now left|]. intros H. discriminate H.
      * rewrite !andb_false_r.
        destruct (IH acc false) as [new [tail [Hs [Hn [Ht Hf]]]]].
        exists new, tail.
        split; [exact Hs|]. split; [exact Hn|]. split; [exact Ht|]. intros _.
        destruct (Hf eq_refl) as [[H1 [H2 H3]]|H]; [left|now right].
        split; [exact H1|]. split; [exact H2|].
        intros c [<-|Hc]; [exact Ed|now apply H3].
Qed.

Lemma float_of_str_cases : forall s,
  float_of_str s = Raise ValueError
  \/ exists neg N D, 0 <= N /\ 0 < D /\ float_of_str s = Return (of_ratio neg N D).
Proof.
  intros s. unfold float_of_str.
  destruct (split_sign s) as [neg body].
  destruct (split_point body) as [ip fpo].
  destruct (forallb is_ascii_digit (ip ++ fraction_digits fpo)) eqn:E; [|now left].
  destruct (negb _); [|now left].
  right. eexists neg, _, _. split; [|split; [|reflexivity]].
  - now apply digits_value_nonneg.
  - apply Z.pow_pos_nonneg; lia.
Qed.

(** The answer is ["bug"] or the print of a double made from a ratio. *)
Lemma extract_and_format_value_cases : forall x,
  UtilsV2.extract_and_format_value x = Return (lit "bug")
  \/ exists neg N D, 0 <= N /\ 0 < D
       /\ UtilsV2.extract_and_format_value x = Return (format_2f (of_ratio neg N D)).
Proof.
  intros x. unfold UtilsV2.extract_and_format_value.
  destruct (float_of_str_cases (remove_chr "," (UtilsV2.numeric_part x)))
    as [E|[neg [N [D [HN [HD E]]]]]]; rewrite E.
  - now left.
  - right. now exists neg, N, D.
Qed.

(** The double of a ratio: an infinity, or finite and within the format. *)
Lemma of_ratio_cases : forall neg N D, 0 <= N -> 0 < D ->
  of_ratio neg N D = Infinity neg
  \/ exists M, of_ratio neg N D = Finite neg M
               /\ 0 <= M /\ representable M /\ M < 2 ^ 2098.
Proof.
  intros neg N D HN HD. unfold of_ratio, round_ratio.
  destruct (2 ^ 2098 <=? round_raw N D) eqn:E; [now left|].
  right. exists (round_raw N D). apply Z.leb_gt in E.
  pose proof (round_raw_representable N D HN HD) as Hrep.
  repeat split; auto.
  destruct Hrep as [m [i [Hm [Hi ->]]]].
  assert (0 < 2 ^ i) by (apply Z.pow_pos_nonneg; lia). nia.
Qed.

(** *** The shape of the printed answer *)

Lemma group3_head : forall a l, exists l', group3 (a :: l) = a :: l'.
Proof.
  intros a [|b [|c [|d l]]]; eexists; reflexivity.
Qed.

Lemma group3_last : forall n ds, (List.length ds <= n)%nat -> ds <> [] ->
  forallb is_ascii_digit ds = true ->
  exists l d, group3 ds = l ++ [d] /\ is_ascii_digit d = true.
Proof.
  induction n as [|n IH]; intros ds Hlen Hne Hds.
  - destruct ds; [contradiction|simpl in Hlen; lia].
  - assert (Hself : forall l : str, l <> [] -> forallb is_ascii_digit l = true ->
              exists l' d, l = l' ++ [d] /\ is_ascii_digit d = true).
    { intros l Hl Hall. destruct (exists_last Hl) as [l' [d E]].
      exists l', d. split; [exact E|]. rewrite E, forallb_app in Hall.
      apply andb_true_iff in Hall. destruct Hall as [_ Hall].
      cbn [forallb] in Hall. now rewrite andb_true_r in Hall. }
    destruct ds as [|a [|b [|c [|d ds]]]];
      try (now apply Hself).
    rewrite group3_four.
    cbn [forallb] in Hds.
    apply andb_true_iff in Hds. destruct Hds as [_ Hds].
    apply andb_true_iff in Hds. destruct Hds as [_ Hds].
    apply andb_true_iff in Hds. destruct Hds as [_ Hds].
    destruct (IH (d :: ds)) as [l [e [E He]]];
      [simpl in *; lia|discriminate|exact Hds|].
    exists (a :: b :: c :: ","%char :: l), e. rewrite E. split; [reflexivity|exact He].
Qed.

Lemma split_point_without_point : forall ip fpo,
  ~ In "."%char ip -> split_point (ip ++ fraction_text fpo) = (ip, fpo).
Proof.
  induction ip as [|c ip IH]; intros fpo H.
  - destruct fpo; reflexivity.
  - cbn [app split_point].
    rewrite chr_eqb_neq by (intros ->; apply H; now left).
    rewrite IH; [reflexivity|]. intros Hin. apply H. now right.
Qed.

(** What is printed for a finite double: a well-formed numeral with two
    digits after its only point. *)
Lemma format_2f_shape : forall neg M, 0 <= M ->
  UtilsV2.well_formed_decimal (format_2f (Finite neg M)) = true
  /\ exists body d1 d2,
       format_2f (Finite neg M) = body ++ "."%char :: [d1; d2]
       /\ is_ascii_digit d1 = true /\ is_ascii_digit d2 = true
       /\ ~ In "."%char body.
Proof.
  intros neg M HM.
  pose proof T_pos as HT.
  set (q := rne_div (100 * M) T).
  assert (Hq : 0 <= q) by (apply rne_div_nonneg; lia).
  assert (Ha : 0 <= q / 100) by (apply Z.div_pos; lia).
  destruct (decimal_spec (q / 100) Ha) as [Hds [_ Hne]].
  destruct (grouped_spec (decimal (q / 100)) Hds) as [_ Hgr].
  assert (H1 : 0 <= q mod 100 / 10 <= 9).
  { pose proof (Z.mod_pos_bound q 100 ltac:(lia)).
    split; [apply Z.div_pos; lia|].
    apply Z.lt_succ_r. apply Z.div_lt_upper_bound; lia. }
  assert (H2 : 0 <= q mod 10 <= 9) by (pose proof (Z.mod_pos_bound q 10); lia).
  destruct (digit_chr_spec _ H1) as [Hd1 _].
  destruct (digit_chr_spec _ H2) as [Hd2 _].
  assert (Hrev : forallb is_ascii_digit (rev (decimal (q / 100))) = true).
  { rewrite forallb_forall in *. intros c Hc. apply Hds. now apply in_rev. }
  assert (Hrne : rev (decimal (q / 100)) <> []).
  { intros E. apply Hne. rewrite <- (rev_involutive (decimal (q / 100))), E.
    reflexivity. }
  destruct (group3_last _ _ (le_n _) Hrne Hrev) as [l [e [El He]]].
  destruct (rev (decimal (q / 100))) as [|a r] eqn:Er; [contradiction|].
  destruct (group3_head a r) as [l' El'].
  assert (Ha' : is_ascii_digit a = true).
  { cbn [forallb] in Hrev. now apply andb_true_iff in Hrev. }
  set (G := rev (group3 (a :: r))) in *.
  set (d1 := digit_chr (q mod 100 / 10)) in *.
  set (d2 := digit_chr (q mod 10)) in *.
  assert (Hform : format_2f (Finite neg M)
                  = sign_str neg ++ G ++ fraction_text (Some [d1; d2])).
  { unfold format_2f. fold q. rewrite Er. reflexivity. }
  assert (HG1 : G = e :: rev l).
  { unfold G. rewrite El, rev_app_distr. reflexivity. }
  assert (HG2 : rev G = a :: l').
  { unfold G. now rewrite rev_involutive. }
  assert (Hnp : ~ In "."%char G).
  { intros Hin. rewrite forallb_forall in Hgr. specialize (Hgr _ Hin).
    discriminate Hgr. }
  split.
  - rewrite Hform. unfold UtilsV2.well_formed_decimal.
    assert (Hsm : split_minus (sign_str neg ++ G ++ fraction_text (Some [d1; d2]))
                  = (neg, G ++ fraction_text (Some [d1; d2]))).
    { destruct neg; [reflexivity|]. rewrite HG1. cbn [sign_str app split_minus].
      destruct (ascii_digit_chars e He) as [_ [_ [_ [Em _]]]]. now rewrite Em. }
    rewrite Hsm. cbn [snd].
    rewrite (split_point_without_point G (Some [d1; d2]) Hnp).
    rewrite HG2. rewrite HG1 at 1. rewrite He, Ha', Hgr.
    cbn [List.length Nat.eqb negb forallb andb]. now rewrite Hd1, Hd2.
  - exists (sign_str neg ++ G), d1, d2. rewrite Hform.
    split; [now rewrite <- app_assoc|]. split; [exact Hd1|]. split; [exact Hd2|].
    intros Hin. apply in_app_or in Hin. destruct Hin as [Hin|Hin]; [|contradiction].
    destruct neg; [|contradiction]. destruct Hin as [Hin|[]]. discriminate Hin.
Qed.

End Fragment.

(** X6: whatever the input, the fragment handed to [float] is a run of
    digit characters and points that ends in a digit, with at most a minus
    sign before it; it is empty exactly when the input has no digit.  No
    comma ever enters it, so that [replace(',', '')] changes nothing. *)
Theorem numeric_part_shape : forall x : Py.str,
  exists (neg : bool) (body : Py.str),
    UtilsV2.numeric_part x = PyFloat.sign_str neg ++ body
    /\ (forall c, In c body -> Py.isdigit c = true \/ c = "."%char)
    /\ ((body = [] /\ neg = false /\ forall c, In c x -> Py.isdigit c = false)
        \/ (exists b d, body = b ++ [d] /\ Py.isdigit d = true))
    /\ Py.remove_chr "," (UtilsV2.numeric_part x) = UtilsV2.numeric_part x
    /\ ((forall c, In c x -> Py.isdigit c = false) -> UtilsV2.numeric_part x = []).
Proof.
  intros x.
  assert (Hnone : (forall c, In c x -> Py.isdigit c = false) ->
                  UtilsV2.numeric_part x = []).
  { intros H. unfold UtilsV2.numeric_part.
    rewrite scan_without_digit; [reflexivity|].
    intros c Hc. apply H. now apply in_rev. }
  revert Hnone. unfold UtilsV2.numeric_part. intros Hnone.
  destruct (scan_shape (rev x) [] false) as [new [tail [Hs [Hn [Ht Hf]]]]].
  rewrite Hs. cbn [app].
  assert (Hneg : exists neg, rev tail = PyFloat.sign_str neg
                             /\ (neg = false -> tail = [])).
  { destruct Ht as [-> | ->]; [exists false|exists true]; split; auto.
    intros H. discriminate H. }
  destruct Hneg as [neg [Hneg Hneg']].
  exists neg, (rev new). rewrite rev_app_distr, Hneg.
  assert (Hbody : forall c, In c (rev new) -> Py.isdigit c = true \/ c = "."%char).
  { intros c Hc. apply Hn. now apply in_rev. }
  split; [reflexivity|]. split; [exact Hbody|]. split.
  - destruct (Hf eq_refl) as [[-> [-> H3]]|[d [rest [-> Hd]]]].
    + left. split; [reflexivity|]. split.
      * destruct neg; [discriminate Hneg|reflexivity].
      * intros c Hc. apply H3. now rewrite <- in_rev.
    + right. exists (rev rest), d. split; [reflexivity|exact Hd].
  - split; [|intros H; specialize (Hnone H); rewrite Hs in Hnone;
              cbn [app] in Hnone; rewrite rev_app_distr, Hneg in Hnone;
              exact Hnone].
    apply remove_chr_absent. intros Hin. apply in_app_or in Hin.
    destruct Hin as [Hin|Hin].
    + destruct neg; [|contradiction]. destruct Hin as [Hin|[]]. discriminate Hin.
    + destruct (Hbody _ Hin) as [H|H]; discriminate H.
Qed.

(** X7: the canonicalizer returns on every input, and what it returns is
    ["bug"], ["inf"], ["-inf"], or a well-formed numeral with exactly two
    digits after its only point. *)
Theorem extract_and_format_value_range : forall x : Py.str,
  exists y : Py.str,
    UtilsV2.extract_and_format_value x = Py.Return y
    /\ UtilsV3.extract_and_format_value x = Py.Return y
    /\ (y = Py.lit "bug" \/ y = Py.lit "inf" \/ y = Py.lit "-inf"
        \/ (UtilsV2.well_formed_decimal y = true
            /\ exists body d1 d2,
                 y = body ++ "."%char :: [d1; d2]
                 /\ Py.is_ascii_digit d1 = true /\ Py.is_ascii_digit d2 = true
                 /\ ~ In "."%char body)).
Proof.
  intros x.
  destruct (extract_and_format_value_cases x) as [E|[neg [N [D [HN [HD E]]]]]].
  - exists (Py.lit "bug").
    split; [exact E|]. split; [exact E|]. now left.
  - eexists.
    split; [exact E|]. split; [exact E|].
    destruct (of_ratio_cases neg N D HN HD) as [->|[M [-> [HM _]]]].
    + destruct neg; [right; right; now left|right; now left].
    + right. right. right. now apply format_2f_shape.
Qed.

(** X8: on every input, well-formed or not, a second pass of the
    canonicalizer gives the first answer again, unless that answer is
    ["inf"] or ["-inf"]; in particular ["bug"] stays ["bug"]. *)
Theorem extract_and_format_value_fixed_point : forall x y : Py.str,
  UtilsV2.extract_and_format_value x = Py.Return y ->
  y <> Py.lit "inf" -> y <> Py.lit "-inf" ->
  UtilsV2.extract_and_format_value y = Py.Return y.
Proof.
  intros x y E Hinf Hninf.
  destruct (extract_and_format_value_cases x) as [E'|[neg [N [D [HN [HD E']]]]]];
    rewrite E' in E; injection E as <-.
  - reflexivity.
  - destruct (of_ratio_cases neg N D HN HD) as [Ho|[M [Ho [HM [Hrep Hfin]]]]];
      rewrite Ho in *.
    + exfalso. destruct neg; [now apply Hninf|now apply Hinf].
    + now apply format_2f_fixed.
Qed.

Lemma extract_and_format_value_fixed_point_witness :
  UtilsV2.extract_and_format_value (Py.lit "1,234.50") = Py.Return (Py.lit "1,234.50").
Proof.
  apply (extract_and_format_value_fixed_point
           (Py.lit "The answer is $1,234.5 dollars") (Py.lit "1,234.50")).
  - vm_compute. reflexivity.
  - discriminate.
  - discriminate.
Defined.

(** ** More on the voter *)

Section VoterMore.
Import Py.
Local Open Scope nat_scope.

(** A list without repetition that is not a singleton and not empty has
    two different members. *)
Lemma two_distinct : forall l : list str,
  NoDup l -> l <> [] -> List.length l <> 1 ->
  exists b c, b <> c /\ In b l /\ In c l.
Proof.
  intros [|b [|c l]] Hnd Hne Hlen; [contradiction|simpl in Hlen; lia|].
  exists b, c. split; [|split; [now left|right; now left]].
  inversion Hnd as [|? ? Hn _]; subst. intros ->. apply Hn. now left.
Qed.

(** The voter unfolded, once the largest frequency is known. *)
Lemma select_mode_or_sample_unfold : forall rnd (d : dict nat) m,
  UtilsV3.max_frequency d = Return m ->
  UtilsV3.select_mode_or_sample rnd d
  = if Nat.eqb (List.length (UtilsV3.modes d m)) 1
    then match UtilsV3.modes d m with
         | mode :: _ => Return (mode, lit "mode")
         | [] => Raise IndexError
         end
    else bind (random_choice rnd (UtilsV3.weighted_modes d (UtilsV3.modes d m)))
              (fun choice => Return (choice, lit "sampling")).
Proof.
  intros rnd d m Hm. unfold UtilsV3.select_mode_or_sample. now rewrite Hm.
Qed.

Lemma max_frequency_empty : UtilsV3.max_frequency [] = Raise ValueError.
Proof. reflexivity. Qed.

(** With a positive largest frequency the pool is not empty. *)
Lemma weighted_modes_nonempty : forall (d : dict nat) m a,
  NoDup (map fst d) -> In (a, m) d -> 0 < m ->
  UtilsV3.weighted_modes d (UtilsV3.modes d m) <> [].
Proof.
  intros d m a Hnd Hin Hpos Hnil.
  assert (Hc : count_occ Py.str_eq_dec
                 (UtilsV3.weighted_modes d (UtilsV3.modes d m)) a
               = if in_dec Py.str_eq_dec a (UtilsV3.modes d m) then m else 0).
  { apply count_occ_weighted; [exact Hnd|now apply NoDup_modes|].
    intros b Hb. now apply in_modes. }
  rewrite Hnil in Hc. simpl in Hc.
  destruct (in_dec Py.str_eq_dec a (UtilsV3.modes d m)) as [_|Hn]; [lia|].
  apply Hn. now apply in_modes.
Qed.

(** With frequencies that are all 0 the pool is empty. *)
Lemma weighted_modes_zero : forall (d : dict nat) ms,
  NoDup (map fst d) ->
  (forall a, In a ms -> In (a, 0) d) ->
  UtilsV3.weighted_modes d ms = [].
Proof.
  intros d ms Hnd. induction ms as [|a ms IH]; intros H; [reflexivity|].
  cbn [UtilsV3.weighted_modes flat_map].
  rewrite (dict_get_in _ d a 0 Hnd (H a (or_introl eq_refl))).
  cbn [repeat app]. apply IH. intros b Hb. apply H. now right.
Qed.

Lemma modes_all : forall (d : dict nat) m,
  (forall a f, In (a, f) d -> f = m) -> UtilsV3.modes d m = map fst d.
Proof.
  intros d m H. unfold UtilsV3.modes. f_equal.
  induction d as [|[a f] d IH]; [reflexivity|].
  cbn [filter snd]. rewrite (H a f (or_introl eq_refl)), Nat.eqb_refl.
  f_equal. apply IH. intros b g Hb. apply (H b g). now right.
Qed.

End VoterMore.

(** X9: the tag tells the truth.  ["mode"] comes with the one answer that
    attains the largest frequency, ["sampling"] only when two different
    answers at least attain it. *)
Theorem select_mode_or_sample_tag :
  forall (rnd : nat) (d : Py.dict nat) (a tag : Py.str),
  NoDup (map fst d) ->
  UtilsV3.select_mode_or_sample rnd d = Py.Return (a, tag) ->
  exists m : nat,
    UtilsV3.max_frequency d = Py.Return m
    /\ In (a, m) d
    /\ ((tag = Py.lit "mode" /\ forall b, In (b, m) d -> b = a)
        \/ (tag = Py.lit "sampling"
            /\ exists b c, b <> c /\ In (b, m) d /\ In (c, m) d)).
Proof.
  intros rnd d a tag Hnd Hsel.
  destruct d as [|kv d'] eqn:Ed; [discriminate Hsel|]. rewrite <- Ed in *.
  destruct (max_frequency_spec d) as [m [Hm [[a0 Ha0] Hle]]];
    [rewrite Ed; discriminate|].
  exists m. split; [exact Hm|].
  rewrite (select_mode_or_sample_unfold rnd d m Hm) in Hsel.
  pose proof (NoDup_modes d m Hnd) as Hndm.
  destruct (Nat.eqb (List.length (UtilsV3.modes d m)) 1) eqn:El.
  - destruct (UtilsV3.modes d m) as [|mode [|x ms]] eqn:Em;
      [discriminate El| |discriminate El].
    injection Hsel as <- <-.
    assert (Hin : In mode (UtilsV3.modes d m)) by (rewrite Em; now left).
    split; [now apply in_modes|]. left. split; [reflexivity|].
    intros b Hb. apply in_modes in Hb. rewrite Em in Hb.
    destruct Hb as [<-|[]]. reflexivity.
  - destruct (Py.random_choice rnd _) as [choice|e] eqn:Ec; [|discriminate Hsel].
    cbn [Py.bind] in Hsel. injection Hsel as <- <-.
    apply random_choice_in in Ec.
    apply (count_occ_In Py.str_eq_dec) in Ec.
    rewrite (count_occ_weighted d m) in Ec;
      [|exact Hnd|exact Hndm|intros b Hb; now apply in_modes].
    destruct (in_dec Py.str_eq_dec choice (UtilsV3.modes d m)) as [Hin|_];
      [|inversion Ec].
    split; [now apply in_modes|]. right. split; [reflexivity|].
    destruct (two_distinct (UtilsV3.modes d m) Hndm) as [b [c [Hbc [Hb Hc]]]].
    + intros E. rewrite E in Hin. contradiction.
    + intros E. rewrite E in El. discriminate El.
    + exists b, c. split; [exact Hbc|]. split; now apply in_modes.
Qed.

Lemma select_mode_or_sample_tag_witness :
  exists m : nat,
    UtilsV3.max_frequency [(Py.lit "10.00", 2%nat); (Py.lit "12.00", 2%nat)]
    = Py.Return m
    /\ In (Py.lit "12.00", m) [(Py.lit "10.00", 2%nat); (Py.lit "12.00", 2%nat)].
Proof.
  destruct (select_mode_or_sample_tag 3
              [(Py.lit "10.00", 2%nat); (Py.lit "12.00", 2%nat)]
              (Py.lit "12.00") (Py.lit "sampling"))
    as [m [Hm [Hin _]]].
  - repeat constructor; simpl; intuition discriminate.
  - vm_compute. reflexivity.
  - exists m. split; [exact Hm|exact Hin].
Defined.

(** X10: the voter fails in two cases only.  On the empty table [max]
    raises a [ValueError]; on a table of two answers or more whose
    frequencies are all 0 the pool is empty and [random.choice] raises an
    [IndexError].  On every other table an answer is returned. *)
Theorem select_mode_or_sample_failures :
  forall (rnd : nat) (d : Py.dict nat) (e : Py.exn),
  NoDup (map fst d) ->
  (UtilsV3.select_mode_or_sample rnd d = Py.Raise e
   <-> (d = [] /\ e = Py.ValueError)
       \/ (e = Py.IndexError /\ (2 <= List.length d)%nat
           /\ forall a f, In (a, f) d -> f = 0%nat)).
Proof.
  intros rnd d e Hnd. split.
  - intros Hsel.
    destruct d as [|kv d'] eqn:Ed.
    { left. split; [reflexivity|]. cbn in Hsel. now injection Hsel. }
    rewrite <- Ed in *.
    destruct (max_frequency_spec d) as [m [Hm [[a0 Ha0] Hle]]];
      [rewrite Ed; discriminate|].
    rewrite (select_mode_or_sample_unfold rnd d m Hm) in Hsel.
    destruct (Nat.eqb (List.length (UtilsV3.modes d m)) 1) eqn:El.
    + destruct (UtilsV3.modes d m) as [|mode ms]; [discriminate El|discriminate Hsel].
    + destruct (Nat.eq_dec m 0) as [->|Hpos].
      * assert (Hall : forall a f, In (a, f) d -> f = 0%nat).
        { intros a f Hin. specialize (Hle a f Hin). lia. }
        rewrite (weighted_modes_zero d) in Hsel;
          [|exact Hnd|intros a Ha; now apply in_modes].
        cbn in Hsel. injection Hsel as <-.
        right. split; [reflexivity|]. split; [|exact Hall].
        rewrite (modes_all d 0 Hall), length_map in El.
        apply Nat.eqb_neq in El.
        assert (List.length d <> 0%nat) by (rewrite Ed; discriminate).
        lia.
      * destruct (random_choice_returns Py.str rnd
                    (UtilsV3.weighted_modes d (UtilsV3.modes d m))) as [x Hx].
        { apply (weighted_modes_nonempty d m a0 Hnd Ha0). lia. }
        rewrite Hx in Hsel. discriminate Hsel.
  - intros [[-> ->]|[-> [Hlen Hall]]]; [reflexivity|].
    destruct (max_frequency_spec d) as [m [Hm [[a0 Ha0] Hle]]].
    { intros ->. simpl in Hlen. lia. }
    assert (m = 0%nat) by now apply (Hall a0). subst m.
    rewrite (select_mode_or_sample_unfold rnd d 0 Hm).
    rewrite (modes_all d 0 Hall), length_map.
    destruct (Nat.eqb (List.length d) 1) eqn:El;
      [apply Nat.eqb_eq in El; lia|].
    rewrite (weighted_modes_zero d); [reflexivity|exact Hnd|].
    intros a Ha. apply in_map_iff in Ha. destruct Ha as [[a' f] [<- Hin]].
    cbn [fst]. now rewrite <- (Hall a' f Hin).
Qed.

Lemma select_mode_or_sample_failures_witness :
  UtilsV3.select_mode_or_sample 0 [(Py.lit "1.00", 0%nat); (Py.lit "2.00", 0%nat)]
  = Py.Raise Py.IndexError.
Proof.
  apply (select_mode_or_sample_failures 0
           [(Py.lit "1.00", 0%nat); (Py.lit "2.00", 0%nat)] Py.IndexError).
  - repeat constructor; simpl; intuition discriminate.
  - right. split; [reflexivity|]. split; [simpl; lia|].
    intros a f [H|[H|[]]]; now injection H.
Defined.

(** ** Sampling by frequency *)

Section Sampling.
Import Py Notions.
Local Open Scope nat_scope.

Variable D : Type.

Lemma sample_unfold : forall rnd (u : dict (list D)),
  UtilsV2.sample_based_on_frequency rnd u
  = bind (random_choice rnd (weighted_answers u)) (fun choice => Return (choice, lit "sampling")).
Proof. reflexivity. Qed.

Lemma sample_v3_v2 : forall rnd (u : dict (list D)),
  UtilsV3.sample_based_on_frequency rnd u = UtilsV2.sample_based_on_frequency rnd u.
Proof. reflexivity. Qed.

Lemma pool_length : forall u : dict (list D),
  List.length (weighted_answers u) = list_sum (map (fun kv => List.length (snd kv)) u).
Proof.
  induction u as [|kv u IH]; [reflexivity|].
  unfold weighted_answers in *. cbn [flat_map map list_sum].
  now rewrite length_app, repeat_length, IH.
Qed.

Lemma pool_count_absent : forall (u : dict (list D)) a,
  ~ In a (map fst u) -> count_occ str_eq_dec (weighted_answers u) a = 0.
Proof.
  induction u as [|[k ds] u IH]; intros a H; [reflexivity|].
  unfold weighted_answers in *. cbn [flat_map fst snd]. rewrite count_occ_app.
  rewrite count_occ_repeat_other.
  - apply IH. intros Hin. apply H. now right.
  - intros ->. apply H. now left.
Qed.

(** Every answer is in the weighted_answers as often as it has supporting
    predictions. *)
Lemma pool_count : forall (u : dict (list D)) a details,
  NoDup (map fst u) -> In (a, details) u ->
  count_occ str_eq_dec (weighted_answers u) a = List.length details.
Proof.
  induction u as [|[k ds] u IH]; intros a details Hnd Hin; [contradiction|].
  cbn [map fst] in Hnd. inversion Hnd as [|? ? Hn Hnd']; subst.
  unfold weighted_answers in *. cbn [flat_map fst snd]. rewrite count_occ_app.
  destruct Hin as [E|Hin].
  - injection E as -> ->. rewrite count_occ_repeat_same.
    fold (weighted_answers u). rewrite (pool_count_absent u a Hn). lia.
  - rewrite count_occ_repeat_other.
    + now apply (IH a details).
    + intros ->. apply Hn. apply in_map_iff. now exists (k, details).
Qed.

Lemma pool_in : forall (u : dict (list D)) a,
  In a (weighted_answers u) -> exists details, In (a, details) u /\ details <> [].
Proof.
  induction u as [|[k ds] u IH]; intros a H; [contradiction|].
  unfold weighted_answers in H. cbn [flat_map fst snd] in H. apply in_app_or in H.
  destruct H as [H|H].
  - apply repeat_spec in H as Ha. subst a. exists ds. split; [now left|].
    intros ->. contradiction.
  - destruct (IH a H) as [details [Hin Hne]]. exists details. split; [now right|exact Hne].
Qed.

Lemma filter_shift : forall (f : nat -> bool) (idx : list nat),
  List.length (filter f (map S idx))
  = List.length (filter (fun i => f (S i)) idx).
Proof.
  intros f. induction idx as [|i idx IH]; [reflexivity|].
  cbn [map filter]. destruct (f (S i)); cbn [List.length]; now rewrite IH.
Qed.

(** The indices at which a list holds [a] are as many as its
    occurrences. *)
Lemma count_indices : forall (l : list str) (a dflt : str),
  List.length (filter (fun i => str_eqb (nth i l dflt) a) (seq 0 (List.length l)))
  = count_occ str_eq_dec l a.
Proof.
  induction l as [|x l IH]; intros a dflt; [reflexivity|].
  cbn [List.length seq]. rewrite <- seq_shift.
  cbn [filter nth count_occ].
  rewrite <- (IH a dflt).
  destruct (str_eq_dec x a) as [->|Hne].
  - rewrite str_eqb_refl. cbn [List.length]. f_equal. apply filter_shift.
  - rewrite (str_eqb_neq x a Hne). apply filter_shift.
Qed.

(** Below the size of the weighted_answers the draw is the member at that index. *)
Lemma sample_at : forall (u : dict (list D)) rnd dflt,
  rnd < List.length (weighted_answers u) ->
  UtilsV2.sample_based_on_frequency rnd u
  = Return (nth rnd (weighted_answers u) dflt, lit "sampling").
Proof.
  intros u rnd dflt Hlt. rewrite sample_unfold.
  destruct (weighted_answers u) as [|x l] eqn:E; [simpl in Hlt; lia|].
  unfold random_choice. rewrite Nat.mod_small by exact Hlt.
  cbn [bind]. f_equal. f_equal. apply nth_indep. exact Hlt.
Qed.

Lemma sample_proportional : forall (u : dict (list D)) a details,
  NoDup (map fst u) -> In (a, details) u ->
  List.length
    (filter (fun rnd =>
               match UtilsV2.sample_based_on_frequency rnd u with
               | Return (choice, _) => str_eqb choice a
               | Raise _ => false
               end)
            (seq 0 (list_sum (map (fun kv => List.length (snd kv)) u))))
  = List.length details.
Proof.
  intros u a details Hnd Hin.
  rewrite <- pool_length, <- (pool_count u a details Hnd Hin).
  rewrite <- (count_indices (weighted_answers u) a []).
  f_equal. apply filter_ext_in. intros rnd Hrnd.
  apply in_seq in Hrnd.
  rewrite (sample_at u rnd []) by lia. reflexivity.
Qed.

Lemma sample_returns : forall rnd (u : dict (list D)) r,
  UtilsV2.sample_based_on_frequency rnd u = Return r ->
  snd r = lit "sampling"
  /\ exists details, In (fst r, details) u /\ details <> [].
Proof.
  intros rnd u r H. rewrite sample_unfold in H.
  destruct (random_choice rnd (weighted_answers u)) as [choice|e] eqn:E; [|discriminate H].
  cbn [bind] in H. injection H as <-. split; [reflexivity|].
  apply random_choice_in in E. now apply pool_in.
Qed.

Lemma sample_raises : forall rnd (u : dict (list D)) e,
  UtilsV2.sample_based_on_frequency rnd u = Raise e
  <-> e = IndexError /\ forall a details, In (a, details) u -> details = [].
Proof.
  intros rnd u e. rewrite sample_unfold. split.
  - intros H. destruct (weighted_answers u) as [|x l] eqn:E; [|discriminate H].
    cbn in H. injection H as <-. split; [reflexivity|].
    intros a details Hin. destruct details as [|d ds]; [reflexivity|].
    exfalso.
    assert (Ha : In a (weighted_answers u)).
    { clear E. induction u as [|[k ks] u IH]; [contradiction|].
      unfold weighted_answers. cbn [flat_map fst snd]. apply in_or_app.
      destruct Hin as [Hin|Hin].
      - injection Hin as -> ->. left. now left.
      - right. now apply IH. }
    rewrite E in Ha. contradiction.
  - intros [-> Hall].
    assert (E : weighted_answers u = []).
    { induction u as [|[k ks] u IH]; [reflexivity|].
      unfold weighted_answers. cbn [flat_map fst snd].
      rewrite (Hall k ks (or_introl eq_refl)). cbn [List.length repeat app].
      apply IH. intros a details Hin. apply (Hall a details). now right. }
    rewrite E. reflexivity.
Qed.

(** With one frequency for all answers the weighted_answers of the tie-break is the
    weighted_answers of the sampling. *)
Lemma select_is_sample : forall rnd (u : dict (list D)) n,
  NoDup (map fst u) -> 2 <= List.length u ->
  (forall a details, In (a, details) u -> List.length details = n) ->
  UtilsV2.select_mode_or_sample rnd u = UtilsV2.sample_based_on_frequency rnd u.
Proof.
  intros rnd u n Hnd Hlen Hall.
  rewrite select_mode_or_sample_v2_v3, sample_unfold.
  set (d := map (fun kv => (fst kv, List.length (snd kv))) u).
  assert (Hkeys : map fst d = map fst u).
  { unfold d. rewrite map_map. reflexivity. }
  assert (Hd : forall a f, In (a, f) d -> f = n).
  { intros a f Hin. unfold d in Hin. apply in_map_iff in Hin.
    destruct Hin as [[k ks] [E Hin]]. cbn [fst snd] in E. injection E as <- <-.
    now apply (Hall k ks). }
  assert (Hndd : NoDup (map fst d)) by now rewrite Hkeys.
  destruct (max_frequency_spec d) as [m [Hm [[a0 Ha0] _]]].
  { unfold d. destruct u; [simpl in Hlen; lia|discriminate]. }
  assert (m = n) by now apply (Hd a0). subst m.
  rewrite (select_mode_or_sample_unfold rnd d n Hm).
  rewrite (modes_all d n Hd), length_map.
  assert (El : Nat.eqb (List.length d) 1 = false).
  { apply Nat.eqb_neq. unfold d. rewrite length_map. lia. }
  rewrite El. f_equal.
  rewrite Hkeys.
  assert (Hgen : forall v : dict (list D),
            (forall a details, In (a, details) v -> In (a, details) u) ->
            UtilsV3.weighted_modes d (map fst v) = weighted_answers v).
  { induction v as [|[k ks] v IH]; intros Hv; [reflexivity|].
    unfold weighted_answers. cbn [map fst snd UtilsV3.weighted_modes flat_map].
    assert (Hk : In (k, List.length ks) d).
    { unfold d. apply in_map_iff. exists (k, ks). split; [reflexivity|].
      apply Hv. now left. }
    rewrite (dict_get_in _ d k _ Hndd Hk). f_equal.
    apply IH. intros a details Hin. apply Hv. now right. }
  now rewrite Hgen.
Qed.

End Sampling.

(** ** The draw of the tie-break *)

Section TieBreak.
Import Py.
Local Open Scope nat_scope.

(** The pool of the tie-break has [m] places for each tied answer. *)
Lemma weighted_modes_length : forall (d : dict nat) m (ms : list str),
  NoDup (map fst d) ->
  (forall b, In b ms -> In (b, m) d) ->
  List.length (UtilsV3.weighted_modes d ms) = m * List.length ms.
Proof.
  intros d m ms Hnd. induction ms as [|b ms IH]; intros H.
  - cbn. lia.
  - cbn [UtilsV3.weighted_modes flat_map].
    rewrite (dict_get_in _ d b m Hnd (H b (or_introl eq_refl))).
    rewrite length_app, repeat_length.
    fold (UtilsV3.weighted_modes d ms).
    rewrite IH by (intros c Hc; apply H; now right).
    cbn [List.length]. lia.
Qed.

(** Below the size of a list, the draw is the member at that index. *)
Lemma random_choice_at : forall (l : list str) rnd dflt,
  rnd < List.length l -> random_choice rnd l = Return (nth rnd l dflt).
Proof.
  intros [|x l] rnd dflt Hlt; [simpl in Hlt; lia|].
  unfold random_choice. rewrite Nat.mod_small by exact Hlt.
  f_equal. now apply nth_indep.
Qed.

(** Whatever the number handed out, the draw is the member at that number
    modulo the size. *)
Lemma random_choice_nth_error : forall (l : list str) rnd x,
  random_choice rnd l = Return x ->
  nth_error l (rnd mod List.length l) = Some x.
Proof.
  intros [|y l] rnd x H; [discriminate H|].
  assert (E : nth (rnd mod List.length (y :: l)) (y :: l) y = x).
  { unfold random_choice in H. congruence. }
  rewrite <- E. apply nth_error_nth'.
  apply Nat.mod_upper_bound. discriminate.
Qed.

(** In the tie branch the draws that give a tied answer are as many as
    its places in the pool. *)
Lemma tie_draws : forall (d : dict nat) m a,
  UtilsV3.max_frequency d = Return m ->
  List.length (UtilsV3.modes d m) <> 1 ->
  List.length
    (filter (fun r =>
               match UtilsV3.select_mode_or_sample r d with
               | Return (choice, _) => str_eqb choice a
               | Raise _ => false
               end)
            (seq 0 (List.length (UtilsV3.weighted_modes d (UtilsV3.modes d m)))))
  = count_occ str_eq_dec (UtilsV3.weighted_modes d (UtilsV3.modes d m)) a.
Proof.
  intros d m a Hm Hlen.
  rewrite <- (count_indices (UtilsV3.weighted_modes d (UtilsV3.modes d m)) a []).
  f_equal. apply filter_ext_in. intros r Hr. apply in_seq in Hr.
  rewrite (select_mode_or_sample_unfold r d m Hm).
  apply Nat.eqb_neq in Hlen. rewrite Hlen.
  rewrite (random_choice_at _ r []) by lia. reflexivity.
Qed.

End TieBreak.

(** C10: on a non-empty table the voter only hands out answers of the
    largest frequency [m].  The pool of the tie-break holds every answer
    that attains [m] exactly [m] times and no other answer, so that each
    draw from it is such an answer; whatever is returned, by either branch,
    attains [m]; and something is returned as soon as [m] is positive.  v2
    votes in the same way on the numbers of supporting predictions.  With
    one answer at [m] that answer is returned as the mode.  Otherwise the
    answer returned is the member of the pool at the index drawn, the pool
    has [m] places for each of the tied answers, and of the draws, one for
    each place, exactly [m] return any given tied answer: the draw is
    uniform over the tied candidates. *)
Theorem select_mode_or_sample_attains_max :
  forall (rnd : nat) (d : Py.dict nat),
  d <> [] ->
  NoDup (map fst d) ->
  exists m : nat,
    UtilsV3.max_frequency d = Py.Return m
    /\ (exists a, In (a, m) d)
    /\ (forall a f, In (a, f) d -> (f <= m)%nat)
    /\ (forall a, In (a, m) d ->
         count_occ Py.str_eq_dec
           (UtilsV3.weighted_modes d (UtilsV3.modes d m)) a = m)
    /\ (forall a, ~ In (a, m) d ->
         count_occ Py.str_eq_dec
           (UtilsV3.weighted_modes d (UtilsV3.modes d m)) a = 0%nat)
    /\ (forall a tag,
         UtilsV3.select_mode_or_sample rnd d = Py.Return (a, tag) -> In (a, m) d)
    /\ ((0 < m)%nat ->
        exists a tag,
          UtilsV3.select_mode_or_sample rnd d = Py.Return (a, tag) /\ In (a, m) d)
    /\ (forall (D : Type) (u : Py.dict (list D)),
        map (fun kv => (fst kv, List.length (snd kv))) u = d ->
        UtilsV2.select_mode_or_sample rnd u = UtilsV3.select_mode_or_sample rnd d)
    /\ List.length (UtilsV3.weighted_modes d (UtilsV3.modes d m))
       = (m * List.length (UtilsV3.modes d m))%nat
    /\ (List.length (UtilsV3.modes d m) = 1%nat ->
        exists a, UtilsV3.modes d m = [a]
                  /\ UtilsV3.select_mode_or_sample rnd d
                     = Py.Return (a, Py.lit "mode"))
    /\ (List.length (UtilsV3.modes d m) <> 1%nat ->
        (forall a tag,
           UtilsV3.select_mode_or_sample rnd d = Py.Return (a, tag) ->
           tag = Py.lit "sampling"
           /\ nth_error (UtilsV3.weighted_modes d (UtilsV3.modes d m))
                (rnd mod List.length (UtilsV3.weighted_modes d (UtilsV3.modes d m)))
              = Some a)
        /\ (forall a, In (a, m) d ->
            List.length
              (filter (fun r =>
                         match UtilsV3.select_mode_or_sample r d with
                         | Py.Return (choice, _) => Py.str_eqb choice a
                         | Py.Raise _ => false
                         end)
                      (seq 0 (List.length
                                (UtilsV3.weighted_modes d (UtilsV3.modes d m)))))
            = m)).
Proof.
  intros rnd d Hd Hnd.
  destruct (max_frequency_spec d Hd) as [m [Hm [[a0 Ha0] Hle]]].
  exists m.
  assert (Hcount : forall a,
    count_occ Py.str_eq_dec
      (UtilsV3.weighted_modes d (UtilsV3.modes d m)) a
    = if in_dec Py.str_eq_dec a (UtilsV3.modes d m) then m else 0%nat).
  { intros a. apply count_occ_weighted.
    - exact Hnd.
    - now apply NoDup_modes.
    - intros b Hb. now apply in_modes. }
  assert (Hin : forall a, In (a, m) d ->
    count_occ Py.str_eq_dec (UtilsV3.weighted_modes d (UtilsV3.modes d m)) a = m).
  { intros a Ha. rewrite Hcount.
    destruct (in_dec Py.str_eq_dec a (UtilsV3.modes d m)) as [_|Hn].
    - reflexivity.
    - exfalso. apply Hn. now apply in_modes. }
  assert (Hret : forall a tag,
    UtilsV3.select_mode_or_sample rnd d = Py.Return (a, tag) -> In (a, m) d).
  { intros a tag. unfold UtilsV3.select_mode_or_sample. rewrite Hm. simpl.
    destruct (Nat.eqb (List.length (UtilsV3.modes d m)) 1).
    - destruct (UtilsV3.modes d m) as [|mode ms] eqn:E; [discriminate|].
      intros H. injection H as <- _. apply in_modes. rewrite E. now left.
    - destruct (Py.random_choice rnd _) as [choice|e] eqn:E; [|discriminate].
      simpl. intros H. injection H as <- _.
      apply random_choice_in in E.
      apply (count_occ_In Py.str_eq_dec) in E.
      rewrite Hcount in E.
      destruct (in_dec Py.str_eq_dec choice (UtilsV3.modes d m)) as [Hin'|_].
      + now apply in_modes.
      + inversion E. }
  split; [exact Hm|]. split; [now exists a0|]. split; [exact Hle|].
  split; [exact Hin|]. split.
  { intros a Ha. rewrite Hcount.
    destruct (in_dec Py.str_eq_dec a (UtilsV3.modes d m)) as [Hin'|_].
    - exfalso. apply Ha. now apply in_modes.
    - reflexivity. }
  split; [exact Hret|]. split.
  { intros Hpos.
    assert (Hex : exists r, UtilsV3.select_mode_or_sample rnd d = Py.Return r).
    { unfold UtilsV3.select_mode_or_sample. rewrite Hm. simpl.
      destruct (Nat.eqb (List.length (UtilsV3.modes d m)) 1) eqn:El.
      - destruct (UtilsV3.modes d m) as [|mode ms]; [discriminate El|].
        eexists. reflexivity.
      - destruct (random_choice_returns Py.str rnd
                    (UtilsV3.weighted_modes d (UtilsV3.modes d m))) as [x Hx].
        + intros Hnil.
          assert (Hc := Hcount a0). rewrite Hnil in Hc. simpl in Hc.
          destruct (in_dec Py.str_eq_dec a0 (UtilsV3.modes d m)) as [_|Hn].
          * lia.
          * apply Hn. now apply in_modes.
        + rewrite Hx. eexists. reflexivity. }
    destruct Hex as [[a tag] Hr]. exists a, tag. split; [exact Hr|].
    now apply (Hret a tag). }
  split.
  { intros D u Hu. rewrite select_mode_or_sample_v2_v3, Hu. reflexivity. }
  split.
  { apply weighted_modes_length; [exact Hnd|].
    intros b Hb. now apply in_modes. }
  split.
  { intros Hone. rewrite (select_mode_or_sample_unfold rnd d m Hm), Hone.
    destruct (UtilsV3.modes d m) as [|a [|b ms]]; try discriminate Hone.
    exists a. split; reflexivity. }
  intros Htie. split.
  - intros a tag H.
    rewrite (select_mode_or_sample_unfold rnd d m Hm) in H.
    apply Nat.eqb_neq in Htie. rewrite Htie in H.
    destruct (Py.random_choice rnd _) as [choice|e] eqn:E; [|discriminate H].
    cbn [Py.bind] in H.
    assert (Ea : choice = a) by congruence.
    assert (Et : tag = Py.lit "sampling") by congruence.
    subst choice. split; [exact Et|].
    now apply random_choice_nth_error.
  - intros a Ha. rewrite (tie_draws d m a Hm Htie). now apply Hin.
Qed.

Lemma select_mode_or_sample_attains_max_witness :
  exists m : nat,
    UtilsV3.max_frequency [(Py.lit "10.00", 2%nat); (Py.lit "12.00", 2%nat)]
    = Py.Return m
    /\ exists a tag,
         UtilsV3.select_mode_or_sample 5
           [(Py.lit "10.00", 2%nat); (Py.lit "12.00", 2%nat)] = Py.Return (a, tag)
         /\ In (a, m) [(Py.lit "10.00", 2%nat); (Py.lit "12.00", 2%nat)].
Proof.
  destruct (select_mode_or_sample_attains_max 5
              [(Py.lit "10.00", 2%nat); (Py.lit "12.00", 2%nat)])
    as [m [Hm [_ [_ [_ [_ [_ [Hret _]]]]]]]].
  - discriminate.
  - repeat constructor; simpl; intuition discriminate.
  - exists m. split; [exact Hm|]. apply Hret.
    injection Hm as <-. simpl. lia.
Defined.

(** X11: sampling is proportional to the frequencies.  Among the draws
    the generator can make, one for each place of the weighted_answers, those that
    return an answer are as many as the answer has supporting
    predictions (v2 and v3). *)
Theorem sample_based_on_frequency_proportional :
  forall (D : Type) (u : Py.dict (list D)) (a : Py.str) (details : list D),
  NoDup (map fst u) ->
  In (a, details) u ->
  List.length
    (filter (fun rnd =>
               match UtilsV2.sample_based_on_frequency rnd u with
               | Py.Return (choice, _) => Py.str_eqb choice a
               | Py.Raise _ => false
               end)
            (seq 0 (list_sum (map (fun kv => List.length (snd kv)) u))))
  = List.length details
  /\ (forall rnd, UtilsV3.sample_based_on_frequency rnd u
                  = UtilsV2.sample_based_on_frequency rnd u).
Proof.
  intros D u a details Hnd Hin. split.
  - now apply sample_proportional.
  - intros rnd. apply sample_v3_v2.
Qed.

Lemma sample_based_on_frequency_proportional_witness :
  List.length
    (filter (fun rnd =>
               match UtilsV2.sample_based_on_frequency rnd
                       [(Py.lit "10.00", [tt; tt; tt]); (Py.lit "12.00", [tt])] with
               | Py.Return (choice, _) => Py.str_eqb choice (Py.lit "10.00")
               | Py.Raise _ => false
               end)
            (seq 0 4))
  = 3%nat.
Proof.
  apply (proj1 (sample_based_on_frequency_proportional unit
                  [(Py.lit "10.00", [tt; tt; tt]); (Py.lit "12.00", [tt])]
                  (Py.lit "10.00") [tt; tt; tt]
                  ltac:(repeat constructor; simpl; intuition discriminate)
                  ltac:(now left))).
Defined.

(** X12: [sample_based_on_frequency] returns, with the tag ["sampling"],
    an answer that has a supporting prediction at least; it raises, an
    [IndexError], exactly when no answer has any, the empty dictionary
    included. *)
Theorem sample_based_on_frequency_outcome :
  forall (D : Type) (rnd : nat) (u : Py.dict (list D)),
  (forall r, UtilsV2.sample_based_on_frequency rnd u = Py.Return r ->
             snd r = Py.lit "sampling"
             /\ exists details, In (fst r, details) u /\ details <> [])
  /\ (forall e, UtilsV2.sample_based_on_frequency rnd u = Py.Raise e
                <-> e = Py.IndexError
                    /\ forall a details, In (a, details) u -> details = []).
Proof.
  intros D rnd u. split.
  - apply sample_returns.
  - apply sample_raises.
Qed.

(** X13: when all the answers have the same number of supporting
    predictions, and there are two of them at least, the tie-break of
    [select_mode_or_sample] and [sample_based_on_frequency] draw the same
    answer from the same weighted_answers. *)
Theorem select_mode_or_sample_is_sampling_on_ties :
  forall (D : Type) (rnd : nat) (u : Py.dict (list D)) (n : nat),
  NoDup (map fst u) ->
  (2 <= List.length u)%nat ->
  (forall a details, In (a, details) u -> List.length details = n) ->
  UtilsV2.select_mode_or_sample rnd u = UtilsV2.sample_based_on_frequency rnd u.
Proof.
  intros D rnd u n. apply select_is_sample.
Qed.

Lemma select_mode_or_sample_is_sampling_on_ties_witness :
  UtilsV2.select_mode_or_sample 5
    [(Py.lit "10.00", [tt; tt]); (Py.lit "12.00", [tt; tt])]
  = UtilsV2.sample_based_on_frequency 5
      [(Py.lit "10.00", [tt; tt]); (Py.lit "12.00", [tt; tt])].
Proof.
  apply (select_mode_or_sample_is_sampling_on_ties unit 5
           [(Py.lit "10.00", [tt; tt]); (Py.lit "12.00", [tt; tt])] 2%nat).
  - repeat constructor; simpl; intuition discriminate.
  - simpl. lia.
  - intros a details [H|[H|[]]]; injection H as <- <-; reflexivity.
Defined.

(** ** More on the extraction of the equations *)

Section Fragments.
Import Py Declarative.
Local Open Scope nat_scope.

Lemma startswith_close_cons : forall c v r,
  startswith (lit "]]") (c :: v ++ lit "]]" ++ r)
  = startswith (lit "]]") (c :: v ++ lit "]").
Proof.
  intros c v r. destruct v as [|x v]; cbn.
  - now destruct (chr_eqb "]" c).
  - reflexivity.
Qed.

(** The match stops at the first [[]]]: no line feed and no earlier
    [[]]] in what it spans. *)
Lemma lazy_until_close_first : forall s m r,
  lazy_until_close s = Some (m, r) ->
  exists v, m = v ++ lit "]]" /\ s = m ++ r
            /\ ~ In "010"%char v
            /\ contains (lit "]]") (v ++ lit "]") = false.
Proof.
  induction s as [|c s IH]; intros m r H; [discriminate|].
  cbn [lazy_until_close] in H.
  destruct (startswith (lit "]]") (c :: s)) eqn:E.
  - injection H as <- <-. exists []. split; [reflexivity|].
    split; [now apply (startswith_spec (lit "]]"))|]. split; [intros []|reflexivity].
  - destruct (chr_eqb c "010") eqn:Elf; [discriminate|].
    destruct (lazy_until_close s) as [[m' r']|] eqn:El; [|discriminate].
    injection H as <- <-.
    destruct (IH m' r' eq_refl) as [v [Hv [Hs [Hlf Hc]]]].
    exists (c :: v). split; [cbn [app]; now rewrite Hv|].
    split; [cbn [app]; now rewrite <- Hs|]. split.
    + intros [Heq|Hin]; [subst c; discriminate Elf|contradiction].
    + change ((c :: v) ++ lit "]") with (c :: v ++ lit "]").
      cbn [contains]. rewrite Hc, orb_false_r.
      rewrite <- (startswith_close_cons c v r').
      rewrite Hs, Hv, <- app_assoc in E. exact E.
Qed.

Lemma findall_brackets_from_in : forall s skip m,
  In m (findall_brackets_from skip s) ->
  exists u v w,
    s = u ++ m ++ w /\ m = lit "[[" ++ v ++ lit "]]"
    /\ ~ In "010"%char v
    /\ contains (lit "]]") (v ++ lit "]") = false.
Proof.
  induction s as [|c s IH]; intros skip m H; [contradiction|].
  assert (Htail : forall k, In m (findall_brackets_from k s) ->
            exists u v w,
              c :: s = u ++ m ++ w /\ m = lit "[[" ++ v ++ lit "]]"
              /\ ~ In "010"%char v
              /\ contains (lit "]]") (v ++ lit "]") = false).
  { intros k Hk. destruct (IH k m Hk) as [u [v [w [E Hrest]]]].
    exists (c :: u), v, w. split; [cbn [app]; now rewrite E|exact Hrest]. }
  cbn [findall_brackets_from] in H.
  destruct skip as [|k]; [|now apply (Htail k)].
  destruct (startswith (lit "[[") (c :: s)) eqn:E; [|now apply (Htail 0)].
  destruct (lazy_until_close (skipn 2 (c :: s))) as [[m0 r]|] eqn:El;
    [|now apply (Htail 0)].
  destruct H as [<-|H]; [|now apply (Htail (S (List.length m0)))].
  apply lazy_until_close_first in El. destruct El as [v [Hv [Hs [Hlf Hc]]]].
  apply (startswith_spec (lit "[[")) in E.
  exists [], v, r. split; [|split; [now rewrite Hv|split; assumption]].
  assert (E' : c :: s = lit "[[" ++ m0 ++ r) by (rewrite <- Hs; exact E).
  change ([] ++ (lit "[[" ++ m0) ++ r) with ((lit "[[" ++ m0) ++ r).
  rewrite <- app_assoc. exact E'.
Qed.

Lemma clean_brackets : forall v,
  clean_equation_text (lit "[[" ++ v ++ lit "]]")
  = lit "[[" ++ clean_equation_text v ++ lit "]]".
Proof.
  intros v. unfold clean_equation_text.
  rewrite !filter_app. reflexivity.
Qed.

End Fragments.

(** X14: every fragment found in a prediction is a piece of it that opens
    with [[[], closes with []]] at the first []]] after the opening, and
    stays on one line. *)
Theorem findall_brackets_fragments : forall prediction m : Py.str,
  In m (Declarative.findall_brackets prediction) ->
  exists u v w : Py.str,
    prediction = u ++ m ++ w
    /\ m = Py.lit "[[" ++ v ++ Py.lit "]]"
    /\ ~ In "010"%char v
    /\ Py.contains (Py.lit "]]") (v ++ Py.lit "]") = false.
Proof.
  intros prediction m H. now apply (findall_brackets_from_in prediction 0).
Qed.

Lemma findall_brackets_fragments_witness :
  exists u v w : Py.str,
    Py.lit "a [[eq x = 1]]] b" = u ++ Py.lit "[[eq x = 1]]" ++ w
    /\ Py.lit "[[eq x = 1]]" = Py.lit "[[" ++ v ++ Py.lit "]]"
    /\ ~ In "010"%char v
    /\ Py.contains (Py.lit "]]") (v ++ Py.lit "]") = false.
Proof.
  apply (findall_brackets_fragments (Py.lit "a [[eq x = 1]]] b") (Py.lit "[[eq x = 1]]")).
  vm_compute. now left.
Defined.

(** X15: cleaning keeps the brackets, and the slice [[2:-2]] then takes
    exactly them away: from a fragment [[[v]]] what goes on to the second
    pass is [v] cleaned. *)
Theorem cleaned_fragment_loses_its_brackets : forall v : Py.str,
  Py.slice_2_minus2
    (Declarative.clean_equation_text (Py.lit "[[" ++ v ++ Py.lit "]]"))
  = Declarative.clean_equation_text v.
Proof.
  intros v. rewrite clean_brackets. unfold Py.slice_2_minus2.
  set (cv := Declarative.clean_equation_text v).
  replace (List.length (Py.lit "[[" ++ cv ++ Py.lit "]]") - 4)%nat
    with (List.length cv) by (rewrite !length_app; simpl; lia).
  change (skipn 2 (Py.lit "[[" ++ cv ++ Py.lit "]]")) with (cv ++ Py.lit "]]").
  rewrite firstn_app, Nat.sub_diag, firstn_all. cbn [firstn]. apply app_nil_r.
Qed.

Section Tags.
Import Py Declarative.

Lemma startswith_app : forall p x b,
  startswith p x = true -> startswith p (x ++ b) = true.
Proof.
  induction p as [|a p IH]; intros x b H; [reflexivity|].
  destruct x as [|c x]; [discriminate H|].
  cbn [app startswith] in *. apply andb_true_iff in H. destruct H as [H1 H2].
  rewrite H1. cbn [andb]. now apply IH.
Qed.

Lemma contains_app_l : forall p x b,
  contains p x = true -> contains p (x ++ b) = true.
Proof.
  intros p. induction x as [|c x IH]; intros b H.
  - cbn [contains] in H. rewrite orb_false_r in H.
    destruct p; [|discriminate H]. destruct b; reflexivity.
  - cbn [contains] in H. cbn [app contains].
    apply orb_true_iff in H. destruct H as [H|H].
    + change (c :: x ++ b) with ((c :: x) ++ b).
      now rewrite (startswith_app p (c :: x) b H).
    + rewrite (IH b H). apply orb_true_r.
Qed.

Lemma contains_app_r : forall p a x,
  contains p x = true -> contains p (a ++ x) = true.
Proof.
  intros p. induction a as [|c a IH]; intros x H; [exact H|].
  cbn [app contains]. rewrite (IH x H). apply orb_true_r.
Qed.

(** The first piece of a split is a prefix of the text, the others are
    pieces of it. *)
Lemma split_chr_pieces : forall sep s,
  exists w ws,
    split_chr sep s = w :: ws
    /\ (exists b, s = w ++ b)
    /\ (forall tok, In tok ws -> exists a b, s = a ++ tok ++ b).
Proof.
  intros sep. induction s as [|c s IH].
  - exists [], []. split; [reflexivity|]. split; [now exists []|intros tok []].
  - destruct IH as [w [ws [E [[b Hb] Hws]]]].
    cbn [split_chr]. destruct (chr_eqb c sep).
    + exists [], (w :: ws). rewrite E. split; [reflexivity|].
      split; [now exists (c :: s)|].
      intros tok [<-|Hin].
      * exists [c], b. cbn [app]. now rewrite <- Hb.
      * destruct (Hws tok Hin) as [a [b' Hab]].
        exists (c :: a), b'. cbn [app]. now rewrite <- Hab.
    + rewrite E. exists (c :: w), ws. split; [reflexivity|].
      split; [exists b; cbn [app]; now rewrite <- Hb|].
      intros tok Hin. destruct (Hws tok Hin) as [a [b' Hab]].
      exists (c :: a), b'. cbn [app]. now rewrite <- Hab.
Qed.

Lemma split_chr_contains : forall sep p s tok,
  contains p s = false -> In tok (split_chr sep s) -> contains p tok = false.
Proof.
  intros sep p s tok H Hin.
  destruct (split_chr_pieces sep s) as [w [ws [E [[b Hb] Hws]]]].
  rewrite E in Hin.
  apply not_true_is_false. intros Hc.
  assert (Hs : contains p s = true).
  { destruct Hin as [<-|Hin].
    - rewrite Hb. now apply contains_app_l.
    - destruct (Hws tok Hin) as [a [b' ->]].
      apply contains_app_r. now apply contains_app_l. }
  rewrite Hs in H. discriminate H.
Qed.

Lemma after_first_absent : forall p s,
  contains p s = false -> after_first p s = None.
Proof.
  intros p. induction s as [|c s IH]; intros H.
  - cbn [contains] in H. rewrite orb_false_r in H.
    cbn [after_first]. now rewrite H.
  - cbn [contains] in H. apply orb_false_iff in H. destruct H as [H1 H2].
    cbn [after_first]. rewrite H1. now apply IH.
Qed.

End Tags.

(** X16: a text whose pieces carry neither the tag [eq] nor the tag
    [answer] gives the empty string: untagged fragments are dropped, none
    is taken for an equation. *)
Theorem untagged_equations_are_dropped : forall eq_list : Py.str,
  Py.contains (Py.lit "eq") eq_list = false ->
  Py.contains (Py.lit "answer") eq_list = false ->
  Declarative.reformat_equations_from_peano eq_list = [].
Proof.
  intros eq_list Heq Hans. unfold Declarative.reformat_equations_from_peano.
  assert (Htok : forall tok, In tok (Py.split_chr "," eq_list) ->
            Py.after_first (Py.lit "eq") tok = None
            /\ Py.after_first (Py.lit "answer") tok = None).
  { intros tok Hin. split; apply after_first_absent;
      now apply (split_chr_contains "," _ eq_list). }
  revert Htok. generalize (Py.split_chr "," eq_list). intros toks Htok.
  match goal with
  | |- fold_left ?f toks [] = [] =>
      enough (H : forall result, fold_left f toks result = result) by apply H
  end.
  induction toks as [|tok toks IH]; intros result; [reflexivity|].
  cbn [fold_left].
  destruct (Htok tok (or_introl eq_refl)) as [-> ->].
  apply IH. intros t Ht. apply Htok. now right.
Qed.

Lemma untagged_equations_are_dropped_witness :
  Declarative.reformat_equations_from_peano (Py.lit "x + 2 = 5, y = 3") = [].
Proof.
  apply (untagged_equations_are_dropped (Py.lit "x + 2 = 5, y = 3"));
    vm_compute; reflexivity.
Defined.

(** ** More on the renaming of the variables *)

Section RenamingMore.
Import Py Declarative Notions.
Local Open Scope nat_scope.

Lemma word_runs_from_word : forall w run rest,
  forallb is_word w = true ->
  word_runs_from run (w ++ rest) = word_runs_from (rev w ++ run) rest.
Proof.
  induction w as [|c w IH]; intros run rest H; [reflexivity|].
  cbn [forallb] in H. apply andb_true_iff in H. destruct H as [Hc H].
  cbn [app word_runs_from]. rewrite Hc. rewrite IH by exact H.
  cbn [rev]. now rewrite <- app_assoc.
Qed.

Lemma word_runs_from_nil : forall run, word_runs_from run [] = flush run.
Proof. now intros []. Qed.

Lemma word_runs_from_stop : forall run c rest,
  is_word c = false ->
  word_runs_from run (c :: rest) = flush run ++ word_runs_from [] rest.
Proof.
  intros run c rest H. cbn [word_runs_from]. rewrite H. now destruct run.
Qed.

Lemma flush_rev : forall w, flush (rev w) = match w with [] => [] | _ => [w] end.
Proof.
  intros w. destruct w as [|c w]; [reflexivity|].
  unfold flush. destruct (rev (c :: w)) eqn:E.
  - apply (f_equal (@List.length ascii)) in E. rewrite length_rev in E. discriminate E.
  - now rewrite <- E, rev_involutive.
Qed.

Section OneName.

Variables long_var short_var : str.
Hypothesis long_nonempty : long_var <> [].
Hypothesis short_word : forallb is_word short_var = true.
Hypothesis short_nonempty : short_var <> [].

Lemma rename_nil : rename long_var short_var [] = [].
Proof.
  unfold rename. destruct long_var; [contradiction|reflexivity].
Qed.

Lemma rename_word : forall w,
  forallb is_word w = true -> forallb is_word (rename long_var short_var w) = true.
Proof.
  intros w H. unfold rename. now destruct (str_eqb w long_var).
Qed.

Lemma rename_nonempty : forall w, w <> [] -> rename long_var short_var w <> [].
Proof.
  intros w H. unfold rename. now destruct (str_eqb w long_var).
Qed.

Lemma flush_rename : forall run,
  forallb is_word run = true ->
  flush (rev (rename long_var short_var (rev run)))
  = map (rename long_var short_var) (flush run).
Proof.
  intros run H. rewrite flush_rev. destruct run as [|c run].
  - cbn [rev]. now rewrite rename_nil.
  - cbn [flush map].
    assert (Hne : rev (c :: run) <> []).
    { intros E. apply (f_equal (@List.length ascii)) in E.
      rewrite length_rev in E. discriminate E. }
    pose proof (rename_nonempty _ Hne) as Hr.
    destruct (rename long_var short_var (rev (c :: run))); [contradiction|reflexivity].
Qed.

(** [re.sub] maps the runs of word characters one by one. *)
Lemma word_runs_sub_word_from : forall s run,
  forallb is_word run = true ->
  word_runs_from [] (sub_word_from long_var short_var run s)
  = map (rename long_var short_var) (word_runs_from run s).
Proof.
  induction s as [|c s IH]; intros run Hrun.
  - cbn [sub_word_from]. unfold sub_run. fold (rename long_var short_var (rev run)).
    rewrite <- (app_nil_r (rename _ _ _)).
    rewrite word_runs_from_word.
    + rewrite app_nil_r, !word_runs_from_nil. now apply flush_rename.
    + apply rename_word. rewrite forallb_forall in *. intros x Hx.
      apply Hrun. now apply in_rev.
  - cbn [sub_word_from]. destruct (is_word c) eqn:Ec.
    + rewrite IH by (cbn [forallb]; now rewrite Ec, Hrun).
      cbn [word_runs_from]. now rewrite Ec.
    + unfold sub_run. fold (rename long_var short_var (rev run)).
      rewrite word_runs_from_word.
      * rewrite app_nil_r, !word_runs_from_stop by exact Ec.
        rewrite map_app, IH by reflexivity.
        f_equal. now apply flush_rename.
      * apply rename_word. rewrite forallb_forall in *. intros x Hx.
        apply Hrun. now apply in_rev.
Qed.

Lemma sub_word_from_chars : forall s run x,
  In x (sub_word_from long_var short_var run s) ->
  In x short_var \/ In x run \/ In x s.
Proof.
  induction s as [|c s IH]; intros run x H.
  - cbn [sub_word_from] in H. unfold sub_run in H.
    destruct (str_eqb (rev run) long_var); [now left|].
    right. left. now apply in_rev.
  - cbn [sub_word_from] in H. destruct (is_word c).
    + destruct (IH _ _ H) as [H1|[[<-|H1]|H1]]; auto.
      * right. right. now left.
      * right. right. now right.
    + apply in_app_or in H. destruct H as [H|[<-|H]].
      * unfold sub_run in H.
        destruct (str_eqb (rev run) long_var); [now left|].
        right. left. now apply in_rev.
      * right. right. now left.
      * destruct (IH _ _ H) as [H1|[[]|H1]]; auto.
        right. right. now right.
Qed.

End OneName.

Lemma word_runs_fold : forall (m : dict str) s,
  (forall kv, In kv m -> entry_ok kv) ->
  word_runs_from []
    (fold_left (fun equations kv => sub_word (fst kv) (snd kv) equations) m s)
  = map (rename_all m) (word_runs_from [] s).
Proof.
  induction m as [|[l sh] m IH]; intros s H.
  - cbn [fold_left]. unfold rename_all. cbn [fold_left]. now rewrite map_id.
  - cbn [fold_left fst snd]. rewrite IH by (intros kv Hkv; apply H; now right).
    destruct (H (l, sh) (or_introl eq_refl)) as [Hl [_ [c [Hc [Hw _]]]]].
    cbn [fst snd] in *. subst sh.
    unfold sub_word. rewrite word_runs_sub_word_from.
    + rewrite map_map. reflexivity.
    + intros ->. simpl in Hl. lia.
    + cbn [forallb]. now rewrite Hw.
    + discriminate.
    + reflexivity.
Qed.

Lemma comma_fold : forall (m : dict str) s,
  (forall kv, In kv m -> entry_ok kv) ->
  In ","%char
     (fold_left (fun equations kv => sub_word (fst kv) (snd kv) equations) m s) ->
  In ","%char s.
Proof.
  induction m as [|[l sh] m IH]; intros s H Hin; [exact Hin|].
  cbn [fold_left fst snd] in Hin.
  apply IH in Hin; [|intros kv Hkv; apply H; now right].
  destruct (H (l, sh) (or_introl eq_refl)) as [_ [_ [c [Hc [_ Hcomma]]]]].
  cbn [snd] in Hc. subst sh.
  apply sub_word_from_chars in Hin. destruct Hin as [[E|[]]|[[]|Hin]]; [|exact Hin].
  contradiction.
Qed.

Lemma rename_all_short : forall (m : dict str) w,
  (forall kv, In kv m -> entry_ok kv) ->
  List.length w = 1 -> rename_all m w = w.
Proof.
  induction m as [|[l sh] m IH]; intros w H Hw; [reflexivity|].
  unfold rename_all. cbn [fold_left fst snd].
  destruct (H (l, sh) (or_introl eq_refl)) as [Hl _]. cbn [fst] in Hl.
  unfold rename at 2. rewrite str_eqb_neq.
  - apply IH; [intros kv Hkv; apply H; now right|exact Hw].
  - intros ->. lia.
Qed.

Lemma rename_all_miss : forall (m : dict str) w,
  ~ In w (map fst m) -> rename_all m w = w.
Proof.
  induction m as [|[l sh] m IH]; intros w H; [reflexivity|].
  unfold rename_all. cbn [fold_left fst snd].
  unfold rename at 2. rewrite str_eqb_neq.
  - apply IH. intros Hin. apply H. now right.
  - intros ->. apply H. now left.
Qed.

Lemma rename_all_hit : forall (m : dict str) w,
  (forall kv, In kv m -> entry_ok kv) ->
  In w (map fst m) -> List.length (rename_all m w) = 1.
Proof.
  induction m as [|[l sh] m IH]; intros w H Hin; [contradiction|].
  assert (Hm : forall kv, In kv m -> entry_ok kv) by (intros; apply H; now right).
  unfold rename_all. cbn [fold_left fst snd].
  destruct (str_eq_dec w l) as [->|Hne].
  - unfold rename at 2. rewrite str_eqb_refl.
    destruct (H (l, sh) (or_introl eq_refl)) as [_ [_ [c [Hc _]]]].
    cbn [snd] in Hc. subst sh.
    fold (rename_all m [c]). now rewrite rename_all_short.
  - unfold rename at 2. rewrite (str_eqb_neq w l Hne).
    apply IH; [exact Hm|].
    destruct Hin as [E|Hin]; [cbn [fst] in E; congruence|exact Hin].
Qed.

Lemma var_mapping_return : forall longs unused m,
  var_mapping longs unused = Return m ->
  map fst m = longs
  /\ forall kv, In kv m -> exists c, snd kv = [c] /\ In c unused.
Proof.
  induction longs as [|v longs IH]; intros unused m H.
  - cbn in H. injection H as <-. split; [reflexivity|intros kv []].
  - cbn [var_mapping] in H. destruct unused as [|c unused]; [discriminate H|].
    destruct (var_mapping longs unused) as [m'|] eqn:E; [|discriminate H].
    cbn [bind] in H. injection H as <-.
    destruct (IH unused m' E) as [Hf Hs]. split; [cbn [map fst]; now rewrite Hf|].
    intros kv [<-|Hkv].
    + exists c. split; [reflexivity|now left].
    + destruct (Hs kv Hkv) as [c' [Hc' Hin]]. exists c'. split; [exact Hc'|now right].
Qed.

Lemma lowercase_is_word : forall c,
  In c lowercase_letters -> is_word c = true /\ c <> ","%char.
Proof.
  assert (H : forallb (fun c => is_word c && negb (Ascii.eqb c ","%char))
                lowercase_letters = true) by (vm_compute; reflexivity).
  intros c Hc. rewrite forallb_forall in H. specialize (H c Hc).
  apply andb_true_iff in H. destruct H as [H1 H2]. split; [exact H1|].
  intros ->. discriminate H2.
Qed.

Lemma bind_var_mapping_return :
  forall (longs : list str) (unused : list ascii) (F : dict str -> str) simplified m,
  bind (var_mapping longs unused) (fun var_mapping => Return (F var_mapping, var_mapping))
  = Return (simplified, m) ->
  var_mapping longs unused = Return m /\ simplified = F m.
Proof.
  intros longs unused F simplified m H.
  destruct (var_mapping longs unused) as [m'|]; [|discriminate H].
  cbn [bind] in H. injection H as <- <-. now split.
Qed.

(** The mapping of a successful [simplify_variables]. *)
Lemma simplify_variables_in_return : forall var_names equations simplified m,
  (forall v, In v var_names -> In v (findall_names equations)) ->
  simplify_variables_in var_names equations = Return (simplified, m) ->
  simplified
  = fold_left (fun equations kv => sub_word (fst kv) (snd kv) equations) m equations
  /\ map fst m = long_var_names var_names
  /\ (forall kv, In kv m -> entry_ok kv).
Proof.
  intros var_names equations simplified m Hnames H.
  destruct (bind_var_mapping_return
              (long_var_names var_names) (unused_chars var_names)
              (fun m => fold_left (fun equations kv => sub_word (fst kv) (snd kv) equations)
                                  m equations)
              simplified m H) as [E Hs'].
  destruct (var_mapping_return _ _ _ E) as [Hf Hs].
  split; [exact Hs'|]. split; [exact Hf|].
  intros kv Hkv.
  assert (Hk : In (fst kv) (long_var_names var_names)).
  { rewrite <- Hf. now apply in_map. }
  unfold long_var_names in Hk. apply filter_In in Hk. destruct Hk as [Hin Hlen].
  apply Nat.ltb_lt in Hlen.
  split; [exact Hlen|]. split.
  - apply Hnames in Hin. unfold findall_names in Hin.
    apply filter_In in Hin. tauto.
  - destruct (Hs kv Hkv) as [c [Hc Hu]]. exists c. split; [exact Hc|].
    apply lowercase_is_word.
    exact (proj1 (in_unused_chars var_names c Hu)).
Qed.

(** After the renaming every name of the text is one character long. *)
Lemma simplified_names_short : forall var_names equations simplified m,
  (forall v, In v var_names <-> In v (findall_names equations)) ->
  simplify_variables_in var_names equations = Return (simplified, m) ->
  forall w, In w (findall_names simplified) -> List.length w = 1.
Proof.
  intros var_names equations simplified m Hnames H w Hw.
  destruct (simplify_variables_in_return var_names equations simplified m)
    as [-> [Hf Hok]]; [intros v; apply Hnames|exact H|].
  unfold findall_names in Hw. apply filter_In in Hw. destruct Hw as [Hw Hname].
  rewrite (word_runs_fold m equations Hok) in Hw.
  apply in_map_iff in Hw. destruct Hw as [w0 [<- Hw0]].
  destruct (is_name w0) eqn:E0.
  - assert (Hin : In w0 var_names).
    { apply Hnames. unfold findall_names. apply filter_In. now split. }
    destruct (Nat.ltb 1 (List.length w0)) eqn:El.
    + apply rename_all_hit; [exact Hok|]. rewrite Hf.
      unfold long_var_names. apply filter_In. now split.
    + assert (Hl : List.length w0 = 1).
      { apply Nat.ltb_ge in El. destruct w0; [discriminate E0|simpl in *; lia]. }
      now rewrite rename_all_short.
  - rewrite rename_all_miss in Hname; [congruence|].
    intros Hin. apply in_map_iff in Hin. destruct Hin as [kv [Hk Hkv]].
    destruct (Hok kv Hkv) as [_ [Hn _]]. rewrite Hk in Hn. congruence.
Qed.

Lemma nodup_names : forall equations v,
  In v (nodup str_eq_dec (findall_names equations)) <-> In v (findall_names equations).
Proof. intros equations v. apply nodup_In. Qed.

Lemma split_chr_without : forall sep s,
  ~ In sep s -> split_chr sep s = [s].
Proof.
  intros sep. induction s as [|c s IH]; intros H; [reflexivity|].
  cbn [split_chr]. replace (chr_eqb c sep) with false by (symmetry; apply not_true_is_false; intros E; apply Ascii.eqb_eq in E; subst c; apply H; now left).
  rewrite IH; [reflexivity|]. intros Hin. apply H. now right.
Qed.

End RenamingMore.

Section RenamedText.
Import Py Declarative Notions.
Local Open Scope nat_scope.

Lemma simplify_variables_in_unfold : forall var_names equations,
  simplify_variables_in var_names equations
  = bind (var_mapping (long_var_names var_names) (unused_chars var_names))
         (fun var_mapping =>
          Return (fold_left (fun equations kv => sub_word (fst kv) (snd kv) equations)
                            var_mapping equations,
                  var_mapping)).
Proof. reflexivity. Qed.

Lemma var_mapping_nil : forall unused, var_mapping [] unused = Return [].
Proof. reflexivity. Qed.

Lemma long_var_names_short : forall var_names,
  (forall w, In w var_names -> List.length w = 1) ->
  long_var_names var_names = [].
Proof.
  induction var_names as [|v var_names IH]; intros H; [reflexivity|].
  unfold long_var_names in *. cbn [filter].
  rewrite (H v (or_introl eq_refl)). cbn [Nat.ltb Nat.leb].
  apply IH. intros w Hw. apply H. now right.
Qed.

(** A text whose names are all one character long is left as it is, and
    the mapping is empty. *)
Lemma simplify_variables_in_short : forall var_names equations,
  (forall w, In w var_names -> List.length w = 1) ->
  simplify_variables_in var_names equations = Return (equations, []).
Proof.
  intros var_names equations H.
  rewrite simplify_variables_in_unfold, (long_var_names_short var_names H).
  now rewrite var_mapping_nil.
Qed.

Lemma simplify_variables_in_exhausted : forall var_names equations,
  List.length (unused_chars var_names) < List.length (long_var_names var_names) ->
  simplify_variables_in var_names equations = Raise IndexError.
Proof.
  intros var_names equations H.
  rewrite simplify_variables_in_unfold.
  now rewrite (var_mapping_exhausted _ _ H).
Qed.

Lemma findall_names_nan : findall_names (lit "nan") = [lit "nan"].
Proof. vm_compute. reflexivity. Qed.

Lemma simplified_is_not_nan : forall var_names equations simplified m,
  (forall v, In v var_names <-> In v (findall_names equations)) ->
  simplify_variables_in var_names equations = Return (simplified, m) ->
  simplified <> lit "nan".
Proof.
  intros var_names equations simplified m Hn H ->.
  assert (Hl : List.length (lit "nan") = 1).
  { apply (simplified_names_short var_names equations (lit "nan") m Hn H).
    rewrite findall_names_nan. now left. }
  discriminate Hl.
Qed.

Lemma simplified_keeps_commas : forall var_names equations simplified m,
  (forall v, In v var_names -> In v (findall_names equations)) ->
  simplify_variables_in var_names equations = Return (simplified, m) ->
  In ","%char simplified -> In ","%char equations.
Proof.
  intros var_names equations simplified m Hn H Hin.
  destruct (simplify_variables_in_return var_names equations simplified m Hn H)
    as [-> [_ Hok]].
  exact (comma_fold m equations Hok Hin).
Qed.

End RenamedText.

Section OneEquation.
Import Py PyFloat Declarative.
Local Open Scope nat_scope.

Variable sympy : Sympy.

Lemma find_goal_at_once : forall last v,
  find_goal sympy last = Return (inl v) ->
  (exists x, v = VFloat x) \/ v = VStr (lit "invalid equations").
Proof.
  intros last v. unfold find_goal.
  destruct (str_isalpha _ || _); [discriminate|].
  destruct (contains (lit "=") last); [|discriminate].
  destruct (find _ ascii_letters) as [l|].
  - destruct (parse_expr sympy _) as [e|]; [|discriminate]. simpl.
    destruct (sympify sympy e) as [e'|]; [|discriminate]. simpl.
    destruct (bind (solve_expr sympy e') _) as [x|].
    + intros H. cbn in H. injection H as <-. left. now eexists.
    + discriminate.
  - intros H. cbn in H. injection H as <-. now right.
Qed.

Lemma solve_body_one_equation : forall equations v,
  ~ In ","%char equations ->
  solve_body sympy equations = Return v ->
  (exists x, v = VFloat x) \/ v = VStr (lit "invalid equations").
Proof.
  intros equations v Hcomma. unfold solve_body.
  destruct (simplify_variables equations) as [[simplified m]|] eqn:Es; [|discriminate].
  cbn [bind fst].
  assert (Hc : ~ In ","%char simplified).
  { intros Hin. apply Hcomma.
    apply (simplified_keeps_commas (nodup str_eq_dec (findall_names equations))
                                   equations simplified m); [|exact Es|exact Hin].
    intros w Hw. now apply nodup_names. }
  rewrite (split_chr_without _ _ Hc).
  destruct (str_eqb _ _).
  { intros H. injection H as <-. left. now eexists. }
  destruct (existsb three_alpha _).
  { intros H. injection H as <-. now right. }
  destruct (find_goal sympy _) as [[v'|[goal_var l]]|] eqn:Eg; [| |discriminate].
  - cbn [bind]. intros H. injection H as <-. exact (find_goal_at_once _ _ Eg).
  - cbn [bind List.length Nat.eqb].
    destruct (bind (parse_expr sympy _) _) as [x|]; intros H; injection H as <-.
    + left. now eexists.
    + now right.
Qed.

End OneEquation.

(** X17: after a successful renaming every variable name of the text is
    one character long, whatever the order in which the set of names was
    listed. *)
Theorem simplified_names_are_single_characters :
  forall (var_names : list Py.str) (equations simplified : Py.str)
         (mapping : Py.dict Py.str),
  (forall v, In v var_names <-> In v (Declarative.findall_names equations)) ->
  Declarative.simplify_variables_in var_names equations
  = Py.Return (simplified, mapping) ->
  forall w, In w (Declarative.findall_names simplified) -> List.length w = 1%nat.
Proof.
  intros var_names equations simplified mapping Hn H.
  exact (simplified_names_short var_names equations simplified mapping Hn H).
Qed.

Lemma simplified_names_are_single_characters_witness :
  List.length (Py.lit "c") = 1%nat.
Proof.
  apply (simplified_names_are_single_characters
           [Py.lit "pears"; Py.lit "total"; Py.lit "apples"]
           (Py.lit "total = apples + 2 * pears")
           (Py.lit "b = c + 2 * a")
           [(Py.lit "pears", Py.lit "a"); (Py.lit "total", Py.lit "b");
            (Py.lit "apples", Py.lit "c")]).
  - intros v. vm_compute. tauto.
  - vm_compute. reflexivity.
  - vm_compute. right. left. reflexivity.
Defined.

(** X18: the renaming is idempotent: applied to its own result it finds no
    name to replace, and returns the text unchanged with an empty mapping. *)
Theorem simplify_variables_twice :
  forall (var_names var_names' : list Py.str) (equations simplified : Py.str)
         (mapping : Py.dict Py.str),
  (forall v, In v var_names <-> In v (Declarative.findall_names equations)) ->
  Declarative.simplify_variables_in var_names equations
  = Py.Return (simplified, mapping) ->
  (forall v, In v var_names' <-> In v (Declarative.findall_names simplified)) ->
  Declarative.simplify_variables_in var_names' simplified
  = Py.Return (simplified, []).
Proof.
  intros var_names var_names' equations simplified mapping Hn H Hn'.
  apply simplify_variables_in_short. intros w Hw.
  apply (simplified_names_short var_names equations simplified mapping Hn H).
  now apply Hn'.
Qed.

Lemma simplify_variables_twice_witness :
  Declarative.simplify_variables_in [Py.lit "c"; Py.lit "a"; Py.lit "b"]
    (Py.lit "b = c + 2 * a")
  = Py.Return (Py.lit "b = c + 2 * a", []).
Proof.
  apply (simplify_variables_twice
           [Py.lit "pears"; Py.lit "total"; Py.lit "apples"]
           [Py.lit "c"; Py.lit "a"; Py.lit "b"]
           (Py.lit "total = apples + 2 * pears")
           (Py.lit "b = c + 2 * a")
           [(Py.lit "pears", Py.lit "a"); (Py.lit "total", Py.lit "b");
            (Py.lit "apples", Py.lit "c")]).
  - intros v. vm_compute. tauto.
  - vm_compute. reflexivity.
  - intros v. vm_compute. tauto.
Defined.

(** X19: the renamed text is never the string ["nan"], so that the test
    [str(equations) == 'nan'] of the solver never succeeds. *)
Theorem simplified_text_is_never_nan :
  forall (var_names : list Py.str) (equations simplified : Py.str)
         (mapping : Py.dict Py.str),
  (forall v, In v var_names <-> In v (Declarative.findall_names equations)) ->
  Declarative.simplify_variables_in var_names equations
  = Py.Return (simplified, mapping) ->
  Py.str_eqb simplified (Py.lit "nan") = false.
Proof.
  intros var_names equations simplified mapping Hn H.
  apply str_eqb_neq.
  exact (simplified_is_not_nan var_names equations simplified mapping Hn H).
Qed.

Lemma simplified_text_is_never_nan_witness :
  Py.str_eqb (Py.lit "a") (Py.lit "nan") = false.
Proof.
  apply (simplified_text_is_never_nan [Py.lit "nan"] (Py.lit "nan") (Py.lit "a")
           [(Py.lit "nan", Py.lit "a")]).
  - intros v. vm_compute. tauto.
  - vm_compute. reflexivity.
Defined.

(** X20: when the names of more than one character outnumber the lowercase
    letters that are no name of the text, [unused_chars.pop(0)] fails on an
    empty list: the renaming raises [IndexError] and the solver answers
    ['bug'], whatever SymPy would do. *)
Theorem too_many_long_names_is_bug :
  forall (sympy : Declarative.Sympy) (equations : Py.str),
  (List.length (Declarative.unused_chars
                  (nodup Py.str_eq_dec (Declarative.findall_names equations)))
   < List.length (Declarative.long_var_names
                    (nodup Py.str_eq_dec (Declarative.findall_names equations))))%nat ->
  Declarative.simplify_variables equations = Py.Raise Py.IndexError
  /\ Declarative.get_final_using_sympy sympy equations
     = Py.Return (Declarative.VStr (Py.lit "bug")).
Proof.
  intros sympy equations H.
  assert (E : Declarative.simplify_variables equations = Py.Raise Py.IndexError).
  { unfold Declarative.simplify_variables.
    now apply simplify_variables_in_exhausted. }
  split; [exact E|].
  unfold Declarative.get_final_using_sympy, Declarative.solve_body.
  rewrite E. reflexivity.
Qed.

Lemma too_many_long_names_is_bug_witness :
  Declarative.simplify_variables
    (Py.lit "aa + ab + ac + ad + ae + af + ag + ah + ai + aj + ak + al + am + an + ao + ap + aq + ar + as + at + au + av + aw + ax + ay + az + ba")
  = Py.Raise Py.IndexError
  /\ Declarative.get_final_using_sympy ArithSympy.sympy
       (Py.lit "aa + ab + ac + ad + ae + af + ag + ah + ai + aj + ak + al + am + an + ao + ap + aq + ar + as + at + au + av + aw + ax + ay + az + ba")
     = Py.Return (Declarative.VStr (Py.lit "bug")).
Proof.
  apply (too_many_long_names_is_bug ArithSympy.sympy
           (Py.lit "aa + ab + ac + ad + ae + af + ag + ah + ai + aj + ak + al + am + an + ao + ap + aq + ar + as + at + au + av + aw + ax + ay + az + ba")).
  vm_compute. reflexivity.
Defined.

(** X21: a text without a comma is a single equation, and for it the solver
    answers a float, ['invalid equations'] or ['bug']: never
    ['no goal found'] and never ['no solution']. *)
Theorem single_equation_answers :
  forall (sympy : Declarative.Sympy) (equations : Py.str),
  ~ In ","%char equations ->
  exists v, Declarative.get_final_using_sympy sympy equations = Py.Return v
    /\ ((exists x, v = Declarative.VFloat x)
        \/ v = Declarative.VStr (Py.lit "invalid equations")
        \/ v = Declarative.VStr (Py.lit "bug")).
Proof.
  intros sympy equations Hc. unfold Declarative.get_final_using_sympy.
  destruct (Declarative.solve_body sympy equations) as [v|e] eqn:E.
  - exists v. split; [reflexivity|].
    destruct (solve_body_one_equation sympy equations v Hc E) as [H|H]; auto.
  - eexists. split; [reflexivity|]. right. now right.
Qed.

Lemma single_equation_answers_witness :
  exists v, Declarative.get_final_using_sympy ArithSympy.sympy (Py.lit "2 + 3 = x")
            = Py.Return v
    /\ ((exists x, v = Declarative.VFloat x)
        \/ v = Declarative.VStr (Py.lit "invalid equations")
        \/ v = Declarative.VStr (Py.lit "bug")).
Proof.
  apply (single_equation_answers ArithSympy.sympy (Py.lit "2 + 3 = x")).
  intros H. vm_compute in H.
  repeat (destruct H as [H|H]; [discriminate H|]). exact H.
Defined.

(** ** The program of a prediction and its run *)

Section Program.
Import Py ProgramAidedLM.
Local Open Scope nat_scope.

Lemma line_of_spec : forall s,
  exists post, s = line_of s ++ post
    /\ ~ In "010"%char (line_of s)
    /\ (post = [] \/ exists r, post = "010"%char :: r).
Proof.
  induction s as [|c s IH].
  - exists []. split; [reflexivity|]. split; [intros []|now left].
  - cbn [line_of]. destruct (chr_eqb c "010") eqn:E.
    + apply Ascii.eqb_eq in E. subst c. exists ("010"%char :: s).
      split; [reflexivity|]. split; [intros []|right; now eexists].
    + destruct IH as [post [H1 [H2 H3]]]. exists post.
      split; [cbn [app]; now rewrite <- H1|]. split; [|exact H3].
      intros [Hc|Hin]; [|now apply H2].
      subst c. cbn in E. discriminate E.
Qed.

Lemma line_of_app : forall p r,
  ~ In "010"%char p -> line_of (p ++ r) = p ++ line_of r.
Proof.
  induction p as [|c p IH]; intros r H; [reflexivity|].
  cbn [app line_of]. destruct (chr_eqb c "010") eqn:E.
  - apply Ascii.eqb_eq in E. subst c. exfalso. apply H. now left.
  - rewrite IH; [reflexivity|]. intros Hin. apply H. now right.
Qed.

Lemma return_result_one_line : ~ In "010"%char (lit "return result").
Proof.
  vm_compute. intros Hin.
  repeat (destruct Hin as [Hin|Hin]; [discriminate Hin|]). exact Hin.
Qed.

Lemma until_return_unfold : forall s,
  until_return s
  = if startswith (lit "return result") s then Some (line_of s)
    else match s with
         | [] => None
         | c :: s' =>
             match until_return s' with
             | Some m => Some (c :: m)
             | None => None
             end
         end.
Proof. intros []; reflexivity. Qed.

(** A match of [.*?return result[^\n]*] at the head of [s]: it runs to the
    end of the line of the first [return result]. *)
Lemma until_return_spec : forall s m,
  until_return s = Some m ->
  exists body tail post,
    s = m ++ post
    /\ m = body ++ lit "return result" ++ tail
    /\ ~ In "010"%char tail
    /\ (post = [] \/ exists r, post = "010"%char :: r)
    /\ (forall i, i < List.length body ->
        startswith (lit "return result") (skipn i s) = false).
Proof.
  induction s as [|c s IH]; intros m H.
  - cbn in H. discriminate H.
  - rewrite until_return_unfold in H.
    destruct (startswith (lit "return result") (c :: s)) eqn:E.
    + assert (Hm : m = line_of (c :: s)) by congruence. subst m. clear H.
      pose proof (startswith_spec _ _ E) as Hs.
      remember (skipn (List.length (lit "return result")) (c :: s)) as r eqn:Er.
      clear Er E. rewrite Hs. clear Hs.
      rewrite (line_of_app _ r return_result_one_line).
      destruct (line_of_spec r) as [post [H1 [H2 H3]]].
      exists [], (line_of r), post.
      split; [rewrite <- app_assoc; now rewrite <- H1|].
      split; [reflexivity|]. split; [exact H2|]. split; [exact H3|].
      intros i Hi. cbn in Hi. lia.
    + destruct (until_return s) as [m'|] eqn:Eu; [|discriminate H].
      injection H as <-.
      destruct (IH m' eq_refl) as [body [tail [post [H1 [H2 [H3 [H4 H5]]]]]]].
      exists (c :: body), tail, post.
      split; [cbn [app]; now rewrite <- H1|].
      split; [cbn [app]; now rewrite H2|]. split; [exact H3|]. split; [exact H4|].
      intros [|i] Hi; [exact E|].
      cbn [skipn]. apply H5. cbn [List.length] in Hi. lia.
Qed.

Lemma until_return_none : forall s,
  until_return s = None -> contains (lit "return result") s = false.
Proof.
  induction s as [|c s IH]; intros H.
  - reflexivity.
  - cbn [until_return] in H. cbn [contains].
    destruct (startswith (lit "return result") (c :: s)); [discriminate H|].
    destruct (until_return s); [discriminate H|].
    cbn [orb]. now apply IH.
Qed.

Lemma search_solution_spec : forall s m,
  search_solution s = Some m ->
  exists pre body tail post,
    s = pre ++ m ++ post
    /\ m = lit "def solution" ++ body ++ lit "return result" ++ tail
    /\ ~ In "010"%char tail
    /\ (post = [] \/ exists r, post = "010"%char :: r)
    /\ (forall i, i < List.length body ->
        startswith (lit "return result")
                   (skipn i (body ++ lit "return result" ++ tail ++ post)) = false).
Proof.
  induction s as [|c s IH]; intros m H.
  - cbn in H. discriminate H.
  - cbn [search_solution] in H.
    destruct (if startswith (lit "def solution") (c :: s)
              then until_return (skipn 12 (c :: s)) else None) as [m'|] eqn:E.
    + assert (Hm : m = lit "def solution" ++ m') by congruence. subst m. clear H.
      destruct (startswith (lit "def solution") (c :: s)) eqn:Es; [|discriminate E].
      pose proof (startswith_spec _ _ Es) as Hs.
      change (List.length (lit "def solution")) with 12 in Hs.
      remember (skipn 12 (c :: s)) as r eqn:Er. clear Er.
      destruct (until_return_spec r m' E) as [body [tail [post [H1 [H2 [H3 [H4 H5]]]]]]].
      exists [], body, tail, post.
      split; [cbn [app]; rewrite Hs, <- app_assoc; now rewrite <- H1|].
      split; [now rewrite H2|]. split; [exact H3|]. split; [exact H4|].
      intros i Hi. specialize (H5 i Hi).
      rewrite H1, H2, <- !app_assoc in H5. exact H5.
    + destruct (IH m H) as [pre [body [tail [post [H1 H2]]]]].
      exists (c :: pre), body, tail, post.
      split; [cbn [app]; now rewrite <- H1|exact H2].
Qed.

Lemma startswith_contains : forall p s, startswith p s = true -> contains p s = true.
Proof. intros p s H. destruct s; cbn [contains]; now rewrite H. Qed.

(** No match without both phrases. *)
Lemma search_solution_none : forall s,
  contains (lit "def solution") s = false
  \/ contains (lit "return result") s = false ->
  search_solution s = None.
Proof.
  intros s H. destruct (search_solution s) as [m|] eqn:E; [|reflexivity].
  exfalso.
  destruct (search_solution_spec s m E) as [pre [body [tail [post [H1 [H2 _]]]]]].
  assert (Hd : contains (lit "def solution") s = true).
  { rewrite H1, H2. apply contains_app_r. rewrite <- !app_assoc.
    apply startswith_contains.
    apply (startswith_app (lit "def solution") (lit "def solution")). reflexivity. }
  assert (Hr : contains (lit "return result") s = true).
  { rewrite H1, H2. apply contains_app_r. rewrite <- !app_assoc.
    apply contains_app_r. apply contains_app_r. apply startswith_contains.
    apply (startswith_app (lit "return result") (lit "return result")). reflexivity. }
  destruct H as [H|H]; congruence.
Qed.

End Program.

(** X22: the program cut out of a prediction is empty, or it is a piece of
    the prediction that begins with [def solution], runs to the first
    [return result] after it and on to the end of that line; it is empty
    whenever one of the two phrases is missing. *)
Theorem program_of_shape : forall prediction : Py.str,
  (ProgramAidedLM.program_of prediction = []
   \/ exists pre body tail post,
        prediction = pre ++ ProgramAidedLM.program_of prediction ++ post
        /\ ProgramAidedLM.program_of prediction
           = Py.lit "def solution" ++ body ++ Py.lit "return result" ++ tail
        /\ ~ In "010"%char tail
        /\ (post = [] \/ exists r, post = "010"%char :: r)
        /\ (forall i, (i < List.length body)%nat ->
            Py.startswith (Py.lit "return result")
              (skipn i (body ++ Py.lit "return result" ++ tail ++ post)) = false))
  /\ (Py.contains (Py.lit "def solution") prediction = false
      \/ Py.contains (Py.lit "return result") prediction = false ->
      ProgramAidedLM.program_of prediction = []).
Proof.
  intros prediction. unfold ProgramAidedLM.program_of. split.
  - destruct (ProgramAidedLM.search_solution prediction) as [m|] eqn:E; [|now left].
    right. exact (search_solution_spec prediction m E).
  - intros H. now rewrite (search_solution_none prediction H).
Qed.

(** X23: the runner raises only what the writing of the script raises or,
    the script written, what its removal raises; whatever the process does
    (a non-zero exit code, the timeout, any exception) becomes ["bug"], and
    an answer other than ["bug"] is the stripped output of a process that
    ended with code 0. *)
Theorem run_code_with_subprocess_timeout_outcome :
  forall w : ProgramAidedLM.executor,
  (forall e, ProgramAidedLM.run_code_with_subprocess_timeout w = Py.Raise e
             <-> ProgramAidedLM.write_script w = Py.Raise e
                 \/ (ProgramAidedLM.write_script w = Py.Return tt
                     /\ ProgramAidedLM.os_remove w = Py.Raise e))
  /\ (forall answer,
      ProgramAidedLM.run_code_with_subprocess_timeout w = Py.Return answer ->
      answer = Py.lit "bug"
      \/ exists p, ProgramAidedLM.subprocess_run w = Py.Return p
                   /\ Py.returncode p = 0
                   /\ answer = Py.strip (Py.stdout p))
  /\ (forall e, ProgramAidedLM.run_code_with_subprocess_timeout w = Py.Raise e ->
      ProgramAidedLM.predicted_answer w = Py.lit "bug").
Proof.
  intros [ws run rm].
  unfold ProgramAidedLM.predicted_answer,
    ProgramAidedLM.run_code_with_subprocess_timeout, ProgramAidedLM.try_finally.
  cbn [ProgramAidedLM.write_script ProgramAidedLM.subprocess_run
       ProgramAidedLM.os_remove].
  destruct ws as [[]|e0]; cbn [Py.bind].
  - destruct rm as [[]|e1].
    + assert (Hbody : forall a,
        match run with
        | Py.Return completed_process =>
            if Py.returncode completed_process =? 0
            then Py.Return (Py.strip (Py.stdout completed_process))
            else Py.Return (Py.lit "bug")
        | Py.Raise Py.TimeoutExpired => Py.Return (Py.lit "bug")
        | Py.Raise _ => Py.Return (Py.lit "bug")
        end = a ->
        exists answer, a = Py.Return answer
          /\ (answer = Py.lit "bug"
              \/ exists p, run = Py.Return p /\ Py.returncode p = 0
                           /\ answer = Py.strip (Py.stdout p))).
      { intros a <-. destruct run as [p|e].
        - destruct (Py.returncode p =? 0) eqn:E.
          + eexists. split; [reflexivity|]. right. exists p.
            apply Z.eqb_eq in E. now repeat split.
          + eexists. split; [reflexivity|]. now left.
        - destruct e; eexists; (split; [reflexivity|now left]). }
      destruct (Hbody _ eq_refl) as [answer [-> Ha]].
      split; [|split].
      * intros e. split; [discriminate|]. intros [H|[_ H]]; discriminate H.
      * intros a H. injection H as <-. exact Ha.
      * discriminate.
    + split; [|split].
      * intros e. split.
        -- intros H. right. split; [reflexivity|congruence].
        -- intros [H|[_ H]]; [discriminate H|congruence].
      * discriminate.
      * reflexivity.
  - split; [|split].
    + intros e. split.
      * intros H. left. congruence.
      * intros [H|[H _]]; [congruence|discriminate H].
    + discriminate.
    + reflexivity.
Qed.

(** X24: a round of the loop of [run_pal] never raises: it gives the
    program of the prediction followed by the line [#### answer], and the
    answer is ["bug"], ["inf"], ["-inf"] or a well-formed numeral with two
    digits after the point, whatever the run of the program does. *)
Theorem run_pal_prediction_outcome :
  forall (world : Py.str -> ProgramAidedLM.executor) (prediction : Py.str),
  exists concise : Py.str,
    ProgramAidedLM.run_pal_prediction world prediction
    = Py.Return (ProgramAidedLM.program_of prediction
                 ++ "010"%char :: Py.lit "#### " ++ concise,
                 concise)
    /\ (concise = Py.lit "bug" \/ concise = Py.lit "inf" \/ concise = Py.lit "-inf"
        \/ (UtilsV2.well_formed_decimal concise = true
            /\ exists body d1 d2,
                 concise = body ++ "."%char :: [d1; d2]
                 /\ Py.is_ascii_digit d1 = true /\ Py.is_ascii_digit d2 = true)).
Proof.
  intros world prediction. unfold ProgramAidedLM.run_pal_prediction.
  remember (ProgramAidedLM.predicted_answer _) as answer eqn:Ea. clear Ea.
  destruct (Py.str_eqb answer (Py.lit "bug")) eqn:E.
  - apply str_eqb_eq in E. subst answer.
    exists (Py.lit "bug"). split; [reflexivity|now left].
  - destruct (extract_and_format_value_cases answer) as [Ex|[neg [N [D [HN [HD Ex]]]]]];
      rewrite Ex; cbn [Py.bind].
    + exists (Py.lit "bug"). split; [reflexivity|now left].
    + eexists. split; [reflexivity|].
      destruct (of_ratio_cases neg N D HN HD) as [->|[M [-> [HM _]]]].
      * destruct neg; [right; right; now left|right; now left].
      * right. right. right.
        destruct (format_2f_shape neg M HM) as [Hw [body [d1 [d2 [Hb [H1 [H2 _]]]]]]].
        split; [exact Hw|]. now exists body, d1, d2.
Qed.
